(** * Bitget spot order book: the synchronisation and aggregation core

    A shallow embedding of [BitgetManager] (src/Bitget_Spot_Orderbook.py;
    src/app.py carries the same class without [get_metrics] and
    [get_support_resistance]) and the properties of its book, ticker,
    reconnect loop and ranked views.

    Conventions of the embedding.
    - Values produced by [json.loads] are [pyval]s.  JSON numbers with a
      fraction (Python floats) are not part of the model: the exchange sends
      prices and sizes as JSON strings.
    - A [Decimal] is modelled by its numeric value, a rational; equality and
      hashing of Python's [Decimal] are numeric, so is [==] of [Q].  The
      special values (NaN, Infinity) and the negative zero are no values of
      the model: a book holds finite numbers, and a statement about what [D]
      makes of an input is made for inputs that are no literal of a special
      value.  The arithmetic of the context (28 significant digits, the
      rounding of the thread, [Overflow] beyond the exponent range) is
      modelled where the metrics and the scan for the nearest row compute
      with it; the values and totals of the table are exact products and
      sums.
    - A [dict] is an association list in insertion order, which is the order
      Python iterates it in.
    - Network calls, the clock and the stop event are inputs of the functions
      that read them. *)

From Stdlib Require Import List String Ascii ZArith QArith Qabs Lia Lqa Bool.
From Stdlib Require Import Sorted Permutation DecimalString.
From Stdlib Require DecimalFacts DecimalPos DecimalN.
From Stdlib Require Import Qround Qpower.
Import ListNotations.

Set Implicit Arguments.

(** ** Python values *)

Module Py.

Open Scope string_scope.

#[warnings="-register-all"]
Inductive pyval : Type :=
| PNone
| PBool (b : bool)
| PInt (z : Z)
| PStr (s : string)
| PList (l : list pyval)
| PDict (kvs : list (string * pyval)).

(** The exceptions the modelled code can meet. *)
Inductive exn : Type :=
| AttributeError
| TypeError
| KeyError
| IndexError
| ValueError
| RequestException
| InvalidOperation
| Overflow.

Inductive res (A : Type) : Type :=
| Ok (a : A)
| Raise (e : exn).

Arguments Raise {A} e.

Definition bind {A B : Type} (r : res A) (k : A -> res B) : res B :=
  match r with
  | Ok a => k a
  | Raise e => Raise e
  end.

Notation "x <- r ;; k" := (bind r (fun x => k))
  (at level 61, r at next level, right associativity).

(** [bool(v)] *)
Definition truthy (v : pyval) : bool :=
  match v with
  | PNone => false
  | PBool b => b
  | PInt z => negb (z =? 0)%Z
  | PStr s => negb (s =? "")
  | PList l => match l with [] => false | _ => true end
  | PDict kvs => match kvs with [] => false | _ => true end
  end.

(** [a or b] *)
Definition por (a b : pyval) : pyval := if truthy a then a else b.

Fixpoint assoc (k : string) (kvs : list (string * pyval)) : option pyval :=
  match kvs with
  | [] => None
  | (k', v) :: rest => if k =? k' then Some v else assoc k rest
  end.

Definition isinstance_dict (v : pyval) : bool :=
  match v with PDict _ => true | _ => false end.

Definition isinstance_list (v : pyval) : bool :=
  match v with PList _ => true | _ => false end.

(** [v.get(k, dflt)]: only a dict has the method. *)
Definition get_default (k : string) (dflt : pyval) (v : pyval) : res pyval :=
  match v with
  | PDict kvs => Ok (match assoc k kvs with Some x => x | None => dflt end)
  | _ => Raise AttributeError
  end.

(** [v.get(k)] *)
Definition get (k : string) (v : pyval) : res pyval := get_default k PNone v.

(** [k in d] for a dict [d] *)
Definition has_key (k : string) (kvs : list (string * pyval)) : bool :=
  match assoc k kvs with Some _ => true | None => false end.

Definition chars (s : string) : list pyval :=
  map (fun c => PStr (String c EmptyString)) (list_ascii_of_string s).

(** [for x in v]: the elements a loop over [v] visits. *)
Definition iter (v : pyval) : res (list pyval) :=
  match v with
  | PList l => Ok l
  | PStr s => Ok (chars s)
  | PDict kvs => Ok (map (fun kv => PStr (fst kv)) kvs)
  | _ => Raise TypeError
  end.

(** [len(v)] *)
Definition len (v : pyval) : res nat :=
  match v with
  | PList l => Ok (List.length l)
  | PStr s => Ok (String.length s)
  | PDict kvs => Ok (List.length kvs)
  | _ => Raise TypeError
  end.

(** [v[i]] for a literal index [i >= 0].  The keys of a dict that comes from
    JSON are strings, so an integer subscript is always a [KeyError]. *)
Definition index (v : pyval) (i : nat) : res pyval :=
  match v with
  | PList l => match nth_error l i with Some x => Ok x | None => Raise IndexError end
  | PStr s => match nth_error (chars s) i with Some x => Ok x | None => Raise IndexError end
  | PDict _ => Raise KeyError
  | _ => Raise TypeError
  end.

Definition join (sep : string) (l : list string) : string := String.concat sep l.

Definition str_of_Z (z : Z) : string := NilZero.string_of_int (Z.to_int z).

(** [repr(v)]; for a string it is exact when the string holds no quote,
    backslash or non-printable character. *)
Fixpoint repr (v : pyval) : string :=
  match v with
  | PNone => "None"
  | PBool true => "True"
  | PBool false => "False"
  | PInt z => str_of_Z z
  | PStr s => "'" ++ s ++ "'"
  | PList l => "[" ++ join ", " (map repr l) ++ "]"
  | PDict kvs =>
      "{" ++ join ", " (map (fun kv => let '(k, x) := kv in "'" ++ k ++ "': " ++ repr x) kvs) ++ "}"
  end.

(** [str(v)] *)
Definition str (v : pyval) : string :=
  match v with
  | PStr s => s
  | _ => repr v
  end.

(** [sys.get_int_max_str_digits()]: [str] and [repr] of an integer of more
    digits raise [ValueError]. *)
Definition MAX_STR_DIGITS : Z := 4300.

Definition int_str_fails (z : Z) : bool := (10 ^ MAX_STR_DIGITS <=? Z.abs z)%Z.

(** Whether [str(v)] raises: [v] holds an integer too long to be written. *)
Fixpoint str_raises (v : pyval) : bool :=
  match v with
  | PInt z => int_str_fails z
  | PList l => existsb str_raises l
  | PDict kvs => existsb (fun kv => let '(_, x) := kv in str_raises x) kvs
  | _ => false
  end.

(** [needle in haystack] on strings *)
Fixpoint contains (needle hay : string) : bool :=
  if String.prefix needle hay then true
  else match hay with
       | EmptyString => false
       | String _ rest => contains needle rest
       end.

Definition pyval_eq_str (s : string) (v : pyval) : bool :=
  match v with PStr t => s =? t | _ => false end.

(** [s in v] for a string [s] *)
Definition str_in (s : string) (v : pyval) : res bool :=
  match v with
  | PStr h => Ok (contains s h)
  | PList l => Ok (existsb (pyval_eq_str s) l)
  | PDict kvs => Ok (has_key s kvs)
  | _ => Raise TypeError
  end.

End Py.

(** ** Decimal numbers *)

Module Dec.

Import Py.
Open Scope string_scope.

Definition Decimal : Type := Q.

Definition digit_of (c : ascii) : option Z :=
  let n := nat_of_ascii c in
  if ((48 <=? n)%nat && (n <=? 57)%nat)%bool then Some (Z.of_nat (n - 48)) else None.

(** Reads the longest run of digits: its value after [acc], how many digits,
    and what is left. *)
Fixpoint digits (s : string) (acc : Z) (cnt : nat) : Z * nat * string :=
  match s with
  | EmptyString => (acc, cnt, s)
  | String c rest =>
      match digit_of c with
      | Some d => digits rest (10 * acc + d)%Z (S cnt)
      | None => (acc, cnt, s)
      end
  end.

Definition sign_of (s : string) : Z * string :=
  match s with
  | String "-" rest => ((-1)%Z, rest)
  | String "+" rest => (1%Z, rest)
  | _ => (1%Z, s)
  end.

(** The value [c * 10^e]. *)
Definition scale10 (c e : Z) : Q :=
  if (0 <=? e)%Z then inject_Z (c * 10 ^ e) else c # Z.to_pos (10 ^ (- e)).

Definition is_space (c : ascii) : bool :=
  let n := nat_of_ascii c in
  (((9 <=? n)%nat && (n <=? 13)%nat) || ((28 <=? n)%nat && (n <=? 32)%nat))%bool.

Fixpoint lstrip (l : list ascii) : list ascii :=
  match l with
  | c :: rest => if is_space c then lstrip rest else l
  | [] => []
  end.

Definition strip (s : string) : string :=
  string_of_list_ascii (rev (lstrip (rev (lstrip (list_ascii_of_string s))))).

Definition drop_underscores (s : string) : string :=
  string_of_list_ascii
    (filter (fun c => negb (Ascii.eqb c "_")) (list_ascii_of_string s)).

(** The exponent part: nothing, or [E], an optional sign and at least one
    digit, up to the end of the string. *)
Definition exponent (s : string) : option Z :=
  match s with
  | EmptyString => Some 0%Z
  | String c rest =>
      if (Ascii.eqb c "e" || Ascii.eqb c "E")%bool then
        let '(sg, rest1) := sign_of rest in
        match digits rest1 0%Z 0 with
        | (v, S _, EmptyString) => Some (sg * v)%Z
        | _ => None
        end
      else None
  end.

(** [Decimal(s)] for a string [s], on the finite literals
    [sign? digits? (. digits?)? (E sign? digits)?] with a digit before the
    exponent, after [strip()] and the removal of underscores.  [None] is
    [InvalidOperation] when [s] is no literal of a special value (see
    [read_special]) and holds ASCII only; digits and blanks beyond ASCII,
    which Python reads too, are not modelled, nor are the limits of the C
    implementation on exponents beyond 10^18. *)
Definition of_string (s : string) : option Decimal :=
  let '(sg, s1) := sign_of (drop_underscores (strip s)) in
  let '(ip, n1, s2) := digits s1 0%Z 0 in
  let '(fp, n2, s3) :=
    match s2 with
    | String "." rest => digits rest ip 0
    | _ => (ip, 0%nat, s2)
    end in
  match (n1 + n2)%nat with
  | O => None
  | S _ =>
      match exponent s3 with
      | Some e => Some (scale10 (sg * fp) (e - Z.of_nat n2))
      | None => None
      end
  end.

(** *** Special values *)

Inductive special : Type :=
| Infinity (negative : bool)
| NaN
| sNaN.

Definition lower (c : ascii) : ascii :=
  let n := nat_of_ascii c in
  if ((65 <=? n)%nat && (n <=? 90)%nat)%bool then ascii_of_nat (n + 32) else c.

Fixpoint lower_string (s : string) : string :=
  match s with
  | EmptyString => EmptyString
  | String c rest => String (lower c) (lower_string rest)
  end.

Fixpoint only_digits (s : string) : bool :=
  match s with
  | EmptyString => true
  | String c rest => match digit_of c with Some _ => only_digits rest | None => false end
  end.

(** The literals of the special values that [Decimal(s)] reads: after
    [strip()] and without underscores an optional sign and, in any case of
    the letters, [Inf], [Infinity], or [NaN] or [sNaN] with optional
    digits. *)
Definition read_special (s : string) : option special :=
  let '(sg, s1) := sign_of (drop_underscores (strip s)) in
  let t := lower_string s1 in
  if ((t =? "inf") || (t =? "infinity"))%bool then Some (Infinity (sg <? 0)%Z)
  else
    match t with
    | String "n" (String "a" (String "n" rest)) =>
        if only_digits rest then Some NaN else None
    | String "s" (String "n" (String "a" (String "n" rest))) =>
        if only_digits rest then Some sNaN else None
    | _ => None
    end.

(** What [Decimal(s)] is for a string of ASCII characters; [None] is
    [InvalidOperation]. *)
Inductive reading : Type :=
| Finite (d : Decimal)
| Special (v : special).

Definition read (s : string) : option reading :=
  match of_string s with
  | Some d => Some (Finite d)
  | None =>
      match read_special s with
      | Some v => Some (Special v)
      | None => None
      end
  end.

(** The helper [D]: [Decimal(str(x))], and [Decimal(0)] when [str] or the
    conversion raises.  For a string that [read_special] reads the code
    returns the special value, which the model does not have; there the
    model's [D] is 0 and says nothing of the code. *)
Definition D (x : pyval) : Decimal :=
  if str_raises x then 0%Q
  else
    match of_string (str x) with
    | Some d => d
    | None => 0%Q
    end.

(** *** The inputs on which the model's [D] is the code's *)

Definition ascii_only (s : string) : bool :=
  forallb (fun c => (nat_of_ascii c <? 128)%nat) (list_ascii_of_string s).

Definition exponent_free (s : string) : bool :=
  negb (contains "e" s || contains "E" s).

(** A string that [Decimal] reads as a finite number or not at all: ASCII
    only, no literal of a special value, and either no exponent or so few
    characters that the exponent is far from the limits of the C
    implementation. *)
Definition finite_text (s : string) : bool :=
  (ascii_only s
   && match read_special s with Some _ => false | None => true end
   && (exponent_free s || (String.length s <=? 18)%nat))%bool.

(** Any value but a string is written by [str] in a form that [Decimal]
    reads as a finite number (an integer) or not at all. *)
Definition finite_input (x : pyval) : Prop :=
  match x with
  | PStr s => finite_text s = true
  | _ => True
  end.

(** A string that [Decimal] does not read as a signaling NaN, the one value
    on which [==] and [hash] raise. *)
Definition quiet_text (s : string) : bool :=
  (ascii_only s && match read_special s with Some sNaN => false | _ => true end)%bool.

Definition quiet_input (x : pyval) : Prop :=
  match x with
  | PStr s => quiet_text s = true
  | _ => True
  end.

(** [a < b] and [a == b] on Decimals, as the conditions the code tests. *)
Definition ltb (a b : Decimal) : bool := negb (Qle_bool b a).
Definition eqb (a b : Decimal) : bool := Qeq_bool a b.

(** [a > b] and [a < b] for what two strings read as: a comparison with a
    NaN raises. *)
Definition reading_lt (a b : reading) : res bool :=
  match a, b with
  | Finite x, Finite y => Ok (ltb x y)
  | Finite _, Special (Infinity neg) => Ok (negb neg)
  | Special (Infinity neg), Finite _ => Ok neg
  | Special (Infinity na), Special (Infinity nb) => Ok (na && negb nb)%bool
  | _, _ => Raise InvalidOperation
  end.

(** *** The arithmetic of the context *)

(** The rounding of the context.  The context of [decimal] belongs to a
    thread: the file sets [ROUND_HALF_UP] in the thread that loads it, and a
    thread started later begins with the default context, whose rounding is
    [ROUND_HALF_EVEN]. *)
Inductive rounding : Type := ROUND_HALF_UP | ROUND_HALF_EVEN.

(** The precision set at the top of the file, [getcontext().prec], and the
    exponent range of the default context: [Emax], and [Etiny], the least
    exponent of a result. *)
Definition PREC : Z := 28.
Definition EMAX : Z := 999999.
Definition ETINY : Z := -1000026.

(** A magnitude rounded to an integer. *)
Definition round_units (r : rounding) (x : Q) : Z :=
  match r with
  | ROUND_HALF_UP => Qfloor (x + (1 # 2))%Q
  | ROUND_HALF_EVEN =>
      let f := Qfloor x in
      if Qeq_bool (x - inject_Z f)%Q (1 # 2)
      then (if Z.even f then f else f + 1)%Z
      else Qfloor (x + (1 # 2))%Q
  end.

(** The integer logarithm to base [b] of [n >= 1]. *)
Fixpoint ilog_fuel (b : Z) (fuel : nat) (n : Z) : Z :=
  match fuel with
  | O => 0
  | S f => if (n <? b)%Z then 0 else (1 + ilog_fuel b f (n / b))%Z
  end.

Definition ilog (b n : Z) : Z := ilog_fuel b (S (Z.to_nat (Z.log2 n))) n.

(** The exponent of the leading digit of [x > 0] in base [b]: the [a] with
    [b ^ a <= x < b ^ (a + 1)]. *)
Definition adjusted (b : Z) (x : Q) : Z :=
  let a := (ilog b (Qnum x) - ilog b (Zpos (Qden x)))%Z in
  if Qle_bool (inject_Z b ^ a)%Q x then a else (a - 1)%Z.

(** The exponent of the last digit kept of [x > 0]: [prec] digits from the
    leading one, and not below [etiny]. *)
Definition expo (b prec etiny : Z) (x : Q) : Z :=
  Z.max (adjusted b x - prec + 1) etiny.

(** [x] rounded to [prec] significant digits in base [b], to a multiple of
    [b ^ etiny] when it is smaller than that allows. *)
Definition round_to (b prec etiny : Z) (r : rounding) (x : Q) : Q :=
  if Qeq_bool x 0 then 0%Q
  else
    let e := expo b prec etiny (Qabs x) in
    let k := round_units r (Qabs x / inject_Z b ^ e)%Q in
    ((if Qle_bool 0 x then inject_Z k else inject_Z (- k)) * inject_Z b ^ e)%Q.

(** [x] as the context rounds it. *)
Definition context_round (r : rounding) (x : Q) : Q := round_to 10 PREC ETINY r x.

(** What an operation of exact result [x] returns: [x] rounded by the
    context, or [Overflow], which the default context traps, when the
    rounded result lies beyond [Emax]. *)
Definition _fix (r : rounding) (x : Q) : res Decimal :=
  let y := context_round r x in
  if Qeq_bool y 0 then Ok y
  else if (EMAX <? adjusted 10 (Qabs y))%Z then Raise Overflow
  else Ok y.

(** [x + y], [x - y], [x * y], and [x / y] for a divisor that is not zero. *)
Definition add (r : rounding) (x y : Decimal) : res Decimal := _fix r (x + y)%Q.
Definition sub (r : rounding) (x y : Decimal) : res Decimal := _fix r (x - y)%Q.
Definition mul (r : rounding) (x y : Decimal) : res Decimal := _fix r (x * y)%Q.
Definition truediv (r : rounding) (x y : Decimal) : res Decimal := _fix r (x / y)%Q.

(** A Python float: a double, or an infinity. *)
Inductive pyfloat : Type :=
| Float (q : Q)
| FloatInf (negative : bool).

(** [float(d)] for a Decimal [d]: the nearest double, ties to even; an
    infinity beyond the range of the doubles. *)
Definition float_round (x : Q) : Q := round_to 2 53 (-1074) ROUND_HALF_EVEN x.

Definition to_float (x : Decimal) : pyfloat :=
  let y := float_round x in
  if Qeq_bool y 0 then Float y
  else if (1024 <=? adjusted 2 (Qabs y))%Z then FloatInf (negb (Qle_bool 0 x))
  else Float y.

(** The numbers that need no rounding: [c * b ^ e] with [c] of at most
    [prec] digits and [e] not below [etiny]. *)
Definition on_grid (b prec etiny : Z) (x : Q) : Prop :=
  exists c e, (etiny <= e)%Z /\ (Z.abs c < b ^ prec)%Z /\ (x == inject_Z c * inject_Z b ^ e)%Q.

(** A Decimal of at most 28 significant digits. *)
Definition representable (x : Decimal) : Prop := on_grid 10 PREC ETINY x.

End Dec.

(** ** The manager's state *)

Module BitgetManager.

Import Py Dec.
Open Scope string_scope.

(** One side of the book: a [dict] from price to quantity. *)
Definition level : Type := (Decimal * Decimal)%type.
Definition side : Type := list level.

(** [d[p] = q]: an equal key keeps its place, a new key goes last. *)
Fixpoint dict_set (p q : Decimal) (d : side) : side :=
  match d with
  | [] => [(p, q)]
  | (p', q') :: rest =>
      if eqb p' p then (p', q) :: rest else (p', q') :: dict_set p q rest
  end.

(** [d.pop(p, None)] *)
Fixpoint dict_pop (p : Decimal) (d : side) : side :=
  match d with
  | [] => []
  | (p', q') :: rest =>
      if eqb p' p then rest else (p', q') :: dict_pop p rest
  end.

(** [d.get(p)] *)
Fixpoint dict_lookup (p : Decimal) (d : side) : option Decimal :=
  match d with
  | [] => None
  | (p', q') :: rest => if eqb p' p then Some q' else dict_lookup p rest
  end.

(** The fields of [BitgetManager] that hold data; the lock, the thread
    handles and the published data frame are left out, the event [_stop]
    is the flag [stop_set]. *)
Record t : Type := mk {
  bids : side;
  asks : side;
  last_price_str : string;
  prev_price_str : string;
  symbol : string;
  top_n : Z;
  running : bool;
  stop_set : bool;
  last_update_time : Q
}.

Definition set_bids (b : side) (m : t) : t :=
  mk b (asks m) (last_price_str m) (prev_price_str m) (symbol m) (top_n m)
     (running m) (stop_set m) (last_update_time m).

Definition set_asks (a : side) (m : t) : t :=
  mk (bids m) a (last_price_str m) (prev_price_str m) (symbol m) (top_n m)
     (running m) (stop_set m) (last_update_time m).

(** [prev_price_str = last_price_str; last_price_str = s] *)
Definition shift_price (s : string) (m : t) : t :=
  mk (bids m) (asks m) s (last_price_str m) (symbol m) (top_n m)
     (running m) (stop_set m) (last_update_time m).

Definition set_symbol (s : string) (m : t) : t :=
  mk (bids m) (asks m) (last_price_str m) (prev_price_str m) s (top_n m)
     (running m) (stop_set m) (last_update_time m).

Definition set_top_n (n : Z) (m : t) : t :=
  mk (bids m) (asks m) (last_price_str m) (prev_price_str m) (symbol m) n
     (running m) (stop_set m) (last_update_time m).

Definition set_running (b : bool) (m : t) : t :=
  mk (bids m) (asks m) (last_price_str m) (prev_price_str m) (symbol m) (top_n m)
     b (stop_set m) (last_update_time m).

Definition set_stop (b : bool) (m : t) : t :=
  mk (bids m) (asks m) (last_price_str m) (prev_price_str m) (symbol m) (top_n m)
     (running m) b (last_update_time m).

Definition set_time (now : Q) (m : t) : t :=
  mk (bids m) (asks m) (last_price_str m) (prev_price_str m) (symbol m) (top_n m)
     (running m) (stop_set m) now.

(** [__init__], at clock reading [now] *)
Definition init (now : Q) : t :=
  mk [] [] "" "" "BTCUSDT" 5 false false now.

(** [_clear_books] *)
Definition _clear_books (m : t) : t := set_asks [] (set_bids [] m).

(** What [session.get] gives: it raises, or there is a response with a
    status code whose [json()] is a value or raises ([None]). *)
Inductive http : Type :=
| ConnectionError
| Response (status_code : Z) (json : option pyval).

(** [r.json()] *)
Definition response_json (body : option pyval) : res pyval :=
  match body with
  | Some v => Ok v
  | None => Raise ValueError
  end.

(** *** Bootstrap *)

(** The loop of [init_snapshot_and_price] over one raw side:
    [[
      for item in raw:
          if not item or len(item) < 2: continue
          p, q = item[0], item[1]
          side[D(p)] = D(q)
    ]]
    with the side as filled when an exception leaves the loop. *)
Fixpoint load_levels (items : list pyval) (d : side) : side * option exn :=
  match items with
  | [] => (d, None)
  | item :: rest =>
      if negb (truthy item) then load_levels rest d
      else
        match len item with
        | Raise e => (d, Some e)
        | Ok n =>
            if (n <? 2)%nat then load_levels rest d
            else
              match index item 0 with
              | Raise e => (d, Some e)
              | Ok p =>
                  match index item 1 with
                  | Raise e => (d, Some e)
                  | Ok q => load_levels rest (dict_set (D p) (D q) d)
                  end
              end
        end
  end.

(** The request and the reading of its body, before the lock is taken. *)
Definition fetch_orderbook (r : http) : res (pyval * pyval) :=
  match r with
  | ConnectionError => Raise RequestException
  | Response status body =>
      js <- (if (status =? 200)%Z then response_json body else Ok (PDict [])) ;;
      d <- get "data" js ;;
      let data := por d (PDict []) in
      b <- get "bids" data ;;
      let raw_bids := por b (PList []) in
      a <- get "asks" data ;;
      let raw_asks := por a (PList []) in
      Ok (raw_bids, raw_asks)
  end.

(** Under the lock: both sides are cleared and filled again; an exception
    leaves what was stored so far. *)
Definition replace_snapshot (raw_bids raw_asks : pyval) (m : t) : t :=
  let m0 := _clear_books m in
  match iter raw_bids with
  | Raise _ => m0
  | Ok items =>
      let '(b, e) := load_levels items (bids m0) in
      let m1 := set_bids b m0 in
      match e with
      | Some _ => m1
      | None =>
          match iter raw_asks with
          | Raise _ => m1
          | Ok items' => set_asks (fst (load_levels items' (asks m1))) m1
          end
      end
  end.

(** The first [try] block of [init_snapshot_and_price]. *)
Definition init_snapshot (r : http) (m : t) : t :=
  match fetch_orderbook r with
  | Raise _ => m
  | Ok (raw_bids, raw_asks) => replace_snapshot raw_bids raw_asks m
  end.

(** [entry.get("lastPr") or entry.get("last") or entry.get("price")]
    for [entry = data[0]], when [data] is a non-empty list. *)
Definition ticker_field (js : pyval) : res (option pyval) :=
  data <- get "data" js ;;
  match data with
  | PList (entry :: _) =>
      a <- get "lastPr" entry ;;
      b <- get "last" entry ;;
      c <- get "price" entry ;;
      Ok (Some (por a (por b c)))
  | _ => Ok None
  end.

(** The second [try] block of [init_snapshot_and_price]. *)
Definition init_price (r : http) (m : t) : t :=
  match r with
  | ConnectionError => m
  | Response status body =>
      match (js <- (if (status =? 200)%Z then response_json body else Ok (PDict [])) ;;
             ticker_field js) with
      | Ok (Some p) =>
          match p with
          | PNone => m
          | _ =>
              (* prev_price_str is assigned before str(p) is evaluated *)
              if str_raises p then shift_price (last_price_str m) m
              else shift_price (str p) m
          end
      | _ => m
      end
  end.

(** [init_snapshot_and_price(sym)]; [sym] only names the instrument in the
    two requests, whose results are [book] and [ticker]. *)
Definition init_snapshot_and_price (book ticker : http) (m : t) : t :=
  init_price ticker (init_snapshot book m).

(** *** The REST poll *)

(** The body of one round of [_ticker_poll_loop]. *)
Definition ticker_poll (r : http) (m : t) : t :=
  match r with
  | ConnectionError => m
  | Response status body =>
      if (status =? 200)%Z then
        match (js <- response_json body ;; ticker_field js) with
        | Ok (Some p) =>
            match p with
            | PNone => m
            | _ =>
                if str_raises p then m
                else if negb (str p =? last_price_str m) then shift_price (str p) m
                else m
            end
        | _ => m
        end
      else m
  end.

(** [_ticker_poll_loop()] over its rounds: each has the stop flag as the loop
    condition reads it, the reply to the request, and the stop flag as the
    sleeps between two requests read it. *)
Fixpoint _ticker_poll_loop (rounds : list (bool * http * bool)) (m : t) : t :=
  match rounds with
  | [] => m
  | (stop_at_top, r, stop_in_sleep) :: rest =>
      if stop_at_top then m
      else
        let m' := ticker_poll r m in
        if stop_in_sleep then m' else _ticker_poll_loop rest m'
  end.

(** *** The stream *)

(** The loop of [apply_books] over the updates of one side:
    [[
      for it in its:
          try: p, q = D(it[0]), D(it[1])
          except Exception: continue
          if q == 0: side.pop(p, None)
          else: side[p] = q
    ]]
    The test [q == 0] and the two dict operations stand outside the [try];
    on finite Decimals they do not raise.  On a signaling NaN they do, and a
    NaN or an Infinity is stored as it is: these are no values of the model,
    and the statements on what the loop makes of an input are made under
    [quiet_input] or [finite_input]. *)
Fixpoint apply_levels (its : list pyval) (d : side) : side :=
  match its with
  | [] => d
  | it :: rest =>
      match index it 0 with
      | Raise _ => apply_levels rest d
      | Ok p0 =>
          match index it 1 with
          | Raise _ => apply_levels rest d
          | Ok q0 =>
              let p := D p0 in
              let q := D q0 in
              apply_levels rest (if eqb q 0 then dict_pop p d else dict_set p q d)
          end
      end
  end.

(** [for it in block.get(key, []): ...] *)
Definition apply_side (key : string) (block : pyval) (d : side) : res side :=
  v <- get_default key (PList []) block ;;
  its <- iter v ;;
  Ok (apply_levels its d).

Fixpoint apply_blocks (blocks : list pyval) (m : t) : t * option exn :=
  match blocks with
  | [] => (m, None)
  | block :: rest =>
      if negb (isinstance_dict block) then apply_blocks rest m
      else
        match apply_side "bids" block (bids m) with
        | Raise e => (m, Some e)
        | Ok b =>
            let m1 := set_bids b m in
            match apply_side "asks" block (asks m1) with
            | Raise e => (m1, Some e)
            | Ok a => apply_blocks rest (set_asks a m1)
            end
        end
  end.

(** [apply_books(blocks)] at clock reading [now]: the state it leaves and
    the exception that escapes it, if any. *)
Definition apply_books (blocks : list pyval) (now : Q) (m : t) : t * option exn :=
  match apply_blocks blocks m with
  | (m', None) => (set_time now m', None)
  | (m', Some e) => (m', Some e)
  end.

(** [self.apply_trades(blocks)]: the class has no such attribute (the only
    definition is commented out), so the lookup raises. *)
Definition call_apply_trades (blocks : list pyval) (m : t) : t * option exn :=
  (m, Some AttributeError).

Definition book_shaped (b : pyval) : bool :=
  match b with
  | PDict kvs =>
      truthy (por (match assoc "bids" kvs with Some x => x | None => PNone end)
                  (match assoc "asks" kvs with Some x => x | None => PNone end))
  | _ => false
  end.

Definition trade_shaped (b : pyval) : bool :=
  match b with
  | PDict kvs => existsb (fun k => has_key k kvs) ["p"; "price"; "last"]
  | _ => false
  end.

(** [msg.get("event") or msg.get("code")], as a condition *)
Definition is_control (msg : pyval) : res bool :=
  ev <- get "event" msg ;;
  if truthy ev then Ok true
  else (c <- get "code" msg ;; Ok (truthy c)).

(** [arg.get("channel") or msg.get("channel") or ""] with
    [arg = msg.get("arg") or {}] *)
Definition channel_of (msg : pyval) : res pyval :=
  a <- get "arg" msg ;;
  let arg := por a (PDict []) in
  c1 <- get "channel" arg ;;
  if truthy c1 then Ok c1
  else (c2 <- get "channel" msg ;; Ok (por c2 (PStr ""))).

(** [_on_message(ws, raw)], with [parsed] what [json.loads(raw)] gives
    ([None] when it raises). *)
Definition _on_message (parsed : option pyval) (now : Q) (m : t) : t * option exn :=
  match parsed with
  | None => (m, None)
  | Some msg =>
      match is_control msg with
      | Raise e => (m, Some e)
      | Ok true => (m, None)
      | Ok false =>
          match channel_of msg with
          | Raise e => (m, Some e)
          | Ok channel =>
              match get "data" msg with
              | Raise e => (m, Some e)
              | Ok PNone => (m, None)
              | Ok data =>
                  let blocks := match data with PList l => l | _ => [data] end in
                  let '(m1, e1) :=
                    if existsb book_shaped blocks then apply_books blocks now m
                    else (m, None) in
                  match e1 with
                  | Some e => (m1, Some e)
                  | None =>
                      if existsb trade_shaped blocks then call_apply_trades blocks m1
                      else
                        match str_in "trade" channel with
                        | Raise e => (m1, Some e)
                        | Ok true => call_apply_trades blocks m1
                        | Ok false => (m1, None)
                        end
                  end
              end
          end
      end
  end.

(** *** Lifecycle *)

(** [stop()]; the joins of the three threads are not modelled. *)
Definition stop (m : t) : t :=
  if negb (running m) then m
  else set_running false (set_stop true m).

(** [start()], with the results of the two bootstrap requests; the launch of
    the three threads is not modelled. *)
Definition start (book ticker : http) (m : t) : t :=
  if running m then m
  else set_running true (init_snapshot_and_price book ticker (set_stop false m)).

(** [restart(symbol, top_n)]: an argument is [None] or a value. *)
Definition restart (sym : option string) (n : option Z)
    (book ticker : http) (m : t) : t :=
  let m1 := stop m in
  let m2 := match sym with
            | Some s => if negb (s =? "") then set_symbol s m1 else m1
            | None => m1
            end in
  let m3 := match n with
            | Some k => if negb (k =? 0)%Z then set_top_n k m2 else m2
            | None => m2
            end in
  start book ticker (_clear_books m3).

(** *** The reconnect loop *)

(** How one call of [run_forever] ends. *)
Inductive run_result : Type :=
| Raised
| Returned.

(** One pass of the [while] of [_ws_runloop]: the stop flag as read by the
    loop condition, the end of [run_forever], and the stop flag as read by
    the handler. *)
Record pass : Type := mk_pass {
  stop_at_top : bool;
  result : run_result;
  stop_after : bool
}.

(** What the loop sleeps: the reconnect delay after an exception, or the
    fixed pause after a plain return. *)
Inductive pause : Type :=
| Backoff (delay : Q)
| CleanPause (delay : Q).

(** [min(10, backoff * 1.5)] *)
Definition next_backoff (backoff : Q) : Q :=
  if ltb (backoff * 1.5) 10 then backoff * 1.5 else 10.

Fixpoint ws_loop (passes : list pass) (backoff : Q) : list pause :=
  match passes with
  | [] => []
  | e :: rest =>
      if stop_at_top e then []
      else
        match result e with
        | Raised =>
            if stop_after e then []
            else Backoff backoff :: ws_loop rest (next_backoff backoff)
        | Returned =>
            if stop_after e then []
            else CleanPause 0.5 :: ws_loop rest backoff
        end
  end.

(** [_ws_runloop()] over the passes it makes: the sleeps, in order. *)
Definition _ws_runloop (passes : list pass) : list pause := ws_loop passes 1.

End BitgetManager.

(** ** The views *)

Module Views.

Import Py Dec BitgetManager.
Open Scope Q_scope.

(** [sorted(items, key=lambda x: x[1], reverse=True)]: by quantity, greatest
    first, rows of equal quantity in the order of the dict (the sort is
    stable, also with [reverse]). *)
Fixpoint insert_desc (x : level) (l : list level) : list level :=
  match l with
  | [] => [x]
  | y :: rest =>
      if ltb (snd x) (snd y) then y :: insert_desc x rest else x :: l
  end.

Definition sorted_desc (d : side) : list level := fold_right insert_desc [] d.

(** [l[:n]], also for a negative [n] *)
Definition slice_to (A : Type) (n : Z) (l : list A) : list A :=
  if (0 <=? n)%Z then firstn (Z.to_nat n) l
  else firstn (List.length l - Z.to_nat (- n)) l.

(** The rows a slice [l[:n]] leaves out: [l[n:]]. *)
Definition slice_from (A : Type) (n : Z) (l : list A) : list A :=
  if (0 <=? n)%Z then skipn (Z.to_nat n) l
  else skipn (List.length l - Z.to_nat (- n)) l.

Definition top_by_qty (n : Z) (d : side) : list level :=
  slice_to n (sorted_desc d).

Definition rest_by_qty (n : Z) (d : side) : list level :=
  slice_from n (sorted_desc d).

(** [get_support_resistance(count)]: supports and resistances *)
Definition get_support_resistance (count : Z) (m : BitgetManager.t)
  : list level * list level :=
  (top_by_qty count (bids m), top_by_qty count (asks m)).

(** [max(xs)] and [min(xs)] of a non-empty sequence [x :: xs]: the first
    greatest and the first least element. *)
Definition py_max (x : Decimal) (xs : list Decimal) : Decimal :=
  fold_left (fun best y => if ltb best y then y else best) xs x.

Definition py_min (x : Decimal) (xs : list Decimal) : Decimal :=
  fold_left (fun best y => if ltb y best then y else best) xs x.

(** [sum(xs)] with exact additions. *)
Definition py_sum (xs : list Decimal) : Decimal := fold_left Qplus xs 0.

(** [sum(xs)] as the context computes it: from the integer 0, every addition
    rounded, the first one too. *)
Definition dec_sum (r : rounding) (xs : list Decimal) : res Decimal :=
  fold_left (fun acc x => a <- acc ;; add r a x) xs (Ok 0).

Record metrics : Type := mk_metrics {
  best_bid : Decimal;
  best_ask : Decimal;
  spread : Decimal;
  spread_pct : Decimal;
  imbalance : pyfloat;
  latency : Q
}.

(** [get_metrics()] at clock reading [now], in a thread whose context rounds
    by [r]:
    [[
      best_bid = max(self.bids.keys()) if self.bids else Decimal(0)
      best_ask = min(self.asks.keys()) if self.asks else Decimal(0)
      spread = Decimal(0); spread_pct = Decimal(0)
      if best_bid > 0 and best_ask > 0:
          spread = best_ask - best_bid
          spread_pct = (spread / best_ask) * 100
      total_buy_vol = sum(self.bids.values())
      total_sell_vol = sum(self.asks.values())
      imbalance = 0.5
      if (total_buy_vol + total_sell_vol) > 0:
          imbalance = float(total_buy_vol / (total_buy_vol + total_sell_vol))
    ]]
    An operation whose result lies beyond the exponent range raises
    [Overflow], and so does [get_metrics].  The latency is the difference of
    the two clock readings. *)
Definition get_metrics (r : rounding) (now : Q) (m : BitgetManager.t) : res metrics :=
  let bb := match map fst (bids m) with [] => 0 | p :: ps => py_max p ps end in
  let ba := match map fst (asks m) with [] => 0 | p :: ps => py_min p ps end in
  sp <- (if (ltb 0 bb && ltb 0 ba)%bool
         then (d <- sub r ba bb ;;
               q <- truediv r d ba ;;
               pct <- mul r q 100 ;;
               Ok (d, pct))
         else Ok (0, 0)) ;;
  total_buy_vol <- dec_sum r (map snd (bids m)) ;;
  total_sell_vol <- dec_sum r (map snd (asks m)) ;;
  total <- add r total_buy_vol total_sell_vol ;;
  imb <- (if ltb 0 total
          then (q <- truediv r total_buy_vol total ;; Ok (to_float q))
          else Ok (Float 0.5)) ;;
  Ok (mk_metrics bb ba (fst sp) (snd sp) imb (now - last_update_time m)).

(** [abs(cur - p)]: the difference as the context rounds it. *)
Definition distance (r : rounding) (cur p : Decimal) : res Decimal :=
  d <- sub r cur p ;; Ok (Qabs d).

(** The scan of [build_dataframe] for the row nearest to [cur]:
    [[
      for i, (p, q) in enumerate(top):
          d = abs(cur - p)
          if d < best_dist: best_dist = d; best_idx = i
    ]] *)
Fixpoint scan (r : rounding) (cur : Decimal) (rows : list level) (i best_idx : nat)
    (best_dist : Decimal) : res nat :=
  match rows with
  | [] => Ok best_idx
  | (p, _) :: rest =>
      d <- distance r cur p ;;
      if ltb d best_dist then scan r cur rest (S i) i d
      else scan r cur rest (S i) best_idx best_dist
  end.

Definition nearest (r : rounding) (cur : Decimal) (top : list level) : res (option nat) :=
  match top with
  | [] => Ok None
  | (p0, _) :: _ =>
      d0 <- distance r cur p0 ;;
      i <- scan r cur top 0 0 d0 ;;
      Ok (Some i)
  end.

(** The index the scan leaves when every distance is infinite: the first
    row. *)
Definition first_index (top : list level) : option nat :=
  match top with
  | [] => None
  | _ :: _ => Some 0%nat
  end.

(** One side of a row of the table: quantity, price, the star of the nearest
    row, and the value [(p * q) if (p and q) else Decimal(0)]; the strings of
    [fmt_decimal] are not modelled. *)
Record cell : Type := mk_cell {
  cell_qty : Decimal;
  cell_price : Decimal;
  cell_star : bool;
  cell_value : Decimal
}.

Definition cell_at (top : list level) (mark : option nat) (i : nat) : option cell :=
  match nth_error top i with
  | Some (p, q) =>
      Some (mk_cell q p
              (match mark with Some k => Nat.eqb i k | None => false end)
              (if (negb (eqb p 0) && negb (eqb q 0))%bool then p * q else 0))
  | None => None
  end.

Record frame : Type := mk_frame {
  top_asks : list level;
  top_bids : list level;
  nearest_ask_idx : option nat;
  nearest_bid_idx : option nat;
  rows : list (option cell * option cell)
}.

(** [build_dataframe(TOP_N)] in a thread whose context rounds by [r]: the two
    selections, the nearest indices and the rows, sell side first.  The scan
    of the two sides stands in one [try]: when the price does not read as a
    Decimal, or an operation raises, both indices are [None].  With an
    infinite price every distance is infinite and no comparison holds. *)
Definition build_dataframe (r : rounding) (TOP_N : Z) (m : BitgetManager.t) : frame :=
  let ta := top_by_qty TOP_N (asks m) in
  let tb := top_by_qty TOP_N (bids m) in
  let cur_price := if String.eqb (last_price_str m) "" then "N/A"%string
                   else last_price_str m in
  let '(na, nb) :=
    if negb (String.eqb cur_price "N/A") then
      match read cur_price with
      | Some (Finite cur) =>
          match (a <- nearest r cur ta ;; b <- nearest r cur tb ;; Ok (a, b)) with
          | Ok marks => marks
          | Raise _ => (None, None)
          end
      | Some (Special (Infinity _)) => (first_index ta, first_index tb)
      | _ => (None, None)
      end
    else (None, None) in
  mk_frame ta tb na nb
    (map (fun i => (cell_at ta na i, cell_at tb nb i))
         (seq 0 (Nat.max (List.length ta) (List.length tb)))).

End Views.

Import Py Dec BitgetManager Views.

Unset Implicit Arguments.

(** ** Notions the statements use

    The predicates of the properties below and the concrete messages, replies
    and states they are tried on. *)

Section Notions.

Local Open Scope Q_scope.
Local Open Scope string_scope.

(** The part of the state that is neither book nor clock. *)
Definition config_of (m : BitgetManager.t) : string * string * string * Z * bool * bool :=
  (last_price_str m, prev_price_str m, symbol m, top_n m, running m, stop_set m).

(** A push for the trade subscription of [_on_open]. *)
Definition trade_push : pyval :=
  PDict [("action", PStr "snapshot");
         ("arg", PDict [("instType", PStr "SPOT"); ("channel", PStr "trades");
                        ("instId", PStr "BTCUSDT")]);
         ("data", PList [PDict [("ts", PStr "1695709835822"); ("price", PStr "26293.4");
                                ("size", PStr "0.0013"); ("side", PStr "buy");
                                ("tradeId", PStr "1000000000")]]);
         ("ts", PInt 1695709835822)].

(** The body of a ticker reply with last price [p]. *)
Definition ticker_reply (p : string) : http :=
  Response 200
    (Some (PDict [("code", PStr "00000"); ("msg", PStr "success");
                  ("data", PList [PDict [("symbol", PStr "BTCUSDT");
                                         ("lastPr", PStr p)]])])).

(** A manager whose last two observed prices are [prev] and [cur]. *)
Definition with_prices (prev cur : string) : BitgetManager.t :=
  shift_price cur (shift_price prev (init 0)).

(** A bootstrap request that fails: the connection fails, the status is not
    200, or the body of a 200 reply is not JSON. *)
Inductive failed : http -> Prop :=
| failed_connection : failed ConnectionError
| failed_status (st : Z) (body : option pyval) : st <> 200%Z -> failed (Response st body)
| failed_body : failed (Response 200 None).

(** The failures that raise inside [init_snapshot_and_price], as opposed to
    a reply with another status, which is read as an empty body. *)
Definition raises (r : http) : Prop :=
  r = ConnectionError \/ r = Response 200 None.

(** What [restart] hands to [start]: stopped, arguments applied, books
    cleared. *)
Definition restart_prepared (sym : option string) (n : option Z) (m : BitgetManager.t)
  : BitgetManager.t :=
  let m1 := stop m in
  let m2 := match sym with
            | Some s => if negb (s =? "") then set_symbol s m1 else m1
            | None => m1
            end in
  let m3 := match n with
            | Some k => if negb (k =? 0)%Z then set_top_n k m2 else m2
            | None => m2
            end in
  _clear_books m3.

(** A manager that has run before: one bid level and two observed prices. *)
Definition after_a_run : BitgetManager.t :=
  set_bids [(100, 2)] (with_prices "99.5" "100").

Definition all_positive (d : side) : Prop := Forall (fun l => 0 < snd l) d.

Definition book_positive (m : BitgetManager.t) : Prop :=
  all_positive (bids m) /\ all_positive (asks m).

(** No two entries of a dict have equal keys. *)
Fixpoint unique_keys (d : side) : Prop :=
  match d with
  | [] => True
  | (p, _) :: rest => dict_lookup p rest = None /\ unique_keys rest
  end.

(** The quantity of an update or snapshot entry [it], when it has one,
    satisfies [P]. *)
Definition qty_of_entry (P : Decimal -> Prop) (it : pyval) : Prop :=
  forall q0, index it 1 = Ok q0 -> P (D q0).

(** The same for every entry a loop over [key] of [block] visits. *)
Definition qty_of_block (P : Decimal -> Prop) (key : string) (block : pyval) : Prop :=
  forall v its,
    get_default key (PList []) block = Ok v -> iter v = Ok its ->
    Forall (qty_of_entry P) its.

Definition blocks_nonneg (blocks : list pyval) : Prop :=
  Forall (fun block => qty_of_block (fun q => 0 <= q) "bids" block /\
                       qty_of_block (fun q => 0 <= q) "asks" block) blocks.

(** Every entry of the two lists a snapshot reply holds has a strictly
    positive quantity. *)
Definition snapshot_positive (r : http) : Prop :=
  forall rb ra items,
    fetch_orderbook r = Ok (rb, ra) ->
    iter rb = Ok items \/ iter ra = Ok items ->
    Forall (qty_of_entry (fun q => 0 < q)) items.

(** Price and quantity of an entry [it], when it has both, satisfy [P]. *)
Definition entry_inputs (P : pyval -> Prop) (it : pyval) : Prop :=
  forall p0 q0, index it 0 = Ok p0 -> index it 1 = Ok q0 -> P p0 /\ P q0.

Definition block_inputs (P : pyval -> Prop) (key : string) (block : pyval) : Prop :=
  forall v its,
    get_default key (PList []) block = Ok v -> iter v = Ok its ->
    Forall (entry_inputs P) its.

(** The same for every entry of a batch of the books channel. *)
Definition blocks_inputs (P : pyval -> Prop) (blocks : list pyval) : Prop :=
  Forall (fun block => block_inputs P "bids" block /\ block_inputs P "asks" block) blocks.

(** The same for every entry of the two lists a snapshot reply holds. *)
Definition snapshot_inputs (P : pyval -> Prop) (r : http) : Prop :=
  forall rb ra items,
    fetch_orderbook r = Ok (rb, ra) ->
    iter rb = Ok items \/ iter ra = Ok items ->
    Forall (entry_inputs P) items.

(** A level as the exchange writes it: [[price, quantity]]. *)
Definition level_entry (p q : string) : pyval := PList [PStr p; PStr q].

(** A reply of the order book request. *)
Definition snapshot_reply (bid_levels ask_levels : list pyval) : http :=
  Response 200
    (Some (PDict [("code", PStr "00000"); ("msg", PStr "success");
                  ("data", PDict [("asks", PList ask_levels);
                                  ("bids", PList bid_levels);
                                  ("ts", PStr "1695709835822")])])).

(** The [data] list of a push of the books channel. *)
Definition books_data (bid_levels ask_levels : list pyval) : list pyval :=
  [PDict [("asks", PList ask_levels); ("bids", PList bid_levels);
          ("checksum", PInt 0); ("ts", PStr "1695709835822")]].

(** The reconnect delays of a log, clean pauses left out. *)
Fixpoint backoff_delays (log : list pause) : list Q :=
  match log with
  | [] => []
  | Backoff d :: rest => d :: backoff_delays rest
  | CleanPause _ :: rest => backoff_delays rest
  end.

(** The delay slept at the failure that follows [k] earlier failures. *)
Fixpoint delay_after (k : nat) : Q :=
  match k with
  | O => 1
  | S k' => next_backoff (delay_after k')
  end.

Definition failure : pass := mk_pass false Raised false.
Definition clean_close : pass := mk_pass false Returned false.

Definition all_nonneg (d : side) : Prop := Forall (fun l => 0 <= snd l) d.

(** A book that a push of the books channel leaves: 3 on the bid side and
    -1 on the ask side. *)
Definition skewed_book : BitgetManager.t :=
  fst (apply_books (books_data [level_entry "100" "3"] [level_entry "101" "-1"])
                   1 (init 0)).

(** A book whose only bid stands at price 0, as the bootstrap stores it. *)
Definition zero_bid_book : BitgetManager.t :=
  init_snapshot (snapshot_reply [level_entry "0" "1"] [level_entry "5" "1"]) (init 0).

(** [a] ranks before [b]: its quantity is at least that of [b]. *)
Definition outranks (a b : level) : Prop := snd b <= snd a.

(** [top] is a selection of at most [n] rows of [d] by quantity: with the
    rows left out it makes up [d], and no row left out has more quantity
    than a selected row. *)
Definition selects (d : side) (top unselected : list level) : Prop :=
  Permutation (top ++ unselected)%list d /\
  forall r u, In r top -> In u unselected -> snd u <= snd r.

(** The distances of the rows of [top] from [cur] as the scan computes
    them, in the order of the rows; it raises when a subtraction does. *)
Fixpoint distances (r : rounding) (cur : Decimal) (top : list level) : res (list Q) :=
  match top with
  | [] => Ok []
  | (p, _) :: rest =>
      d <- distance r cur p ;;
      ds <- distances r cur rest ;;
      Ok (d :: ds)
  end.


(** [i] is the first index of a least element of [ds]. *)
Definition first_least (ds : list Q) (i : nat) : Prop :=
  (i < List.length ds)%nat /\
  (forall j, (j < List.length ds)%nat -> nth i ds 0 <= nth j ds 0) /\
  (forall j, (j < i)%nat -> nth i ds 0 < nth j ds 0).




End Notions.

(** ** Totals and the price marker *)

Module Report.

Import Py Dec BitgetManager Views.
Open Scope Q_scope.

(** [sum(p * q for p, q in side.items())] *)
Definition side_value (d : side) : Decimal :=
  py_sum (map (fun l => fst l * snd l) d).

(** [get_total_values()]: total buy value and total sell value of the full
    book.  On the finite decimals of the model no exception is raised inside
    the [try], so the fallback pair of zeros is never taken. *)
Definition get_total_values (m : BitgetManager.t) : Decimal * Decimal :=
  (side_value (bids m), side_value (asks m)).

(** The attribute [price_icon] that [build_dataframe] attaches to the frame:
    [[
      icon = "●"
      if prev and last and prev != "":
          pprev = Decimal(prev); pcur = Decimal(last)
          if pcur > pprev: icon = "▲"
          elif pcur < pprev: icon = "▼"
    ]]
    and the first icon again when a conversion raises. *)
Inductive icon : Type :=
| Flat
| Up
| Down.

Definition price_icon (m : BitgetManager.t) : icon :=
  if (negb (String.eqb (prev_price_str m) "") &&
      negb (String.eqb (last_price_str m) ""))%bool
  then
    match read (prev_price_str m) with
    | None => Flat
    | Some pprev =>
        match read (last_price_str m) with
        | None => Flat
        | Some pcur =>
            match reading_lt pprev pcur with
            | Raise _ => Flat
            | Ok true => Up
            | Ok false =>
                match reading_lt pcur pprev with
                | Ok true => Down
                | _ => Flat
                end
            end
        end
    end
  else Flat.

(** The attribute [current_price]: [last_price_str or "N/A"] *)
Definition current_price (m : BitgetManager.t) : string :=
  if String.eqb (last_price_str m) "" then "N/A"%string else last_price_str m.

End Report.

Import Report.

(** ** The strings of the table *)

Module Format.

Import Py Dec BitgetManager Views.
Open Scope string_scope.

Definition PRICE_DIGITS : nat := 6.
Definition QTY_DIGITS : nat := 4.
Definition VALUE_DIGITS : nat := 2.
Definition STAR_AFTER_PRICE : bool := true.

(** The character of a digit. *)
Definition digit_char (n : Z) : ascii := ascii_of_nat (48 + Z.to_nat n).

(** The [k] lowest decimal digits of [n], highest first, zeros included. *)
Fixpoint low_digits (k : nat) (n : Z) : string :=
  match k with
  | O => ""
  | S k' => String (digit_char ((n / 10 ^ Z.of_nat k') mod 10)) (low_digits k' n)
  end.

(** The digits of a natural number, as [str] writes them. *)
Definition nat_digits (n : Z) : string :=
  NilZero.string_of_uint (N.to_uint (Z.to_N n)).

(** The magnitude the string of [fmt_decimal] shows, in units of the last
    place: [quantize] rounds to [ndig] places and raises when the result has
    more than [PREC] digits; then the digits of [d] itself are cut after
    [ndig] places. *)
Definition shown_units (r : rounding) (d : Decimal) (ndig : nat) : Z :=
  let scaled := (Qabs d * inject_Z (10 ^ Z.of_nat ndig))%Q in
  let rounded := round_units r scaled in
  if (rounded <? 10 ^ PREC)%Z then rounded else Qfloor scaled.

(** [fmt_decimal(d, ndig, fixed=True)], the only form the manager calls, for
    a Decimal [d], under the rounding [r] of the context:
    [[
      q = Decimal(1).scaleb(-ndig)
      try: dd = d.quantize(q)
      except Exception: dd = d
      s = format(dd, "f")
      if "." not in s: s = s + "." + "0" * ndig
      else:
          intp, frac = s.split(".", 1)
          frac = frac.ljust(ndig, "0")[:ndig]
          s = intp + "." + frac
    ]]
    The sign is that of [d]; a negative zero is not a value of the model,
    and for it the code writes the minus sign that the model leaves out. *)
Definition fmt_decimal_fixed (r : rounding) (d : Decimal) (ndig : nat) : string :=
  let m := shown_units r d ndig in
  let body := nat_digits (m / 10 ^ Z.of_nat ndig) ++ "." ++ low_digits ndig m in
  if ltb d 0 then String "-" body else body.

(** The six strings of a row of [rows_list]. *)
Record text_row : Type := mk_text_row {
  sell_qty : string;
  sell_price : string;
  sell_val : string;
  buy_val : string;
  buy_price : string;
  buy_qty : string
}.

(** The star of the nearest row: [" " + icon] after the price. *)
Definition star_suffix (starred : bool) : string :=
  if starred then " ★" else "".

(** Quantity, price and value of one side of a row; three empty strings when
    the side has no row of that rank. *)
Definition cell_text (r : rounding) (c : option cell) : string * string * string :=
  match c with
  | Some x =>
      (fmt_decimal_fixed r (cell_qty x) QTY_DIGITS,
       fmt_decimal_fixed r (cell_price x) PRICE_DIGITS ++ star_suffix (cell_star x),
       fmt_decimal_fixed r (cell_value x) VALUE_DIGITS)
  | None => ("", "", "")
  end.

Definition row_text (r : rounding) (x : option cell * option cell) : text_row :=
  let '(sq, sp, sv) := cell_text r (fst x) in
  let '(bq, bp, bv) := cell_text r (snd x) in
  mk_text_row sq sp sv bv bp bq.

(** [rows_list] of [build_dataframe(TOP_N)] *)
Definition rows_list (r : rounding) (TOP_N : Z) (m : BitgetManager.t) : list text_row :=
  map (row_text r) (rows (build_dataframe r TOP_N m)).

End Format.

Import Format.

(** ** The loop that publishes the table *)

Module Updater.

Import Py Dec BitgetManager Views Report Format.
Open Scope Q_scope.

(** A data frame as [DataFrame.equals] and the page see it: the rows, and
    the attributes [current_price] and [price_icon], which the empty frame of
    [__init__] does not have. *)
Record data_frame : Type := mk_df {
  df_rows : list text_row;
  df_attrs : option (string * icon)
}.

(** [pd.DataFrame()] *)
Definition empty_frame : data_frame := mk_df [] None.

(** What [build_dataframe(self.top_n)] returns in state [m], in a thread whose
    context rounds by [r].  The attributes are read after the lock is
    released; here they are those of the state the rows are built from. *)
Definition frame_of (r : rounding) (m : BitgetManager.t) : data_frame :=
  mk_df (rows_list r (top_n m) m) (Some (current_price m, price_icon m)).

Definition text_row_eqb (a b : text_row) : bool :=
  (String.eqb (sell_qty a) (sell_qty b) && String.eqb (sell_price a) (sell_price b) &&
   String.eqb (sell_val a) (sell_val b) && String.eqb (buy_val a) (buy_val b) &&
   String.eqb (buy_price a) (buy_price b) && String.eqb (buy_qty a) (buy_qty b))%bool.

Fixpoint rows_eqb (a b : list text_row) : bool :=
  match a, b with
  | [], [] => true
  | x :: a', y :: b' => (text_row_eqb x y && rows_eqb a' b')%bool
  | _, _ => false
  end.

(** [df.equals(last_snapshot)]: the cells are compared, the attributes are
    not; [None] is equal to no frame. *)
Definition df_equals (df : data_frame) (last_snapshot : option data_frame) : bool :=
  match last_snapshot with
  | Some other => rows_eqb (df_rows df) (df_rows other)
  | None => false
  end.

(** The variables of [_updater_loop] and the published frame. *)
Record loop_state : Type := mk_loop {
  latest_df : data_frame;
  last_snapshot : option data_frame;
  idle_loops : nat
}.

Definition loop_start : loop_state := mk_loop empty_frame None 0.

(** One pass of the body of the loop in state [m]: the new variables and the
    time slept, [0.5 + min(idle_loops * 0.1, 1.5)]. *)
Definition updater_pass (r : rounding) (m : BitgetManager.t) (u : loop_state)
  : loop_state * Q :=
  let df := frame_of r m in
  let u' := if negb (df_equals df (last_snapshot u))
            then mk_loop df (Some df) 0
            else mk_loop (latest_df u) (last_snapshot u) (S (idle_loops u)) in
  let idle := inject_Z (Z.of_nat (idle_loops u')) * 0.1 in
  (u', 0.5 + (if ltb 1.5 idle then 1.5 else idle)).

(** [_updater_loop()] over its passes: each has the stop flag as the loop
    condition reads it and the state of the manager it reads.  On the
    decimals of the model [build_dataframe] raises nothing, so the handler
    of the loop is never entered. *)
Fixpoint _updater_loop (r : rounding) (passes : list (bool * BitgetManager.t))
    (u : loop_state) : loop_state * list Q :=
  match passes with
  | [] => (u, [])
  | (stop_seen, m) :: rest =>
      if stop_seen then (u, [])
      else
        let '(u1, slept) := updater_pass r m u in
        let '(u2, sleeps) := _updater_loop r rest u1 in
        (u2, slept :: sleeps)
  end.

(** The state read by the last pass the loop makes. *)
Fixpoint last_read (passes : list (bool * BitgetManager.t)) : option BitgetManager.t :=
  match passes with
  | [] => None
  | (stop_seen, m) :: rest =>
      if stop_seen then None
      else match last_read rest with
           | Some m' => Some m'
           | None => Some m
           end
  end.

End Updater.

Import Updater.

Section MoreNotions.

Local Open Scope Q_scope.
Local Open Scope string_scope.

(** An update entry the delta loop skips: one of the two subscripts raises. *)
Definition malformed (it : pyval) : Prop :=
  (exists e, index it 0 = Raise e) \/ (exists e, index it 1 = Raise e).

(** The value of [block.get(key, [])] can be looped over. *)
Definition iterable_at (key : string) (block : pyval) : Prop :=
  exists v its, get_default key (PList []) block = Ok v /\ iter v = Ok its.

(** Every dict among [blocks] has iterable [bids] and [asks]. *)
Definition blocks_iterable (blocks : list pyval) : Prop :=
  Forall (fun block => isinstance_dict block = true ->
                       iterable_at "bids" block /\ iterable_at "asks" block) blocks.

(** The states the manager can be in: the state of [__init__] and what the
    operations make of a state it can be in, on any input. *)
Inductive reachable : BitgetManager.t -> Prop :=
| reach_init (now : Q) : reachable (init now)
| reach_message (parsed : option pyval) (now : Q) (m : BitgetManager.t) :
    reachable m -> reachable (fst (_on_message parsed now m))
| reach_poll (rounds : list (bool * http * bool)) (m : BitgetManager.t) :
    reachable m -> reachable (_ticker_poll_loop rounds m)
| reach_start (book ticker : http) (m : BitgetManager.t) :
    reachable m -> reachable (start book ticker m)
| reach_stop (m : BitgetManager.t) : reachable m -> reachable (stop m)
| reach_restart (sym : option string) (n : option Z) (book ticker : http)
    (m : BitgetManager.t) :
    reachable m -> reachable (restart sym n book ticker m)
| reach_clear (m : BitgetManager.t) : reachable m -> reachable (_clear_books m).

(** A snapshot entry at which the loading loop raises: a number other than
    zero or [True] (no [len]), or a dict of two or more keys (no integer
    subscript). *)
Definition raising_entry (item : pyval) : Prop :=
  match item with
  | PInt z => z <> 0%Z
  | PBool b => b = true
  | PDict kvs => (2 <= List.length kvs)%nat
  | _ => False
  end.



(** A value that is neither a string nor an integer. *)
Definition not_numeric (v : pyval) : Prop :=
  match v with
  | PStr _ | PInt _ => False
  | _ => True
  end.

(** What holds in every state the manager can be in: each side of the book
    has pairwise distinct prices, and while the manager runs the stop event
    is clear. *)
Definition well_formed (m : BitgetManager.t) : Prop :=
  unique_keys (bids m) /\ unique_keys (asks m) /\
  (running m = true -> stop_set m = false).

(** A character that [strip()] and the removal of underscores leave alone. *)
Definition plain (c : ascii) : Prop :=
  is_space c = false /\ Ascii.eqb c "_" = false.

(** The rows of a side whose quantity equals [q]. *)
Definition same_qty (q : Decimal) (l : level) : bool := eqb (snd l) q.

(** How many cells of a column carry the star. *)
Definition stars (cells : list (option cell)) : nat :=
  List.length
    (filter (fun c => match c with Some x => cell_star x | None => false end) cells).

(** The sum of the values of the cells of a column. *)
Definition column_value (cells : list (option cell)) : Q :=
  fold_right (fun c acc => match c with Some x => cell_value x + acc | None => acc end)
             0 cells.

Definition pause_delay (p : pause) : Q :=
  match p with
  | Backoff d => d
  | CleanPause d => d
  end.

(** A string of decimal digits. *)
Definition all_digits (s : string) : Prop :=
  Forall (fun c => exists n, digit_of c = Some n) (list_ascii_of_string s).

(** The string [s] is read by [Decimal] as a value less than one unit of the
    place [ndig] away from [x]. *)
Definition reads_within (s : string) (x : Decimal) (ndig : nat) : Prop :=
  exists v, of_string s = Some v /\ Qabs (v - x) < 1 / inject_Z (10 ^ Z.of_nat ndig).

(** Whether row [i] is the one marked. *)
Definition starred (mark : option nat) (i : nat) : bool :=
  match mark with Some k => Nat.eqb i k | None => false end.

(** The three strings of one side of a row show the level [lv] of its rank,
    or are blank when there is none. *)
Definition side_shows (r : rounding) (qty price val : string) (star : bool)
    (lv : option level) : Prop :=
  match lv with
  | Some (p, q) =>
      reads_within qty q QTY_DIGITS /\
      price = fmt_decimal_fixed r p PRICE_DIGITS ++ star_suffix star /\
      reads_within val (p * q) VALUE_DIGITS
  | None => qty = "" /\ price = "" /\ val = ""
  end.

(** The sleeps of the updater lie between half a second and two seconds. *)
Definition sleep_bounded (s : Q) : Prop := 0.5 <= s /\ s <= 2.

(** A push of the stream on channel [channel] with the payload [blocks]. *)
Definition stream_push (channel : string) (blocks : list pyval) : pyval :=
  PDict [("action", PStr "update");
         ("arg", PDict [("instType", PStr "SPOT"); ("channel", PStr channel);
                        ("instId", PStr "BTCUSDT")]);
         ("data", PList blocks);
         ("ts", PInt 1695709835822)].

End MoreNotions.

(** ** Rounding to significant digits *)

Section Rounding.

Local Open Scope Q_scope.

Variable b : Z.
Hypothesis b_ge_2 : (2 <= b)%Z.

Local Abbreviation B := (inject_Z b).

Lemma ilog_fuel_spec (fuel : nat) :
  forall n : Z,
    (1 <= n < 2 ^ Z.of_nat fuel)%Z ->
    (0 <= ilog_fuel b fuel n /\
     b ^ ilog_fuel b fuel n <= n < b ^ (ilog_fuel b fuel n + 1))%Z.
Proof.
  induction fuel as [|f IH]; intros n Hn.
  - simpl in Hn. lia.
  - cbn [ilog_fuel]. destruct (Z.ltb_spec n b) as [L|L].
    + simpl. lia.
    + assert (H1 : (1 <= n / b)%Z).
      { apply Z.div_le_lower_bound; lia. }
      assert (H2 : (n / b < 2 ^ Z.of_nat f)%Z).
      { apply Z.div_lt_upper_bound; [lia|].
        rewrite Nat2Z.inj_succ, Z.pow_succ_r in Hn by lia.
        assert (0 < 2 ^ Z.of_nat f)%Z by (apply Z.pow_pos_nonneg; lia). nia. }
      destruct (IH (n / b)%Z (conj H1 H2)) as (K0 & K1 & K2).
      set (k := ilog_fuel b f (n / b)) in *.
      split; [lia|].
      pose proof (Z.div_mod n b ltac:(lia)) as D.
      pose proof (Z.mod_pos_bound n b ltac:(lia)) as M.
      replace (1 + k)%Z with (Z.succ k) by lia.
      replace (Z.succ k + 1)%Z with (Z.succ (Z.succ k)) by lia.
      replace (k + 1)%Z with (Z.succ k) in K2 by lia.
      rewrite !Z.pow_succ_r by lia.
      rewrite Z.pow_succ_r in K2 by lia.
      set (P := (b ^ k)%Z) in *. set (q := (n / b)%Z) in *.
      assert (A1 : (b * P <= b * q)%Z) by (apply Z.mul_le_mono_nonneg_l; lia).
      assert (A2 : (b * (q + 1) <= b * (b * P))%Z) by (apply Z.mul_le_mono_nonneg_l; lia).
      lia.
Qed.

Lemma ilog_spec (n : Z) :
  (1 <= n)%Z -> (0 <= ilog b n /\ b ^ ilog b n <= n < b ^ (ilog b n + 1))%Z.
Proof.
  intro H. unfold ilog. apply ilog_fuel_spec. split; [exact H|].
  rewrite Nat2Z.inj_succ, Z2Nat.id by apply Z.log2_nonneg.
  apply Z.log2_spec. lia.
Qed.

Lemma B_gt_1 : 1 < B.
Proof. change 1 with (inject_Z 1). rewrite <- Zlt_Qlt. lia. Qed.

Lemma B_neq_0 : ~ B == 0.
Proof. pose proof B_gt_1. intro E. rewrite E in H. discriminate H. Qed.

Lemma Bpow_pos (e : Z) : 0 < B ^ e.
Proof. apply Qpower_0_lt. pose proof B_gt_1. lra. Qed.

Lemma Bpow_succ (e : Z) : B ^ (e + 1) == B ^ e * B.
Proof. rewrite Qpower_plus by exact B_neq_0. reflexivity. Qed.

Lemma Bpow_le (e e' : Z) : (e <= e')%Z -> B ^ e <= B ^ e'.
Proof. intro H. apply Qpower_le_compat_l; [exact H|]. pose proof B_gt_1. lra. Qed.

Lemma Bpow_lt (e e' : Z) : (e < e')%Z -> B ^ e < B ^ e'.
Proof. intro H. apply Qpower_lt_compat_l; [exact H|exact B_gt_1]. Qed.

Lemma Bpow_Z (k : Z) : (0 <= k)%Z -> inject_Z (b ^ k) == B ^ k.
Proof. intro H. apply Zpower_Qpower. exact H. Qed.

Lemma Bpow_split (e e' : Z) : B ^ e == B ^ (e - e') * B ^ e'.
Proof.
  rewrite <- Qpower_plus by exact B_neq_0. replace (e - e' + e')%Z with e by lia. reflexivity.
Qed.


Lemma adjusted_spec (x : Q) :
  0 < x -> B ^ adjusted b x <= x /\ x < B ^ (adjusted b x + 1).
Proof.
  intro Hx. unfold adjusted.
  assert (Hn : (1 <= Qnum x)%Z).
  { unfold Qlt in Hx. simpl in Hx. lia. }
  assert (Hd : (1 <= Zpos (Qden x))%Z) by lia.
  destruct (ilog_spec (Qnum x) Hn) as (N0 & N1 & N2).
  destruct (ilog_spec (Zpos (Qden x)) Hd) as (D0 & D1 & D2).
  set (ln := ilog b (Qnum x)) in *. set (ld := ilog b (Zpos (Qden x))) in *.
  rewrite Zle_Qle, Bpow_Z in N1, D1 by lia.
  rewrite Zlt_Qlt, Bpow_Z in N2, D2 by lia.
  assert (Ex : x == inject_Z (Qnum x) / inject_Z (Zpos (Qden x))).
  { destruct x as [n d]. simpl. apply Qmake_Qdiv. }
  set (N := inject_Z (Qnum x)) in *. set (Dn := inject_Z (Zpos (Qden x))) in *.
  assert (Dpos : 0 < Dn).
  { pose proof (Bpow_pos ld). lra. }
  assert (Up : x < B ^ (ln - ld + 1)).
  { rewrite Ex. apply Qlt_shift_div_r; [exact Dpos|].
    apply Qlt_le_trans with (B ^ (ln + 1)); [exact N2|].
    rewrite (Bpow_split (ln + 1) ld).
    replace (ln + 1 - ld)%Z with (ln - ld + 1)%Z by lia.
    apply Qmult_le_l; [apply Bpow_pos|exact D1]. }
  assert (Lo : B ^ (ln - ld - 1) < x).
  { rewrite Ex. apply Qlt_shift_div_l; [exact Dpos|].
    apply Qlt_le_trans with (B ^ ln); [|exact N1].
    rewrite (Bpow_split ln (ld + 1)).
    replace (ln - (ld + 1))%Z with (ln - ld - 1)%Z by lia.
    apply Qmult_lt_l; [apply Bpow_pos|exact D2]. }
  destruct (Qle_bool (inject_Z b ^ (ln - ld)) x) eqn:E.
  - apply Qle_bool_iff in E. split; [exact E|exact Up].
  - split; [apply Qlt_le_weak; exact Lo|].
    replace (ln - ld - 1 + 1)%Z with (ln - ld)%Z by lia.
    apply Qnot_le_lt. intro C. apply Qle_bool_iff in C.
    rewrite C in E. discriminate E.
Qed.

Lemma adjusted_unique (x : Q) (a : Z) :
  0 < x -> B ^ a <= x -> x < B ^ (a + 1) -> adjusted b x = a.
Proof.
  intros Hx L U. destruct (adjusted_spec x Hx) as [L' U'].
  set (a' := adjusted b x) in *.
  destruct (Z.lt_trichotomy a' a) as [C|[C|C]]; [|exact C|].
  - exfalso. pose proof (Bpow_le (a' + 1) a ltac:(lia)). lra.
  - exfalso. pose proof (Bpow_le (a + 1) a' ltac:(lia)). lra.
Qed.

Lemma adjusted_compat (x y : Q) : 0 < x -> x == y -> adjusted b x = adjusted b y.
Proof.
  intros Hx E. symmetry.
  destruct (adjusted_spec x Hx) as [L U].
  apply adjusted_unique; rewrite <- E; assumption.
Qed.

Lemma adjusted_le (x y : Q) : 0 < x -> x <= y -> (adjusted b x <= adjusted b y)%Z.
Proof.
  intros Hx Hxy.
  destruct (adjusted_spec x Hx) as [L U].
  destruct (adjusted_spec y ltac:(lra)) as [L' U'].
  destruct (Z.le_gt_cases (adjusted b x) (adjusted b y)) as [C|C]; [exact C|].
  exfalso. pose proof (Bpow_le (adjusted b y + 1) (adjusted b x) ltac:(lia)). lra.
Qed.

End Rounding.

Section Units.

Local Open Scope Q_scope.

Lemma round_units_near (r : rounding) (x : Q) :
  inject_Z (round_units r x) - (1 # 2) <= x /\ x <= inject_Z (round_units r x) + (1 # 2).
Proof.
  pose proof (Qfloor_le (x + (1 # 2))) as F1.
  pose proof (Qlt_floor (x + (1 # 2))) as F2.
  pose proof (Qfloor_le x) as G1.
  pose proof (Qlt_floor x) as G2.
  rewrite inject_Z_plus in F2, G2.
  change (inject_Z 1) with 1%Q in F2, G2.
  destruct r; cbn [round_units]; [split; lra|].
  destruct (Qeq_bool _ _) eqn:E; [|split; lra].
  apply Qeq_bool_iff in E.
  destruct (Z.even (Qfloor x)).
  - split; lra.
  - rewrite inject_Z_plus. change (inject_Z 1) with 1%Q. split; lra.
Qed.

Lemma Qfloor_compat (x y : Q) : x == y -> Qfloor x = Qfloor y.
Proof.
  intro E. apply Z.le_antisymm; apply Qfloor_resp_le; rewrite E; apply Qle_refl.
Qed.

Lemma round_units_compat (r : rounding) (x y : Q) :
  x == y -> round_units r x = round_units r y.
Proof.
  intro E. destruct r; cbn [round_units].
  - apply Qfloor_compat. rewrite E. reflexivity.
  - rewrite (Qfloor_compat x y E).
    assert (E1 : Qeq_bool (x - inject_Z (Qfloor y)) (1 # 2)
                 = Qeq_bool (y - inject_Z (Qfloor y)) (1 # 2)).
    { destruct (Qeq_bool (y - inject_Z (Qfloor y)) (1 # 2)) eqn:K.
      - apply Qeq_bool_iff. apply Qeq_bool_iff in K. rewrite E. exact K.
      - destruct (Qeq_bool (x - inject_Z (Qfloor y)) (1 # 2)) eqn:K'; [|reflexivity].
        apply Qeq_bool_iff in K'. rewrite E in K'. apply Qeq_bool_iff in K'.
        rewrite K' in K. discriminate K. }
    rewrite E1. clear E1.
    destruct (Qeq_bool (y - inject_Z (Qfloor y)) (1 # 2)); [reflexivity|].
    apply Qfloor_compat. rewrite E. reflexivity.
Qed.

Lemma round_units_le (r : rounding) (x y : Q) :
  x <= y -> (round_units r x <= round_units r y)%Z.
Proof.
  intro H.
  destruct (round_units_near r x) as [X1 X2].
  destruct (round_units_near r y) as [Y1 Y2].
  destruct (Z.le_gt_cases (round_units r x) (round_units r y)) as [C|C]; [exact C|].
  assert (C' : (round_units r y + 1 <= round_units r x)%Z) by lia.
  rewrite Zle_Qle, inject_Z_plus in C'. change (inject_Z 1) with 1 in C'.
  assert (E : x == y) by lra.
  rewrite (round_units_compat r x y E) in C. lia.
Qed.

Lemma round_units_Z (r : rounding) (z : Z) : round_units r (inject_Z z) = z.
Proof.
  destruct (round_units_near r (inject_Z z)) as [H1 H2].
  set (k := round_units r (inject_Z z)) in *.
  assert (A : inject_Z (k - 1) < inject_Z z).
  { unfold Z.sub. rewrite inject_Z_plus, inject_Z_opp. change (inject_Z 1) with 1. lra. }
  assert (A' : inject_Z z < inject_Z (k + 1)).
  { rewrite inject_Z_plus. change (inject_Z 1) with 1. lra. }
  rewrite <- Zlt_Qlt in A, A'. lia.
Qed.

Lemma round_units_nonneg (r : rounding) (x : Q) : 0 <= x -> (0 <= round_units r x)%Z.
Proof.
  intro H. rewrite <- (round_units_Z r 0). apply round_units_le. exact H.
Qed.

End Units.

Section RoundTo.

Local Open Scope Q_scope.

Variables (b prec etiny : Z) (r : rounding).
Hypothesis b_ge_2 : (2 <= b)%Z.
Hypothesis prec_ge_1 : (1 <= prec)%Z.

Local Abbreviation B := (inject_Z b).
Local Abbreviation R := (round_to b prec etiny r).
Local Abbreviation expo := (Dec.expo b prec etiny).
Local Abbreviation on_grid := (Dec.on_grid b prec etiny).

Lemma round_to_0 (x : Q) : x == 0 -> R x == 0.
Proof.
  intro E. unfold round_to. apply Qeq_bool_iff in E. rewrite E. reflexivity.
Qed.

Lemma round_to_pos (x : Q) :
  0 < x -> R x == inject_Z (round_units r (x / B ^ expo x)) * B ^ expo x.
Proof.
  intro Hx. unfold round_to, Dec.expo.
  destruct (Qeq_bool x 0) eqn:E0.
  { apply Qeq_bool_iff in E0. lra. }
  assert (Ea : Qabs x == x) by (apply Qabs_pos; lra).
  assert (Pa : 0 < Qabs x) by lra.
  rewrite (adjusted_compat b b_ge_2 (Qabs x) x Pa Ea). fold (Dec.expo b prec etiny x).
  rewrite (round_units_compat r (Qabs x / B ^ expo x) (x / B ^ expo x))
    by (rewrite Ea; reflexivity).
  destruct (Qle_bool 0 x) eqn:E1; [reflexivity|].
  assert (C : 0 <= x) by lra. apply Qle_bool_iff in C. rewrite C in E1. discriminate E1.
Qed.

Lemma round_to_neg (x : Q) :
  x < 0 -> R x == - (inject_Z (round_units r (- x / B ^ expo (- x))) * B ^ expo (- x)).
Proof.
  intro Hx. unfold round_to, Dec.expo.
  destruct (Qeq_bool x 0) eqn:E0.
  { apply Qeq_bool_iff in E0. lra. }
  assert (Ea : Qabs x == - x) by (apply Qabs_neg; lra).
  assert (Pa : 0 < Qabs x) by lra.
  rewrite (adjusted_compat b b_ge_2 (Qabs x) (- x) Pa Ea). fold (Dec.expo b prec etiny (- x)).
  rewrite (round_units_compat r (Qabs x / B ^ expo (- x)) (- x / B ^ expo (- x)))
    by (rewrite Ea; reflexivity).
  destruct (Qle_bool 0 x) eqn:E1.
  - apply Qle_bool_iff in E1. lra.
  - rewrite inject_Z_opp. ring.
Qed.

Lemma round_to_opp (x : Q) : R (- x) == - R x.
Proof.
  destruct (Q_dec x 0) as [[H|H]|H].
  - rewrite (round_to_neg x H). rewrite (round_to_pos (- x)) by lra. ring.
  - rewrite (round_to_pos x H). rewrite (round_to_neg (- x)) by lra.
    assert (E : - - x == x) by ring.
    assert (P : 0 < - - x) by lra.
    unfold Dec.expo. rewrite (adjusted_compat b b_ge_2 (- - x) x P E). fold (Dec.expo b prec etiny x).
    rewrite (round_units_compat r (- - x / B ^ expo x) (x / B ^ expo x))
      by (rewrite E; reflexivity).
    reflexivity.
  - rewrite (round_to_0 x H). rewrite (round_to_0 (- x)) by (rewrite H; reflexivity).
    reflexivity.
Qed.

Lemma expo_compat (x y : Q) : 0 < x -> x == y -> expo x = expo y.
Proof.
  intros Hx E. unfold Dec.expo. rewrite (adjusted_compat b b_ge_2 x y Hx E). reflexivity.
Qed.

Lemma round_to_compat (x y : Q) : x == y -> R x == R y.
Proof.
  intro E. destruct (Q_dec x 0) as [[H|H]|H].
  - rewrite (round_to_neg x H), (round_to_neg y) by lra.
    assert (E' : - x == - y) by (rewrite E; reflexivity).
    rewrite (expo_compat (- x) (- y)) by lra.
    rewrite (round_units_compat r (- x / B ^ expo (- y)) (- y / B ^ expo (- y)))
      by (rewrite E'; reflexivity).
    reflexivity.
  - rewrite (round_to_pos x H), (round_to_pos y) by lra.
    rewrite (expo_compat x y H E).
    rewrite (round_units_compat r (x / B ^ expo y) (y / B ^ expo y))
      by (rewrite E; reflexivity).
    reflexivity.
  - rewrite (round_to_0 x H), (round_to_0 y) by (rewrite <- E; exact H). reflexivity.
Qed.

(** For a positive [x]: the scaled value lies below [b ^ prec], and at or
    above [b ^ (prec - 1)] when [x] is not subnormal. *)
Lemma scaled_upper (x : Q) : 0 < x -> x / B ^ expo x < B ^ prec.
Proof.
  intro Hx. destruct (adjusted_spec b b_ge_2 x Hx) as [_ U].
  apply Qlt_shift_div_r; [apply Bpow_pos; exact b_ge_2|].
  rewrite <- Qpower_plus by (apply B_neq_0; exact b_ge_2).
  apply Qlt_le_trans with (B ^ (adjusted b x + 1)); [exact U|].
  apply Bpow_le; [exact b_ge_2|]. unfold Dec.expo. lia.
Qed.

Lemma scaled_lower (x : Q) :
  0 < x -> (etiny <= adjusted b x - prec + 1)%Z -> B ^ (prec - 1) <= x / B ^ expo x.
Proof.
  intros Hx Hn. destruct (adjusted_spec b b_ge_2 x Hx) as [L _].
  apply Qle_shift_div_l; [apply Bpow_pos; exact b_ge_2|].
  rewrite <- Qpower_plus by (apply B_neq_0; exact b_ge_2).
  replace (prec - 1 + expo x)%Z with (adjusted b x) by (unfold Dec.expo; lia).
  exact L.
Qed.

Lemma units_upper (x : Q) :
  0 < x -> inject_Z (round_units r (x / B ^ expo x)) <= B ^ prec.
Proof.
  intro Hx. rewrite <- (Bpow_Z b prec) by lia. rewrite <- Zle_Qle.
  rewrite <- (round_units_Z r (b ^ prec)). apply round_units_le.
  rewrite (Bpow_Z b prec) by lia. apply Qlt_le_weak, scaled_upper. exact Hx.
Qed.

Lemma units_lower (x : Q) :
  0 < x -> (etiny <= adjusted b x - prec + 1)%Z ->
  B ^ (prec - 1) <= inject_Z (round_units r (x / B ^ expo x)).
Proof.
  intros Hx Hn. rewrite <- (Bpow_Z b (prec - 1)) by lia. rewrite <- Zle_Qle.
  rewrite <- (round_units_Z r (b ^ (prec - 1))). apply round_units_le.
  rewrite (Bpow_Z b (prec - 1)) by lia. apply scaled_lower; assumption.
Qed.

Lemma units_nonneg (x : Q) : 0 < x -> 0 <= inject_Z (round_units r (x / B ^ expo x)).
Proof.
  intro Hx. change 0 with (inject_Z 0). rewrite <- Zle_Qle.
  apply round_units_nonneg. apply Qle_shift_div_l; [apply Bpow_pos; exact b_ge_2|]. lra.
Qed.

Lemma round_to_nonneg (x : Q) : 0 <= x -> 0 <= R x.
Proof.
  intro H. destruct (Qle_lt_or_eq 0 x H) as [P|E].
  - rewrite (round_to_pos x P). apply Qmult_le_0_compat; [apply units_nonneg; exact P|].
    apply Qlt_le_weak, Bpow_pos. exact b_ge_2.
  - rewrite (round_to_0 x); [apply Qle_refl|]. symmetry. exact E.
Qed.

Lemma round_to_nonpos (x : Q) : x <= 0 -> R x <= 0.
Proof.
  intro H. assert (P : 0 <= R (- x)) by (apply round_to_nonneg; lra).
  rewrite round_to_opp in P. lra.
Qed.

Lemma round_to_upper (x : Q) : 0 < x -> R x <= B ^ (expo x + prec).
Proof.
  intro Hx. rewrite (round_to_pos x Hx).
  rewrite Qpower_plus by (apply B_neq_0; exact b_ge_2).
  rewrite (Qmult_comm (B ^ expo x)).
  apply Qmult_le_compat_r; [apply units_upper; exact Hx|].
  apply Qlt_le_weak, Bpow_pos. exact b_ge_2.
Qed.

Lemma round_to_lower (x : Q) :
  0 < x -> (etiny <= adjusted b x - prec + 1)%Z -> B ^ adjusted b x <= R x.
Proof.
  intros Hx Hn. rewrite (round_to_pos x Hx).
  rewrite (Bpow_split b b_ge_2 (adjusted b x) (expo x)).
  replace (adjusted b x - expo x)%Z with (prec - 1)%Z by (unfold Dec.expo; lia).
  apply Qmult_le_compat_r; [apply units_lower; assumption|].
  apply Qlt_le_weak, Bpow_pos. exact b_ge_2.
Qed.

Lemma round_to_le_pos (x y : Q) : 0 < x -> x <= y -> R x <= R y.
Proof.
  intros Hx Hxy. assert (Hy : 0 < y) by lra.
  pose proof (adjusted_le b b_ge_2 x y Hx Hxy) as A.
  destruct (Z.eq_dec (expo x) (expo y)) as [E|E].
  - rewrite (round_to_pos x Hx), (round_to_pos y Hy), E.
    apply Qmult_le_compat_r; [|apply Qlt_le_weak, Bpow_pos; exact b_ge_2].
    rewrite <- Zle_Qle. apply round_units_le.
    apply Qmult_le_compat_r; [exact Hxy|].
    apply Qlt_le_weak, Qinv_lt_0_compat, Bpow_pos. exact b_ge_2.
  - assert (Lt : (expo x < expo y)%Z) by (unfold Dec.expo in *; lia).
    assert (Ny : (etiny <= adjusted b y - prec + 1)%Z) by (unfold Dec.expo in *; lia).
    apply Qle_trans with (B ^ (expo x + prec)); [apply round_to_upper; exact Hx|].
    apply Qle_trans with (B ^ adjusted b y); [|apply round_to_lower; assumption].
    apply Bpow_le; [exact b_ge_2|]. unfold Dec.expo in *. lia.
Qed.

Lemma round_to_le (x y : Q) : x <= y -> R x <= R y.
Proof.
  intro H. destruct (Qlt_le_dec 0 x) as [Px|Nx].
  - apply round_to_le_pos; assumption.
  - destruct (Qlt_le_dec y 0) as [Ny|Py].
    + assert (K : R (- y) <= R (- x)) by (apply round_to_le_pos; lra).
      rewrite !round_to_opp in K. lra.
    + apply Qle_trans with 0; [apply round_to_nonpos; exact Nx|apply round_to_nonneg; exact Py].
Qed.

Lemma round_to_grid_pos (c e : Z) :
  (etiny <= e)%Z -> (0 < c < b ^ prec)%Z -> R (inject_Z c * B ^ e) == inject_Z c * B ^ e.
Proof.
  intros He Hc. set (x := inject_Z c * B ^ e).
  pose proof (Bpow_pos b b_ge_2 e) as Pe.
  assert (Pc : 0 < inject_Z c).
  { change 0 with (inject_Z 0). rewrite <- Zlt_Qlt. lia. }
  assert (Hx : 0 < x).
  { unfold x. apply Qmult_lt_0_compat; assumption. }
  destruct (adjusted_spec b b_ge_2 x Hx) as [L _].
  assert (Ux : x < B ^ (prec + e)).
  { unfold x. rewrite Qpower_plus by (apply B_neq_0; exact b_ge_2).
    apply Qmult_lt_compat_r; [exact Pe|].
    rewrite <- (Bpow_Z b prec) by lia. rewrite <- Zlt_Qlt. lia. }
  assert (Ae : (adjusted b x < prec + e)%Z).
  { destruct (Z.lt_ge_cases (adjusted b x) (prec + e)) as [C|C]; [exact C|].
    exfalso. pose proof (Bpow_le b b_ge_2 (prec + e) (adjusted b x) C). lra. }
  assert (Le : (expo x <= e)%Z) by (unfold Dec.expo; lia).
  rewrite (round_to_pos x Hx).
  remember (expo x) as ex eqn:Hex.
  pose proof (Bpow_pos b b_ge_2 ex) as Pex.
  assert (Ex : x == inject_Z c * B ^ (e - ex) * B ^ ex).
  { unfold x. rewrite (Bpow_split b b_ge_2 e ex) at 1. ring. }
  assert (S : x / B ^ ex == inject_Z (c * b ^ (e - ex))).
  { rewrite inject_Z_mult, (Bpow_Z b (e - ex)) by lia. rewrite Ex. field. lra. }
  rewrite (round_units_compat r _ _ S), round_units_Z.
  rewrite inject_Z_mult, (Bpow_Z b (e - ex)) by lia.
  rewrite Ex. reflexivity.
Qed.

Lemma round_to_fixed (x : Q) : on_grid x -> R x == x.
Proof.
  intros (c & e & He & Hc & E).
  rewrite (round_to_compat x _ E), E.
  destruct (Z.lt_trichotomy c 0) as [C|[C|C]].
  - assert (K : R (inject_Z (- c) * B ^ e) == inject_Z (- c) * B ^ e)
      by (apply round_to_grid_pos; lia).
    assert (E' : inject_Z c * B ^ e == - (inject_Z (- c) * B ^ e))
      by (rewrite inject_Z_opp; ring).
    rewrite (round_to_compat _ _ E'), round_to_opp, K, E'. reflexivity.
  - subst c. assert (Z0 : inject_Z 0 * B ^ e == 0) by ring.
    rewrite (round_to_0 _ Z0), Z0. reflexivity.
  - apply round_to_grid_pos; lia.
Qed.

Lemma round_to_on_grid (x : Q) : on_grid (R x).
Proof.
  assert (Pos : forall y, 0 < y -> on_grid (R y)).
  { intros y Hy. pose proof (units_upper y Hy) as U. pose proof (units_nonneg y Hy) as N.
    rewrite <- (Bpow_Z b prec) in U by lia. rewrite <- Zle_Qle in U.
    change 0 with (inject_Z 0) in N. rewrite <- Zle_Qle in N.
    set (k := round_units r (y / B ^ expo y)) in *.
    destruct (Z.eq_dec k (b ^ prec)) as [E|E].
    - exists 1%Z, (expo y + prec)%Z. split; [unfold Dec.expo; lia|]. split.
      + simpl. apply Z.pow_gt_1; lia.
      + rewrite (round_to_pos y Hy). fold k. rewrite E, (Bpow_Z b prec) by lia.
        rewrite Qpower_plus by (apply B_neq_0; exact b_ge_2). ring.
    - exists k, (expo y). split; [unfold Dec.expo; lia|]. split; [lia|].
      apply round_to_pos. exact Hy. }
  destruct (Q_dec x 0) as [[H|H]|H].
  - destruct (Pos (- x) ltac:(lra)) as (c & e & He & Hc & E).
    exists (- c)%Z, e. split; [exact He|]. split; [lia|].
    rewrite round_to_opp in E. rewrite inject_Z_opp.
    assert (E2 : R x == - (inject_Z c * B ^ e)) by (rewrite <- E; ring).
    rewrite E2. ring.
  - apply Pos. exact H.
  - exists 0%Z, etiny. split; [lia|]. split.
    + simpl. apply Z.pow_pos_nonneg; lia.
    + rewrite (round_to_0 x H). ring.
Qed.

Lemma round_to_idem (x : Q) : R (R x) == R x.
Proof.
  apply round_to_fixed, round_to_on_grid.
Qed.

(** The error is at most half a unit of the last place kept. *)
Lemma round_to_error_pos (x : Q) :
  0 < x -> Qabs (R x - x) <= (1 # 2) * B ^ expo x.
Proof.
  intro Hx. rewrite (round_to_pos x Hx).
  pose proof (Bpow_pos b b_ge_2 (expo x)) as Pe.
  destruct (round_units_near r (x / B ^ expo x)) as [N1 N2].
  set (k := inject_Z (round_units r (x / B ^ expo x))) in *.
  set (u := B ^ expo x) in *.
  assert (Ex : x == x / u * u) by (field; lra).
  apply Qabs_Qle_condition. split.
  - assert (K : (x / u) * u <= (k + (1 # 2)) * u)
      by (apply Qmult_le_compat_r; lra).
    rewrite <- Ex in K. lra.
  - assert (K : (k - (1 # 2)) * u <= (x / u) * u)
      by (apply Qmult_le_compat_r; lra).
    rewrite <- Ex in K. lra.
Qed.

(** Numbers of the grid are whole multiples of the least unit. *)
Lemma grid_multiple (x : Q) : on_grid x -> exists z, x == inject_Z z * B ^ etiny.
Proof.
  intros (c & e & He & _ & E).
  exists (c * b ^ (e - etiny))%Z.
  rewrite E, inject_Z_mult, (Bpow_Z b (e - etiny)) by lia.
  rewrite (Bpow_split b b_ge_2 e etiny). ring.
Qed.

(** A sum of two numbers of the grid is rounded with a relative error of at
    most half a unit of the last of [prec] digits. *)
Lemma round_to_sum_error (x y : Q) :
  on_grid x -> on_grid y -> 0 < x + y ->
  Qabs (R (x + y) - (x + y)) <= (1 # 2) * B ^ (1 - prec) * R (x + y).
Proof.
  intros Gx Gy Hs.
  set (s := x + y) in *.
  destruct (adjusted_spec b b_ge_2 s Hs) as [L U].
  destruct (Z_le_gt_dec etiny (adjusted b s - prec + 1)) as [C|C].
  - apply Qle_trans with ((1 # 2) * B ^ expo s); [apply round_to_error_pos; exact Hs|].
    assert (Ee : expo s = (1 - prec + adjusted b s)%Z) by (unfold Dec.expo; lia).
    rewrite Ee, Qpower_plus by (apply (B_neq_0 b b_ge_2)).
    pose proof (round_to_lower s Hs C) as Lo.
    pose proof (Bpow_pos b b_ge_2 (1 - prec)) as Pp.
    rewrite <- Qmult_assoc. apply Qmult_le_l; [reflexivity|].
    apply Qmult_le_l; [exact Pp|exact Lo].
  - destruct (grid_multiple x Gx) as [zx Ex]. destruct (grid_multiple y Gy) as [zy Ey].
    pose proof (Bpow_pos b b_ge_2 etiny) as Pe.
    assert (Es : s == inject_Z (zx + zy) * B ^ etiny).
    { unfold s. rewrite Ex, Ey, inject_Z_plus. ring. }
    clearbody s.
    assert (G : on_grid s).
    { exists (zx + zy)%Z, etiny. split; [lia|]. split; [|exact Es].
      assert (P0 : 0 < inject_Z (zx + zy)).
      { destruct (Qlt_le_dec 0 (inject_Z (zx + zy))) as [P|N]; [exact P|].
        exfalso.
        assert (K : inject_Z (zx + zy) * B ^ etiny <= 0 * B ^ etiny)
          by (apply Qmult_le_compat_r; lra).
        lra. }
      assert (P1 : inject_Z (zx + zy) < B ^ prec).
      { pose proof (Bpow_le b b_ge_2 (adjusted b s + 1) (etiny + prec) ltac:(lia)) as K.
        rewrite (Qpower_plus _ etiny prec) in K by (apply (B_neq_0 b b_ge_2)).
        assert (K' : inject_Z (zx + zy) * B ^ etiny < B ^ prec * B ^ etiny) by lra.
        destruct (Qlt_le_dec (inject_Z (zx + zy)) (B ^ prec)) as [P|N]; [exact P|].
        exfalso.
        assert (K'' : B ^ prec * B ^ etiny <= inject_Z (zx + zy) * B ^ etiny)
          by (apply Qmult_le_compat_r; lra).
        lra. }
      rewrite <- (Bpow_Z b prec) in P1 by lia.
      change 0 with (inject_Z 0) in P0.
      rewrite <- Zlt_Qlt in P0, P1. lia. }
    pose proof (round_to_fixed s G) as F.
    pose proof (Bpow_pos b b_ge_2 (1 - prec)) as Pp.
    assert (Z0 : R s - s == 0) by (rewrite F; ring).
    rewrite Z0. change (Qabs 0) with 0.
    apply Qmult_le_0_compat; [|rewrite F; lra].
    apply Qmult_le_0_compat; [discriminate|lra].
Qed.

End RoundTo.

(** ** Fields the operations leave alone *)

Section Frame.

Local Open Scope string_scope.

Lemma replace_snapshot_config (rb ra : pyval) (m : BitgetManager.t) :
  config_of (replace_snapshot rb ra m) = config_of m.
Proof.
  unfold replace_snapshot.
  destruct (iter rb) as [items|e]; [|reflexivity].
  destruct (load_levels items (bids (_clear_books m))) as [b [e|]]; [reflexivity|].
  destruct (iter ra); reflexivity.
Qed.

Lemma init_snapshot_config (r : http) (m : BitgetManager.t) :
  config_of (init_snapshot r m) = config_of m.
Proof.
  unfold init_snapshot.
  destruct (fetch_orderbook r) as [[rb ra]|e]; [|reflexivity].
  apply replace_snapshot_config.
Qed.

Lemma init_snapshot_prices (r : http) (m : BitgetManager.t) :
  last_price_str (init_snapshot r m) = last_price_str m /\
  prev_price_str (init_snapshot r m) = prev_price_str m.
Proof.
  pose proof (init_snapshot_config r m) as C. unfold config_of in C.
  split; congruence.
Qed.

Lemma init_price_book (r : http) (m : BitgetManager.t) :
  bids (init_price r m) = bids m /\ asks (init_price r m) = asks m.
Proof.
  unfold init_price.
  destruct r as [|st body]; [split; reflexivity|].
  destruct (_ <- _ ;; _) as [[p|]|e]; try (split; reflexivity).
  destruct p; try (split; reflexivity); destruct (str_raises _); split; reflexivity.
Qed.

Lemma init_price_names (r : http) (m : BitgetManager.t) :
  symbol (init_price r m) = symbol m /\ top_n (init_price r m) = top_n m.
Proof.
  unfold init_price.
  destruct r as [|st body]; [split; reflexivity|].
  destruct (_ <- _ ;; _) as [[p|]|e]; try (split; reflexivity).
  destruct p; try (split; reflexivity); destruct (str_raises _); split; reflexivity.
Qed.

Lemma apply_blocks_config (blocks : list pyval) (m : BitgetManager.t) :
  config_of (fst (apply_blocks blocks m)) = config_of m.
Proof.
  revert m; induction blocks as [|block rest IH]; intro m; simpl; [reflexivity|].
  destruct (isinstance_dict block); simpl; [|apply IH].
  destruct (apply_side "bids" block (bids m)) as [b|e]; [|reflexivity].
  destruct (apply_side "asks" block _) as [a|e]; [|reflexivity].
  rewrite IH. reflexivity.
Qed.

Lemma apply_books_config (blocks : list pyval) (now : Q) (m : BitgetManager.t) :
  config_of (fst (apply_books blocks now m)) = config_of m.
Proof.
  unfold apply_books.
  pose proof (apply_blocks_config blocks m) as H.
  destruct (apply_blocks blocks m) as [m' [e|]]; simpl in *; exact H.
Qed.

Lemma on_message_config (parsed : option pyval) (now : Q) (m : BitgetManager.t) :
  config_of (fst (_on_message parsed now m)) = config_of m.
Proof.
  unfold _on_message.
  destruct parsed as [msg|]; [|reflexivity].
  destruct (is_control msg) as [[|]|e]; try reflexivity.
  destruct (channel_of msg) as [channel|e]; [|reflexivity].
  destruct (get "data" msg) as [data|e]; [|reflexivity].
  set (blocks := match data with PList l => l | _ => [data] end).
  assert (Hgo :
    config_of (fst
      (let '(m1, e1) :=
         if existsb book_shaped blocks then apply_books blocks now m else (m, None) in
       match e1 with
       | Some e => (m1, Some e)
       | None =>
           if existsb trade_shaped blocks then call_apply_trades blocks m1
           else match str_in "trade" channel with
                | Raise e => (m1, Some e)
                | Ok true => call_apply_trades blocks m1
                | Ok false => (m1, None)
                end
       end)) = config_of m).
  { pose proof (apply_books_config blocks now m) as H.
    destruct (existsb book_shaped blocks).
    - destruct (apply_books blocks now m) as [m1 [e|]]; simpl in *; [exact H|].
      destruct (existsb trade_shaped blocks); [exact H|].
      destruct (str_in "trade" channel) as [[|]|e]; exact H.
    - destruct (existsb trade_shaped blocks); [reflexivity|].
      destruct (str_in "trade" channel) as [[|]|e]; reflexivity. }
  destruct data; try exact Hgo; reflexivity.
Qed.

End Frame.

(** ** The stream's trade messages *)

Section Stream.

Local Open Scope string_scope.

(** C1.  Dispatch of an inbound message never reaches the ticker: no message
    changes the current or the previous price, and a push of the trade
    channel, whose payload carries a price field, ends in the exception of
    the missing method [apply_trades] with the state as it was. *)
Theorem on_message_trade_never_updates_ticker :
  (forall parsed now m,
      last_price_str (fst (_on_message parsed now m)) = last_price_str m /\
      prev_price_str (fst (_on_message parsed now m)) = prev_price_str m) /\
  (forall now m, _on_message (Some trade_push) now m = (m, Some AttributeError)).
Proof.
  split.
  - intros parsed now m.
    pose proof (on_message_config parsed now m) as H.
    unfold config_of in H. split; congruence.
  - intros now m. reflexivity.
Qed.

End Stream.

(** ** The ticker *)

Section Ticker.

Local Open Scope string_scope.

(** C3.  With current price 100 and previous price 99, a bootstrap that
    observes 100 again overwrites the previous price with 100 although the
    current price does not change; the REST poll leaves the same state as it
    is on the same reply. *)
Theorem bootstrap_shifts_previous_on_equal_price :
  let m := with_prices "99" "100" in
  let m' := init_snapshot_and_price ConnectionError (ticker_reply "100") m in
  (last_price_str m = "100" /\ prev_price_str m = "99") /\
  (last_price_str m' = "100" /\ prev_price_str m' = "100") /\
  ticker_poll (ticker_reply "100") m = m.
Proof.
  repeat split.
Qed.

(** The bootstrap shifts the prices on every reply that carries a price. *)
Lemma init_price_always_shifts (s : string) (m : BitgetManager.t) :
  s <> "" -> init_price (ticker_reply s) m = shift_price s m.
Proof.
  intro H. unfold init_price, ticker_reply. simpl. unfold por. simpl.
  destruct (String.eqb_spec s "") as [E|_]; [contradiction|]. reflexivity.
Qed.

(** The poll changes the pair of prices only when the observed string differs
    from the current one. *)
Lemma ticker_poll_guard (r : http) (m : BitgetManager.t) :
  ticker_poll r m = m \/
  exists s, s <> last_price_str m /\ ticker_poll r m = shift_price s m.
Proof.
  unfold ticker_poll.
  destruct r as [|st body]; [left; reflexivity|].
  destruct (st =? 200)%Z; [|left; reflexivity].
  destruct (_ <- _ ;; _) as [[p|]|e]; try (left; reflexivity).
  assert (H : (if negb (str p =? last_price_str m) then shift_price (str p) m else m) = m \/
              exists s, s <> last_price_str m /\
                (if negb (str p =? last_price_str m) then shift_price (str p) m else m)
                = shift_price s m).
  { destruct (String.eqb_spec (str p) (last_price_str m)) as [E|E]; simpl.
    - left; reflexivity.
    - right; exists (str p); split; [exact E|reflexivity]. }
  destruct p; try exact H; try (left; reflexivity);
    (destruct (str_raises _); [left; reflexivity|exact H]).
Qed.

End Ticker.

(** ** Bootstrap failures and restart *)

Section Lifecycle.

Local Open Scope string_scope.

Lemma init_snapshot_raises (r : http) (m : BitgetManager.t) :
  raises r -> init_snapshot r m = m.
Proof.
  intros [-> | ->]; reflexivity.
Qed.

Lemma init_snapshot_bad_status (st : Z) (body : option pyval) (m : BitgetManager.t) :
  st <> 200%Z -> init_snapshot (Response st body) m = _clear_books m.
Proof.
  intro H. unfold init_snapshot, fetch_orderbook.
  destruct (Z.eqb_spec st 200) as [E|_]; [contradiction|]. reflexivity.
Qed.

Lemma init_price_failed (r : http) (m : BitgetManager.t) :
  failed r -> init_price r m = m.
Proof.
  intros [ | st body H | ]; try reflexivity.
  unfold init_price.
  destruct (Z.eqb_spec st 200) as [E|_]; [contradiction|]. reflexivity.
Qed.

Lemma stop_not_running (m : BitgetManager.t) : running (stop m) = false.
Proof.
  unfold stop. destruct (running m) eqn:E; simpl; [reflexivity|exact E].
Qed.

Lemma stop_keeps (m : BitgetManager.t) :
  bids (stop m) = bids m /\ asks (stop m) = asks m /\
  last_price_str (stop m) = last_price_str m /\
  prev_price_str (stop m) = prev_price_str m /\
  symbol (stop m) = symbol m /\ top_n (stop m) = top_n m.
Proof.
  unfold stop. destruct (running m); repeat split.
Qed.

Lemma restart_unfold sym n book ticker m :
  restart sym n book ticker m =
  set_running true
    (init_snapshot_and_price book ticker (set_stop false (restart_prepared sym n m))).
Proof.
  unfold restart, start. fold (restart_prepared sym n m).
  assert (H : running (restart_prepared sym n m) = false).
  { unfold restart_prepared.
    pose proof (stop_not_running m) as R.
    destruct sym as [s|]; [destruct (negb (s =? ""))|];
      (destruct n as [k|]; [destruct (negb (k =? 0)%Z)|]); exact R. }
  rewrite H. reflexivity.
Qed.

Lemma restart_prepared_fields sym n m :
  bids (restart_prepared sym n m) = [] /\
  asks (restart_prepared sym n m) = [] /\
  last_price_str (restart_prepared sym n m) = last_price_str m /\
  prev_price_str (restart_prepared sym n m) = prev_price_str m /\
  symbol (restart_prepared sym n m)
    = match sym with
      | Some s => if s =? "" then symbol m else s
      | None => symbol m
      end /\
  top_n (restart_prepared sym n m)
    = match n with
      | Some k => if (k =? 0)%Z then top_n m else k
      | None => top_n m
      end.
Proof.
  destruct (stop_keeps m) as (_ & _ & Hl & Hp & Hs & Ht).
  unfold restart_prepared.
  destruct sym as [s|]; [destruct (s =? "")|];
    (destruct n as [k|]; [destruct (k =? 0)%Z|]); simpl; repeat split; assumption.
Qed.

(** C10.  [restart] keeps the tracked symbol when the symbol argument is
    [None] or the empty string and keeps the depth when the depth argument is
    [None] or 0; any other argument replaces the field.  The books handed to
    the bootstrap are empty and the manager runs afterwards. *)
Theorem restart_applies_truthy_arguments_only :
  forall (sym : option string) (n : option Z) (book ticker : http) (m : BitgetManager.t),
    symbol (restart sym n book ticker m)
      = match sym with
        | Some s => if s =? "" then symbol m else s
        | None => symbol m
        end /\
    top_n (restart sym n book ticker m)
      = match n with
        | Some k => if (k =? 0)%Z then top_n m else k
        | None => top_n m
        end /\
    bids (restart_prepared sym n m) = [] /\
    asks (restart_prepared sym n m) = [] /\
    restart sym n book ticker m
      = start book ticker (restart_prepared sym n m) /\
    running (restart sym n book ticker m) = true.
Proof.
  intros sym n book ticker m.
  destruct (restart_prepared_fields sym n m) as (Hb & Ha & _ & _ & Hs & Ht).
  pose proof (restart_unfold sym n book ticker m) as E.
  set (p := set_stop false (restart_prepared sym n m)) in *.
  assert (Hn : symbol (init_snapshot_and_price book ticker p) = symbol p /\
               top_n (init_snapshot_and_price book ticker p) = top_n p).
  { unfold init_snapshot_and_price.
    destruct (init_price_names ticker (init_snapshot book p)) as [-> ->].
    pose proof (init_snapshot_config book p) as C. unfold config_of in C.
    split; congruence. }
  destruct Hn as [Hn1 Hn2].
  split; [|split; [|split; [|split; [|split]]]].
  - rewrite E. simpl. rewrite Hn1. exact Hs.
  - rewrite E. simpl. rewrite Hn2. exact Ht.
  - exact Hb.
  - exact Ha.
  - reflexivity.
  - rewrite E. reflexivity.
Qed.

(** C4, as the code has it.  A failed bootstrap leaves the ticker strings as
    they were.  The book is left as it was when the order book request
    raises (no connection, unreadable body) and is emptied when the reply has
    another status than 200.  Inside [restart], which clears the books before
    the bootstrap, the book is therefore empty after a failed bootstrap, and
    the ticker strings are still those of the previous run. *)
Theorem failed_bootstrap_keeps_prior_state :
  forall (book ticker : http) (m : BitgetManager.t),
    failed book -> failed ticker ->
    let m' := init_snapshot_and_price book ticker m in
    (last_price_str m' = last_price_str m /\ prev_price_str m' = prev_price_str m) /\
    (raises book -> bids m' = bids m /\ asks m' = asks m) /\
    (~ raises book -> bids m' = [] /\ asks m' = []) /\
    (forall sym n,
        let r := restart sym n book ticker m in
        bids r = [] /\ asks r = [] /\
        last_price_str r = last_price_str m /\ prev_price_str r = prev_price_str m).
Proof.
  intros book ticker m Hb Ht.
  assert (Hprice : forall x, init_snapshot_and_price book ticker x = init_snapshot book x).
  { intro x. unfold init_snapshot_and_price. apply init_price_failed, Ht. }
  assert (Hbook : forall x, bids x = [] -> asks x = [] ->
                    bids (init_snapshot book x) = [] /\ asks (init_snapshot book x) = []).
  { intros x Hx1 Hx2. destruct Hb as [ | st body H | ].
    - simpl. split; assumption.
    - rewrite init_snapshot_bad_status by exact H. split; reflexivity.
    - simpl. split; assumption. }
  cbv zeta. rewrite Hprice.
  pose proof (init_snapshot_config book m) as C. unfold config_of in C.
  split; [split; congruence|].
  split; [intro H; rewrite init_snapshot_raises by exact H; split; reflexivity|].
  split.
  - intro H. destruct Hb as [ | st body H' | ].
    + exfalso; apply H; left; reflexivity.
    + rewrite init_snapshot_bad_status by exact H'. split; reflexivity.
    + exfalso; apply H; right; reflexivity.
  - intros sym n. rewrite restart_unfold.
    set (p := set_stop false (restart_prepared sym n m)).
    simpl. rewrite Hprice.
    destruct (restart_prepared_fields sym n m) as (B & A & L & P & _).
    destruct (Hbook p B A) as [B' A'].
    destruct (init_snapshot_prices book p) as [C1 C2].
    split; [exact B'|]. split; [exact A'|].
    split; [rewrite C1; exact L | rewrite C2; exact P].
Qed.

(** C4 fails as stated: with no connection for either request the bootstrap
    returns the state of the previous run, book and prices included; and a
    restart, which clears the book first, still ends with the prices of the
    previous run. *)
Lemma failed_bootstrap_not_empty :
  failed ConnectionError /\
  init_snapshot_and_price ConnectionError ConnectionError after_a_run = after_a_run /\
  bids after_a_run <> [] /\ last_price_str after_a_run <> "" /\
  last_price_str (restart None None ConnectionError ConnectionError after_a_run) = "100" /\
  prev_price_str (restart None None ConnectionError ConnectionError after_a_run) = "99.5".
Proof.
  split; [constructor|]. split; [reflexivity|].
  split; [discriminate|]. split; [discriminate|]. split; reflexivity.
Qed.

Lemma failed_bootstrap_keeps_prior_state_witness :
  let m' := init_snapshot_and_price (Response 503 None) ConnectionError after_a_run in
  failed (Response 503 None) /\ failed ConnectionError /\
  ~ raises (Response 503 None) /\
  (last_price_str m' = "100" /\ prev_price_str m' = "99.5") /\
  (bids m' = [] /\ asks m' = []).
Proof.
  assert (Hb : failed (Response 503 None)) by (constructor; discriminate).
  assert (Hn : ~ raises (Response 503 None)) by (intros [H|H]; discriminate H).
  destruct (failed_bootstrap_keeps_prior_state (Response 503 None) ConnectionError
              after_a_run Hb failed_connection)
    as (Hp & _ & He & _).
  split; [exact Hb|]. split; [exact failed_connection|]. split; [exact Hn|].
  split; [exact Hp|apply He, Hn].
Defined.

End Lifecycle.

(** ** Quantities stored in the book *)

Section Book.

Local Open Scope Q_scope.

Lemma ltb_lt (a b : Q) : ltb a b = true <-> a < b.
Proof.
  unfold ltb. rewrite negb_true_iff.
  destruct (Qle_bool b a) eqn:E.
  - apply Qle_bool_iff in E. split; [discriminate|intro; lra].
  - split; [intros _|reflexivity].
    destruct (Qlt_le_dec a b) as [H|H]; [exact H|].
    apply Qle_bool_iff in H. congruence.
Qed.

Lemma ltb_ge (a b : Q) : ltb a b = false <-> b <= a.
Proof.
  unfold ltb. rewrite negb_false_iff. apply Qle_bool_iff.
Qed.

Lemma eqb_eq (a b : Q) : eqb a b = true <-> a == b.
Proof. apply Qeq_bool_iff. Qed.

Lemma dict_set_positive (p q : Q) (d : side) :
  0 < q -> all_positive d -> all_positive (dict_set p q d).
Proof.
  intros Hq. induction d as [|[p' q'] rest IH]; intro H; simpl.
  - constructor; [exact Hq|constructor].
  - inversion_clear H as [|? ? H1 H2].
    destruct (eqb p' p); constructor; try assumption; apply IH, H2.
Qed.

Lemma dict_pop_positive (p : Q) (d : side) :
  all_positive d -> all_positive (dict_pop p d).
Proof.
  induction d as [|[p' q'] rest IH]; intro H; simpl; [constructor|].
  inversion_clear H as [|? ? H1 H2].
  destruct (eqb p' p); [exact H2|constructor; [exact H1|apply IH, H2]].
Qed.

Lemma apply_levels_positive (its : list pyval) :
  Forall (qty_of_entry (fun q => 0 <= q)) its ->
  forall d, all_positive d -> all_positive (apply_levels its d).
Proof.
  induction 1 as [|it rest Hit _ IH]; intros d Hd; simpl; [exact Hd|].
  destruct (index it 0) as [p0|e]; [|apply IH, Hd].
  destruct (index it 1) as [q0|e] eqn:E1; [|apply IH, Hd].
  apply IH.
  specialize (Hit q0 E1). simpl in Hit.
  destruct (eqb (D q0) 0) eqn:Ez.
  - apply dict_pop_positive, Hd.
  - apply dict_set_positive; [|exact Hd].
    apply Qeq_bool_neq in Ez.
    destruct (Qlt_le_dec 0 (D q0)) as [H|H]; [exact H|].
    exfalso; apply Ez; lra.
Qed.

Lemma load_levels_positive (items : list pyval) :
  Forall (qty_of_entry (fun q => 0 < q)) items ->
  forall d, all_positive d -> all_positive (fst (load_levels items d)).
Proof.
  induction 1 as [|item rest Hit _ IH]; intros d Hd; simpl; [exact Hd|].
  destruct (negb (truthy item)); [apply IH, Hd|].
  destruct (len item) as [n|e]; [|exact Hd].
  destruct (n <? 2)%nat; [apply IH, Hd|].
  destruct (index item 0) as [p0|e]; [|exact Hd].
  destruct (index item 1) as [q0|e] eqn:E1; [|exact Hd].
  apply IH, dict_set_positive; [apply (Hit q0 E1)|exact Hd].
Qed.

Lemma apply_side_positive (key : string) (block : pyval) (d d' : side) :
  qty_of_block (fun q => 0 <= q) key block ->
  all_positive d -> apply_side key block d = Ok d' -> all_positive d'.
Proof.
  intros Hb Hd. unfold apply_side.
  destruct (get_default key (PList []) block) as [v|e] eqn:Ev; simpl; [|discriminate].
  destruct (iter v) as [its|e] eqn:Ei; simpl; [|discriminate].
  intro H; injection H as <-.
  apply apply_levels_positive; [apply (Hb v its Ev Ei)|exact Hd].
Qed.

Lemma apply_blocks_positive (blocks : list pyval) :
  blocks_nonneg blocks ->
  forall m, book_positive m -> book_positive (fst (apply_blocks blocks m)).
Proof.
  induction 1 as [|block rest [Hb Ha] _ IH]; intros m Hm; simpl; [exact Hm|].
  destruct (isinstance_dict block); simpl; [|apply IH, Hm].
  destruct Hm as [Hmb Hma].
  destruct (apply_side "bids" block (bids m)) as [b|e] eqn:Eb; [|split; assumption].
  pose proof (apply_side_positive "bids" block _ b Hb Hmb Eb) as Pb.
  destruct (apply_side "asks" block (asks m)) as [a|e] eqn:Ea;
    [|split; [exact Pb|exact Hma]].
  pose proof (apply_side_positive "asks" block _ a Ha Hma Ea) as Pa.
  apply IH. split; [exact Pb|exact Pa].
Qed.

Lemma dict_lookup_set_same (p q : Q) (d : side) :
  dict_lookup p (dict_set p q d) = Some q.
Proof.
  induction d as [|[k v] rest IH]; simpl.
  - unfold eqb. rewrite Qeq_bool_refl. reflexivity.
  - destruct (eqb k p) eqn:E; simpl; rewrite E; [reflexivity|exact IH].
Qed.

Lemma dict_lookup_compat (p p' : Q) (d : side) :
  p == p' -> dict_lookup p d = dict_lookup p' d.
Proof.
  intro E. induction d as [|[k v] rest IH]; simpl; [reflexivity|].
  unfold eqb. rewrite (Qeqb_comp k k (Qeq_refl k) p p' E), IH. reflexivity.
Qed.

Lemma dict_pop_absent (p : Q) (d : side) :
  unique_keys d -> dict_lookup p (dict_pop p d) = None.
Proof.
  induction d as [|[k v] rest IH]; simpl; [reflexivity|].
  intros [Hk Hu].
  destruct (eqb k p) eqn:E; simpl.
  - apply eqb_eq in E. rewrite <- (dict_lookup_compat k p rest E). exact Hk.
  - rewrite E. apply IH, Hu.
Qed.

Lemma dict_set_keeps_absent (k p q : Q) (d : side) :
  eqb k p = false -> dict_lookup k d = None -> dict_lookup k (dict_set p q d) = None.
Proof.
  intros Hk. induction d as [|[k' v'] rest IH]; simpl; intro H.
  - unfold eqb in *. rewrite Qeq_bool_comm, Hk. reflexivity.
  - destruct (eqb k' k) eqn:E; [discriminate H|].
    destruct (eqb k' p); simpl; rewrite E; [exact H|apply IH, H].
Qed.

Lemma dict_pop_keeps_absent (k p : Q) (d : side) :
  dict_lookup k d = None -> dict_lookup k (dict_pop p d) = None.
Proof.
  induction d as [|[k' v'] rest IH]; simpl; intro H; [reflexivity|].
  destruct (eqb k' k) eqn:E; [discriminate H|].
  destruct (eqb k' p); simpl; [exact H|rewrite E; apply IH, H].
Qed.

Lemma dict_set_unique (p q : Q) (d : side) :
  unique_keys d -> unique_keys (dict_set p q d).
Proof.
  induction d as [|[k v] rest IH]; simpl; [intros _; split; [reflexivity|exact I]|].
  intros [Hk Hu]. destruct (eqb k p) eqn:E; simpl.
  - split; assumption.
  - split; [apply dict_set_keeps_absent; assumption|apply IH, Hu].
Qed.

Lemma dict_pop_unique (p : Q) (d : side) :
  unique_keys d -> unique_keys (dict_pop p d).
Proof.
  induction d as [|[k v] rest IH]; simpl; [intros _; exact I|].
  intros [Hk Hu]. destruct (eqb k p); simpl; [exact Hu|].
  split; [apply dict_pop_keeps_absent, Hk|apply IH, Hu].
Qed.

(** The loops of the delta and of the bootstrap keep the keys of a side
    distinct. *)
Lemma apply_levels_unique (its : list pyval) :
  forall d, unique_keys d -> unique_keys (apply_levels its d).
Proof.
  induction its as [|it rest IH]; intros d Hd; simpl; [exact Hd|].
  destruct (index it 0) as [p0|e]; [|apply IH, Hd].
  destruct (index it 1) as [q0|e]; [|apply IH, Hd].
  apply IH. destruct (eqb (D q0) 0);
    [apply dict_pop_unique, Hd|apply dict_set_unique, Hd].
Qed.

Lemma load_levels_unique (items : list pyval) :
  forall d, unique_keys d -> unique_keys (fst (load_levels items d)).
Proof.
  induction items as [|item rest IH]; intros d Hd; simpl; [exact Hd|].
  destruct (negb (truthy item)); [apply IH, Hd|].
  destruct (len item) as [n|e]; [|exact Hd].
  destruct (n <? 2)%nat; [apply IH, Hd|].
  destruct (index item 0) as [p0|e]; [|exact Hd].
  destruct (index item 1) as [q0|e]; [|exact Hd].
  apply IH, dict_set_unique, Hd.
Qed.

Lemma apply_side_unique (key : string) (block : pyval) (d d' : side) :
  unique_keys d -> apply_side key block d = Ok d' -> unique_keys d'.
Proof.
  intro Hd. unfold apply_side.
  destruct (get_default key (PList []) block) as [v|e]; simpl; [|discriminate].
  destruct (iter v) as [its|e]; simpl; [|discriminate].
  intro H; injection H as <-. apply apply_levels_unique, Hd.
Qed.

(** Both sides of the manager are dicts: a delta and the bootstrap keep the
    keys of each side distinct. *)
Lemma apply_books_unique (blocks : list pyval) (now : Q) :
  forall m,
    unique_keys (bids m) -> unique_keys (asks m) ->
    unique_keys (bids (fst (apply_books blocks now m))) /\
    unique_keys (asks (fst (apply_books blocks now m))).
Proof.
  assert (H : forall m, unique_keys (bids m) -> unique_keys (asks m) ->
                unique_keys (bids (fst (apply_blocks blocks m))) /\
                unique_keys (asks (fst (apply_blocks blocks m)))).
  { induction blocks as [|block rest IH]; intros m Hb Ha; simpl; [split; assumption|].
    destruct (isinstance_dict block); simpl; [|apply IH; assumption].
    destruct (apply_side "bids" block (bids m)) as [b|e] eqn:Eb; [|split; assumption].
    pose proof (apply_side_unique "bids" block _ b Hb Eb) as Ub.
    destruct (apply_side "asks" block (asks m)) as [a|e] eqn:Ea;
      [|split; [exact Ub|exact Ha]].
    pose proof (apply_side_unique "asks" block _ a Ha Ea) as Ua.
    apply IH; [exact Ub|exact Ua]. }
  intros m Hb Ha. unfold apply_books.
  pose proof (H m Hb Ha) as K.
  destruct (apply_blocks blocks m) as [m' [e|]]; exact K.
Qed.

Lemma init_snapshot_unique (r : http) (m : BitgetManager.t) :
  unique_keys (bids m) -> unique_keys (asks m) ->
  unique_keys (bids (init_snapshot r m)) /\ unique_keys (asks (init_snapshot r m)).
Proof.
  intros Hb Ha. unfold init_snapshot.
  destruct (fetch_orderbook r) as [[rb ra]|e]; [|split; assumption].
  unfold replace_snapshot.
  destruct (iter rb) as [items|e]; [|split; exact I].
  pose proof (load_levels_unique items [] I) as Ub. simpl bids.
  destruct (load_levels items []) as [b [e|]]; [split; [exact Ub|exact I]|].
  destruct (iter ra) as [items'|e]; [|split; [exact Ub|exact I]].
  split; [exact Ub|apply (load_levels_unique items' [] I)].
Qed.

(** C2, as the code has it.  Over updates whose prices and quantities
    [Decimal] reads as finite numbers or not at all: a delta keeps every
    stored quantity strictly positive when the book was so before and no
    update of the batch has a negative quantity; an update of quantity zero
    removes its price key, and an update of negative quantity is stored as
    given.  The bootstrap that has read a reply stores every entry as given,
    so the stored quantities are strictly positive after it when those of the
    reply are, whatever the book held before. *)
Theorem book_positive_preserved :
  (forall blocks now m,
      book_positive m -> blocks_inputs finite_input blocks -> blocks_nonneg blocks ->
      book_positive (fst (apply_books blocks now m))) /\
  (forall r m,
      (exists rb ra, fetch_orderbook r = Ok (rb, ra)) ->
      snapshot_inputs finite_input r -> snapshot_positive r ->
      book_positive (init_snapshot r m)) /\
  (forall it p0 q0 d,
      unique_keys d ->
      index it 0 = Ok p0 -> index it 1 = Ok q0 ->
      finite_input p0 -> finite_input q0 -> D q0 == 0 ->
      dict_lookup (D p0) (apply_levels [it] d) = None) /\
  (forall it p0 q0 d,
      index it 0 = Ok p0 -> index it 1 = Ok q0 ->
      finite_input p0 -> finite_input q0 -> D q0 < 0 ->
      dict_lookup (D p0) (apply_levels [it] d) = Some (D q0)).
Proof.
  split; [|split; [|split]].
  - intros blocks now m Hm _ Hb. unfold apply_books.
    pose proof (apply_blocks_positive blocks Hb m Hm) as H.
    destruct (apply_blocks blocks m) as [m' [e|]]; exact H.
  - intros r m (rb0 & ra0 & Ef0) _ Hr. unfold init_snapshot.
    destruct (fetch_orderbook r) as [[rb ra]|e] eqn:Ef; [|discriminate Ef0].
    unfold replace_snapshot.
    destruct (iter rb) as [items|e] eqn:Eb; [|split; constructor].
    pose proof (load_levels_positive items (Hr rb ra items Ef (or_introl Eb)) []
                  (Forall_nil _)) as Pb.
    simpl bids.
    destruct (load_levels items []) as [b [e|]]; [split; [exact Pb|constructor]|].
    destruct (iter ra) as [items'|e] eqn:Ea; [|split; [exact Pb|constructor]].
    pose proof (load_levels_positive items' (Hr rb ra items' Ef (or_intror Ea)) []
                  (Forall_nil _)) as Pa.
    split; [exact Pb|exact Pa].
  - intros it p0 q0 d Hu E0 E1 _ _ Hz. simpl. rewrite E0, E1.
    apply eqb_eq in Hz. rewrite Hz. apply dict_pop_absent, Hu.
  - intros it p0 q0 d E0 E1 _ _ Hn. simpl. rewrite E0, E1.
    destruct (eqb (D q0) 0) eqn:Ez.
    + apply eqb_eq in Ez. lra.
    + apply dict_lookup_set_same.
Qed.

End Book.

Section BookExamples.

Local Open Scope string_scope.

(** C2 fails as stated: the bootstrap stores a level of quantity zero, and a
    delta stores a level of negative quantity. *)
Lemma nonpositive_quantity_is_stored :
  let m1 := init_snapshot (snapshot_reply [level_entry "100" "0"] []) (init 0) in
  let m2 := fst (apply_books (books_data [] [level_entry "101" "-1"]) 1 (init 0)) in
  (bids m1 = [(100, 0)] /\ ~ book_positive m1) /\
  (asks m2 = [(101, -1)] /\ ~ book_positive m2).
Proof.
  cbv zeta. split; (split; [reflexivity|]).
  - intros [H _]. inversion_clear H as [|? ? H1 _]. discriminate H1.
  - intros [_ H]. inversion_clear H as [|? ? H1 _]. discriminate H1.
Qed.

Ltac entry_qty :=
  let q0 := fresh "q0" in
  let H := fresh "H" in
  intros q0 H; simpl in H; injection H as <-; vm_compute;
  first [reflexivity | discriminate].

Ltac entry_texts :=
  let p0 := fresh "p0" in
  let q0 := fresh "q0" in
  let H0 := fresh "H" in
  let H1 := fresh "H" in
  intros p0 q0 H0 H1; simpl in H0, H1; injection H0 as <-; injection H1 as <-;
  split; reflexivity.

Lemma book_positive_preserved_witness :
  let m := set_bids [(100, 2)] (init 0) in
  (book_positive m /\
   blocks_inputs finite_input
     (books_data [level_entry "100" "0"] [level_entry "101" "3"]) /\
   blocks_nonneg (books_data [level_entry "100" "0"] [level_entry "101" "3"]) /\
   book_positive
     (fst (apply_books (books_data [level_entry "100" "0"] [level_entry "101" "3"]) 1 m))) /\
  (snapshot_inputs finite_input
     (snapshot_reply [level_entry "99.5" "5"] [level_entry "100.5" "1"]) /\
   snapshot_positive (snapshot_reply [level_entry "99.5" "5"] [level_entry "100.5" "1"]) /\
   book_positive
     (init_snapshot (snapshot_reply [level_entry "99.5" "5"] [level_entry "100.5" "1"]) m)) /\
  (unique_keys [(100, 2)] /\ finite_input (PStr "100") /\ finite_input (PStr "0") /\
   dict_lookup (D (PStr "100")) (apply_levels [level_entry "100" "0"] [(100, 2)]) = None) /\
  (D (PStr "-1") < 0 /\
   dict_lookup (D (PStr "101")) (apply_levels [level_entry "101" "-1"] [(100, 2)])
   = Some (D (PStr "-1"))).
Proof.
  cbv zeta.
  destruct book_positive_preserved as (Hdelta & Hsnap & Hzero & Hneg).
  assert (Hm : book_positive (set_bids [(100, 2)] (init 0))).
  { split; repeat constructor. }
  assert (Fb : blocks_inputs finite_input
                 (books_data [level_entry "100" "0"] [level_entry "101" "3"])).
  { constructor; [|constructor].
    split; intros v its Hv Hi; simpl in Hv; injection Hv as <-;
      simpl in Hi; injection Hi as <-; repeat (first [apply Forall_nil | apply Forall_cons]); entry_texts. }
  assert (Hb : blocks_nonneg (books_data [level_entry "100" "0"] [level_entry "101" "3"])).
  { constructor; [|constructor].
    split; intros v its Hv Hi; simpl in Hv; injection Hv as <-;
      simpl in Hi; injection Hi as <-; repeat constructor; entry_qty. }
  assert (Fs : snapshot_inputs finite_input
                 (snapshot_reply [level_entry "99.5" "5"] [level_entry "100.5" "1"])).
  { intros rb ra items Hf Hi. simpl in Hf. injection Hf as <- <-.
    destruct Hi as [Hi|Hi]; simpl in Hi; injection Hi as <-;
      repeat (first [apply Forall_nil | apply Forall_cons]); entry_texts. }
  assert (Hs : snapshot_positive
                 (snapshot_reply [level_entry "99.5" "5"] [level_entry "100.5" "1"])).
  { intros rb ra items Hf Hi. simpl in Hf. injection Hf as <- <-.
    destruct Hi as [Hi|Hi]; simpl in Hi; injection Hi as <-;
      repeat constructor; entry_qty. }
  assert (Hu : unique_keys [(100, 2)]) by (split; [reflexivity|exact I]).
  assert (T100 : finite_input (PStr "100")) by reflexivity.
  assert (T101 : finite_input (PStr "101")) by reflexivity.
  assert (T0 : finite_input (PStr "0")) by reflexivity.
  assert (Tm : finite_input (PStr "-1")) by reflexivity.
  assert (Nm : D (PStr "-1") < 0) by reflexivity.
  split; [|split; [|split]].
  - split; [exact Hm|]. split; [exact Fb|]. split; [exact Hb|]. apply Hdelta; assumption.
  - split; [exact Fs|]. split; [exact Hs|]. apply Hsnap; [|assumption|assumption].
    eexists _, _. reflexivity.
  - split; [exact Hu|]. split; [exact T100|]. split; [exact T0|].
    apply (Hzero (level_entry "100" "0") (PStr "100") (PStr "0") [(100, 2)] Hu
             eq_refl eq_refl T100 T0); reflexivity.
  - split; [exact Nm|].
    apply (Hneg (level_entry "101" "-1") (PStr "101") (PStr "-1") [(100, 2)]
             eq_refl eq_refl T101 Tm Nm).
Defined.

End BookExamples.

(** ** The reconnect delay *)

Section Backoff.

Local Open Scope Q_scope.

Lemma next_backoff_bounds (b : Q) :
  1 <= b <= 10 -> 1 <= next_backoff b <= 10 /\ b <= next_backoff b.
Proof.
  intros [H1 H2]. unfold next_backoff.
  destruct (ltb (b * 1.5) 10) eqn:E.
  - apply ltb_lt in E. lra.
  - lra.
Qed.

Lemma delay_after_bounds (k : nat) : 1 <= delay_after k <= 10.
Proof.
  induction k as [|k IH]; simpl; [lra|].
  apply next_backoff_bounds, IH.
Qed.

Lemma ws_loop_delays (passes : list pass) :
  forall k,
    backoff_delays (ws_loop passes (delay_after k))
    = map delay_after
        (seq k (List.length (backoff_delays (ws_loop passes (delay_after k))))).
Proof.
  induction passes as [|e rest IH]; intro k; simpl; [reflexivity|].
  destruct (stop_at_top e); [reflexivity|].
  destruct (result e); (destruct (stop_after e); [reflexivity|]); simpl.
  - f_equal. apply (IH (S k)).
  - apply IH.
Qed.

(** From the sixth failure on the delay is the cap.  The delays before it are
    1, 1.5, 2.25, 3.375, 5.0625 and 7.59375: binary fractions with few digits,
    on which the product by 1.5 of Python's floats is exact. *)
Lemma delay_after_values :
  map delay_after (seq 0 6)
  = [1; 1 * 1.5; 1 * 1.5 * 1.5; 1 * 1.5 * 1.5 * 1.5; 1 * 1.5 * 1.5 * 1.5 * 1.5;
     1 * 1.5 * 1.5 * 1.5 * 1.5 * 1.5] /\
  forall k, delay_after (6 + k) = 10.
Proof.
  split; [reflexivity|].
  induction k as [|k IH]; [reflexivity|].
  rewrite Nat.add_succ_r.
  change (delay_after (S (6 + k))) with (next_backoff (delay_after (6 + k))).
  rewrite IH. reflexivity.
Qed.

(** C5, as the code has it.  The delay of the first failure is 1; each
    failure multiplies the delay by 1.5, up to the cap of 10; a plain return
    of the connection sleeps the fixed pause 0.5 and leaves the delay as it
    is, so the delay is never reset while the loop runs: the k-th failure of a
    run sleeps [delay_after k] whatever returns lie between the failures.
    The delays are non-decreasing and at most 10, and three failures in a row
    sleep 1, 1.5 and 2.25. *)
Theorem backoff_grows_and_is_never_reset :
  (forall passes,
      backoff_delays (_ws_runloop passes)
      = map delay_after (seq 0 (List.length (backoff_delays (_ws_runloop passes))))) /\
  (forall k,
      delay_after 0 = 1 /\
      delay_after (S k)
        = (if ltb (delay_after k * 1.5) 10 then delay_after k * 1.5 else 10) /\
      delay_after k <= delay_after (S k) /\ delay_after k <= 10) /\
  (forall rest b,
      ws_loop (clean_close :: rest) b = CleanPause 0.5 :: ws_loop rest b) /\
  _ws_runloop [failure; failure; failure] = [Backoff 1; Backoff 1.5; Backoff 2.25].
Proof.
  split; [|split; [|split]].
  - intro passes. apply (ws_loop_delays passes 0).
  - intro k. split; [reflexivity|]. split; [reflexivity|].
    pose proof (delay_after_bounds k) as B.
    destruct (next_backoff_bounds (delay_after k) B) as [_ M].
    split; [exact M|apply B].
  - reflexivity.
  - reflexivity.
Qed.

(** C5 fails as stated: a failure, then a connection that returns, then a
    failure again: the second failure sleeps 1.5, not the initial delay. *)
Lemma backoff_not_reset_after_clean_period :
  _ws_runloop [failure; clean_close; failure]
    = [Backoff 1; CleanPause 0.5; Backoff 1.5] /\
  ~ 1.5 == 1.
Proof.
  split; [reflexivity|discriminate].
Qed.

End Backoff.

(** ** The arithmetic of the context *)

Section Context.

Local Open Scope Q_scope.

Lemma ten_ge_2 : (2 <= 10)%Z.
Proof. lia. Qed.

Lemma two_ge_2 : (2 <= 2)%Z.
Proof. lia. Qed.

Lemma PREC_ge_1 : (1 <= PREC)%Z.
Proof. unfold PREC. lia. Qed.

Lemma float_prec_ge_1 : (1 <= 53)%Z.
Proof. lia. Qed.

Variable r : rounding.

Lemma fix_ok (x y : Q) : _fix r x = Ok y -> y = context_round r x.
Proof.
  unfold _fix. destruct (Qeq_bool _ 0); [intro H; injection H as <-; reflexivity|].
  destruct (_ <? _)%Z; [discriminate|]. intro H; injection H as <-. reflexivity.
Qed.

Lemma fix_raise (x : Q) (e : exn) : _fix r x = Raise e -> e = Overflow.
Proof.
  unfold _fix. destruct (Qeq_bool _ 0); [discriminate|].
  destruct (_ <? _)%Z; [|discriminate]. intro H; injection H as <-. reflexivity.
Qed.

Lemma context_round_le (x y : Q) : x <= y -> context_round r x <= context_round r y.
Proof. apply (round_to_le 10 PREC ETINY r ten_ge_2 PREC_ge_1). Qed.

Lemma context_round_fixed (x : Q) : representable x -> context_round r x == x.
Proof. apply (round_to_fixed 10 PREC ETINY r ten_ge_2 PREC_ge_1). Qed.

Lemma context_round_representable (x : Q) : representable (context_round r x).
Proof. apply (round_to_on_grid 10 PREC ETINY r ten_ge_2 PREC_ge_1). Qed.

Lemma context_round_nonneg (x : Q) : 0 <= x -> 0 <= context_round r x.
Proof. apply (round_to_nonneg 10 PREC ETINY r ten_ge_2). Qed.

Lemma context_round_nonpos (x : Q) : x <= 0 -> context_round r x <= 0.
Proof. apply (round_to_nonpos 10 PREC ETINY r ten_ge_2). Qed.

Lemma context_round_0 (x : Q) : x == 0 -> context_round r x == 0.
Proof. apply (round_to_0 10 PREC ETINY r). Qed.

Lemma context_round_compat (x y : Q) : x == y -> context_round r x == context_round r y.
Proof. apply (round_to_compat 10 PREC ETINY r ten_ge_2). Qed.

Lemma representable_Z (z : Z) : (Z.abs z < 10 ^ PREC)%Z -> representable (inject_Z z).
Proof.
  intro H. exists z, 0%Z. split; [unfold ETINY; lia|]. split; [exact H|].
  change (inject_Z 10 ^ 0) with 1. ring.
Qed.

Lemma representable_0 : representable 0.
Proof. apply (representable_Z 0). reflexivity. Qed.

Lemma representable_1 : representable 1.
Proof. apply (representable_Z 1). reflexivity. Qed.

Lemma representable_100 : representable 100.
Proof. apply (representable_Z 100). reflexivity. Qed.

Lemma float_round_le (x y : Q) : x <= y -> float_round x <= float_round y.
Proof. apply (round_to_le 2 53 (-1074) ROUND_HALF_EVEN two_ge_2 float_prec_ge_1). Qed.

Lemma float_round_Z (z : Z) : (Z.abs z < 2 ^ 53)%Z -> float_round (inject_Z z) == inject_Z z.
Proof.
  intro H. apply (round_to_fixed 2 53 (-1074) ROUND_HALF_EVEN two_ge_2 float_prec_ge_1).
  exists z, 0%Z. split; [lia|]. split; [exact H|].
  change (inject_Z 2 ^ 0) with 1. ring.
Qed.

(** Below 1 the last digit kept lies at or below the 28th decimal, and the
    last bit kept at or below the 53rd. *)
Lemma adjusted_le_0 (b : Z) (x : Q) : (2 <= b)%Z -> 0 < x -> x <= 1 -> (adjusted b x <= 0)%Z.
Proof.
  intros Hb Hx H1. destruct (adjusted_spec b Hb x Hx) as [L _].
  destruct (Z.le_gt_cases (adjusted b x) 0) as [C|C]; [exact C|].
  exfalso. pose proof (Bpow_le b Hb 1 (adjusted b x) ltac:(lia)) as K.
  change (inject_Z b ^ 1) with (inject_Z b) in K.
  pose proof (B_gt_1 b Hb). lra.
Qed.

Lemma context_round_error_unit (x : Q) :
  0 <= x -> x <= 1 -> Qabs (context_round r x - x) <= (1 # 2) * inject_Z 10 ^ (-27).
Proof.
  intros H0 H1. destruct (Qle_lt_or_eq 0 x H0) as [P|E].
  - apply Qle_trans with ((1 # 2) * inject_Z 10 ^ expo 10 PREC ETINY x).
    + apply (round_to_error_pos 10 PREC ETINY r ten_ge_2 x P).
    + apply Qmult_le_l; [reflexivity|]. apply (Bpow_le 10 ten_ge_2).
      pose proof (adjusted_le_0 10 x ten_ge_2 P H1). unfold expo, PREC, ETINY. lia.
  - assert (Z0 : context_round r x - x == 0).
    { rewrite (context_round_0 x) by (symmetry; exact E). rewrite <- E. ring. }
    rewrite Z0. discriminate.
Qed.

Lemma float_round_error_unit (x : Q) :
  0 <= x -> x <= 1 -> Qabs (float_round x - x) <= (1 # 2) * inject_Z 2 ^ (-52).
Proof.
  intros H0 H1. destruct (Qle_lt_or_eq 0 x H0) as [P|E].
  - apply Qle_trans with ((1 # 2) * inject_Z 2 ^ expo 2 53 (-1074) x).
    + apply (round_to_error_pos 2 53 (-1074) ROUND_HALF_EVEN two_ge_2 x P).
    + apply Qmult_le_l; [reflexivity|]. apply (Bpow_le 2 two_ge_2).
      pose proof (adjusted_le_0 2 x two_ge_2 P H1). unfold expo. lia.
  - assert (Z0 : float_round x - x == 0).
    { unfold float_round. rewrite (round_to_0 2 53 (-1074) ROUND_HALF_EVEN x)
        by (symmetry; exact E). rewrite <- E. ring. }
    rewrite Z0. discriminate.
Qed.

(** The sum of two Decimals is rounded with a relative error of at most half
    a unit of the 28th digit. *)
Lemma context_round_sum_error (x y : Q) :
  representable x -> representable y -> 0 < x + y ->
  Qabs (context_round r (x + y) - (x + y))
    <= (1 # 2) * inject_Z 10 ^ (-27) * context_round r (x + y).
Proof. apply (round_to_sum_error 10 PREC ETINY r ten_ge_2 PREC_ge_1). Qed.

(** [float] of a Decimal between 0 and 1 is a double between 0 and 1. *)
Lemma to_float_unit (q : Q) :
  0 <= q -> q <= 1 ->
  to_float q = Float (float_round q) /\ 0 <= float_round q <= 1.
Proof.
  intros H0 H1.
  assert (B0 : 0 <= float_round q).
  { apply (round_to_nonneg 2 53 (-1074) ROUND_HALF_EVEN two_ge_2). exact H0. }
  assert (B1 : float_round q <= 1).
  { rewrite <- (float_round_Z 1) by reflexivity. apply float_round_le. exact H1. }
  split; [|split; assumption].
  unfold to_float. destruct (Qeq_bool (float_round q) 0) eqn:E; [reflexivity|].
  assert (P : 0 < float_round q).
  { destruct (Qle_lt_or_eq _ _ B0) as [P|Z0]; [exact P|].
    symmetry in Z0. apply Qeq_bool_iff in Z0. rewrite Z0 in E. discriminate E. }
  assert (Ea : Qabs (float_round q) == float_round q) by (apply Qabs_pos; exact B0).
  assert (A : (adjusted 2 (Qabs (float_round q)) <= 0)%Z).
  { apply adjusted_le_0; [lia|lra|lra]. }
  destruct (Z.leb_spec 1024 (adjusted 2 (Qabs (float_round q)))) as [C|_]; [lia|reflexivity].
Qed.

(** A sum of numbers that are not negative is not negative, and needs no
    further rounding. *)
Lemma dec_sum_raise (xs : list Decimal) (e : exn) :
  fold_left (fun acc x => a <- acc ;; add r a x) xs (Raise e) = Raise e.
Proof. induction xs as [|x rest IH]; simpl; [reflexivity|exact IH]. Qed.

Lemma dec_sum_fold (xs : list Decimal) :
  Forall (fun x => 0 <= x) xs ->
  forall a t,
    0 <= a -> representable a ->
    fold_left (fun acc x => a <- acc ;; add r a x) xs (Ok a) = Ok t ->
    0 <= t /\ representable t.
Proof.
  induction 1 as [|x rest Hx _ IH]; intros a t Ha Ra E; simpl in E.
  - injection E as <-. split; assumption.
  - unfold add at 2 in E. destruct (_fix r (a + x)) as [y|e] eqn:F.
    + apply fix_ok in F. subst y. apply (IH (context_round r (a + x)) t); [| |exact E].
      * apply context_round_nonneg. lra.
      * apply context_round_representable.
    + simpl in E. rewrite dec_sum_raise in E. discriminate E.
Qed.

Lemma dec_sum_nonneg (xs : list Decimal) (t : Decimal) :
  Forall (fun x => 0 <= x) xs -> dec_sum r xs = Ok t -> 0 <= t /\ representable t.
Proof.
  intros H E. apply (dec_sum_fold xs H 0 t); [lra|exact representable_0|exact E].
Qed.

Lemma dec_sum_exn (xs : list Decimal) :
  forall acc e,
    (forall e', acc = Raise e' -> e' = Overflow) ->
    fold_left (fun acc x => a <- acc ;; add r a x) xs acc = Raise e -> e = Overflow.
Proof.
  induction xs as [|x rest IH]; intros acc e Hacc E; simpl in E.
  - apply Hacc. exact E.
  - apply (IH _ e) in E; [exact E|].
    intros e' E'. destruct acc as [a|e0]; simpl in E'.
    + apply fix_raise in E'. exact E'.
    + injection E' as <-. apply Hacc. reflexivity.
Qed.

End Context.

(** ** Metrics of the full book *)

Section Metrics.

Local Open Scope Q_scope.

Lemma fold_sum_nonneg (xs : list Q) :
  Forall (fun x => 0 <= x) xs -> forall acc, 0 <= acc -> 0 <= fold_left Qplus xs acc.
Proof.
  induction 1 as [|x rest Hx _ IH]; intros acc Hacc; simpl; [exact Hacc|].
  apply IH. lra.
Qed.

Lemma py_sum_nonneg (d : side) : all_nonneg d -> 0 <= py_sum (map snd d).
Proof.
  intro H. apply fold_sum_nonneg; [|lra].
  apply Forall_map. exact H.
Qed.

Lemma fold_max_spec (xs : list Q) :
  forall best,
    let r := fold_left (fun b y => if ltb b y then y else b) xs best in
    In r (best :: xs) /\ best <= r /\ Forall (fun y => y <= r) xs.
Proof.
  induction xs as [|x rest IH]; intro best; simpl.
  - split; [left; reflexivity|]. split; [lra|constructor].
  - destruct (ltb best x) eqn:E.
    + apply ltb_lt in E.
      destruct (IH x) as (Hin & Hle & Hall). cbv zeta in *.
      split; [right; exact Hin|]. split; [lra|]. constructor; assumption.
    + apply ltb_ge in E.
      destruct (IH best) as (Hin & Hle & Hall). cbv zeta in *.
      split; [destruct Hin as [Hin|Hin]; [left; exact Hin|right; right; exact Hin]|].
      split; [exact Hle|]. constructor; [lra|exact Hall].
Qed.

Lemma fold_min_spec (xs : list Q) :
  forall best,
    let r := fold_left (fun b y => if ltb y b then y else b) xs best in
    In r (best :: xs) /\ r <= best /\ Forall (fun y => r <= y) xs.
Proof.
  induction xs as [|x rest IH]; intro best; simpl.
  - split; [left; reflexivity|]. split; [lra|constructor].
  - destruct (ltb x best) eqn:E.
    + apply ltb_lt in E.
      destruct (IH x) as (Hin & Hle & Hall). cbv zeta in *.
      split; [right; exact Hin|]. split; [lra|]. constructor; assumption.
    + apply ltb_ge in E.
      destruct (IH best) as (Hin & Hle & Hall). cbv zeta in *.
      split; [destruct Hin as [Hin|Hin]; [left; exact Hin|right; right; exact Hin]|].
      split; [exact Hle|]. constructor; [lra|exact Hall].
Qed.

Lemma py_max_spec (x : Q) (xs : list Q) :
  In (py_max x xs) (x :: xs) /\ Forall (fun y => y <= py_max x xs) (x :: xs).
Proof.
  destruct (fold_max_spec xs x) as (Hin & Hle & Hall).
  split; [exact Hin|constructor; assumption].
Qed.

Lemma py_min_spec (x : Q) (xs : list Q) :
  In (py_min x xs) (x :: xs) /\ Forall (fun y => py_min x xs <= y) (x :: xs).
Proof.
  destruct (fold_min_spec xs x) as (Hin & Hle & Hall).
  split; [exact Hin|constructor; assumption].
Qed.


(** What [get_metrics] has computed when it returns. *)
Lemma get_metrics_ok (r : rounding) (now : Q) (m : BitgetManager.t) (mt : metrics) :
  get_metrics r now m = Ok mt ->
  best_bid mt = match map fst (bids m) with [] => 0 | p :: ps => py_max p ps end /\
  best_ask mt = match map fst (asks m) with [] => 0 | p :: ps => py_min p ps end /\
  (if (ltb 0 (best_bid mt) && ltb 0 (best_ask mt))%bool
   then spread mt = context_round r (best_ask mt - best_bid mt) /\
        spread_pct mt = context_round r (context_round r (spread mt / best_ask mt) * 100)
   else spread mt = 0 /\ spread_pct mt = 0) /\
  exists tb ts total,
    dec_sum r (map snd (bids m)) = Ok tb /\
    dec_sum r (map snd (asks m)) = Ok ts /\
    add r tb ts = Ok total /\
    (if ltb 0 total
     then exists q, truediv r tb total = Ok q /\ imbalance mt = to_float q
     else imbalance mt = Float 0.5).
Proof.
  unfold get_metrics.
  set (bb := match map fst (bids m) with [] => 0 | p :: ps => py_max p ps end).
  set (ba := match map fst (asks m) with [] => 0 | p :: ps => py_min p ps end).
  intro H.
  destruct (if (ltb 0 bb && ltb 0 ba)%bool then _ else _) as [[sp pct]|e] eqn:Esp;
    [|discriminate H].
  cbn [bind] in H.
  destruct (dec_sum r (map snd (bids m))) as [tb|e] eqn:Etb; [|discriminate H].
  destruct (dec_sum r (map snd (asks m))) as [ts|e] eqn:Ets; [|discriminate H].
  cbn [bind] in H.
  destruct (add r tb ts) as [total|e] eqn:Et; [|discriminate H].
  cbn [bind] in H.
  destruct (if ltb 0 total then _ else _) as [imb|e] eqn:Ei; [|discriminate H].
  cbn [bind fst snd] in H. injection H as <-. cbn [best_bid best_ask spread spread_pct imbalance].
  split; [reflexivity|]. split; [reflexivity|]. split.
  - destruct (ltb 0 bb && ltb 0 ba)%bool.
    + unfold sub, truediv, mul in Esp.
      destruct (_fix r (ba - bb)) as [d|e] eqn:E1; [|discriminate Esp].
      cbn [bind] in Esp.
      destruct (_fix r (d / ba)) as [q|e] eqn:E2; [|discriminate Esp].
      cbn [bind] in Esp.
      destruct (_fix r (q * 100)) as [p|e] eqn:E3; [|discriminate Esp].
      cbn [bind] in Esp. injection Esp as <- <-.
      apply fix_ok in E1, E2, E3. subst d q p. split; reflexivity.
    + injection Esp as <- <-. split; reflexivity.
  - exists tb, ts, total. split; [reflexivity|]. split; [reflexivity|]. split; [exact Et|].
    destruct (ltb 0 total).
    + destruct (truediv r tb total) as [q|e] eqn:Eq; [|discriminate Ei].
      cbn [bind] in Ei. injection Ei as <-. exists q. split; reflexivity.
    + injection Ei as <-. reflexivity.
Qed.

(** [get_metrics] raises nothing but [Overflow]. *)
Lemma get_metrics_raise (r : rounding) (now : Q) (m : BitgetManager.t) (e : exn) :
  get_metrics r now m = Raise e -> e = Overflow.
Proof.
  unfold get_metrics.
  set (bb := match map fst (bids m) with [] => 0 | p :: ps => py_max p ps end).
  set (ba := match map fst (asks m) with [] => 0 | p :: ps => py_min p ps end).
  intro H.
  destruct (if (ltb 0 bb && ltb 0 ba)%bool then _ else _) as [[sp pct]|e1] eqn:Esp.
  2:{ cbn [bind] in H. injection H as <-.
      destruct (ltb 0 bb && ltb 0 ba)%bool; [|discriminate Esp].
      unfold sub, truediv, mul in Esp.
      destruct (_fix r (ba - bb)) as [d|e] eqn:E1;
        [|cbn [bind] in Esp; injection Esp as <-; apply (fix_raise r _ _ E1)].
      cbn [bind] in Esp.
      destruct (_fix r (d / ba)) as [q|e] eqn:E2;
        [|cbn [bind] in Esp; injection Esp as <-; apply (fix_raise r _ _ E2)].
      cbn [bind] in Esp.
      destruct (_fix r (q * 100)) as [p|e] eqn:E3;
        [discriminate Esp|cbn [bind] in Esp; injection Esp as <-; apply (fix_raise r _ _ E3)]. }
  cbn [bind] in H.
  destruct (dec_sum r (map snd (bids m))) as [tb|e1] eqn:Etb.
  2:{ cbn [bind] in H. injection H as <-.
      apply (dec_sum_exn r (map snd (bids m)) (Ok 0) e1); [discriminate|exact Etb]. }
  destruct (dec_sum r (map snd (asks m))) as [ts|e1] eqn:Ets.
  2:{ cbn [bind] in H. injection H as <-.
      apply (dec_sum_exn r (map snd (asks m)) (Ok 0) e1); [discriminate|exact Ets]. }
  cbn [bind] in H.
  destruct (add r tb ts) as [total|e1] eqn:Et.
  2:{ cbn [bind] in H. injection H as <-. apply (fix_raise r _ _ Et). }
  cbn [bind] in H.
  destruct (ltb 0 total).
  - destruct (truediv r tb total) as [q|e1] eqn:Eq; [discriminate H|].
    cbn [bind] in H. injection H as <-. apply (fix_raise r _ _ Eq).
  - discriminate H.
Qed.

(** The imbalance of a book without negative quantities, next to the exact
    quotient of the sums. *)
Lemma imbalance_near (r : rounding) (now : Q) (m : BitgetManager.t) (mt : metrics) :
  all_nonneg (bids m) -> all_nonneg (asks m) ->
  get_metrics r now m = Ok mt ->
  exists tb ts v,
    dec_sum r (map snd (bids m)) = Ok tb /\
    dec_sum r (map snd (asks m)) = Ok ts /\
    (0 <= tb /\ representable tb) /\ (0 <= ts /\ representable ts) /\
    imbalance mt = Float v /\
    (0 < context_round r (tb + ts) ->
       Qabs (v - tb / context_round r (tb + ts))
         <= (1 # 2) * inject_Z 2 ^ (-52) + (1 # 2) * inject_Z 10 ^ (-27)) /\
    (~ 0 < context_round r (tb + ts) -> v = 0.5).
Proof.
  intros Hb Ha H.
  destruct (get_metrics_ok r now m mt H) as (_ & _ & _ & tb & ts & total & Etb & Ets & Et & Hi).
  assert (Fb : Forall (fun x => 0 <= x) (map snd (bids m))) by (apply Forall_map; exact Hb).
  assert (Fa : Forall (fun x => 0 <= x) (map snd (asks m))) by (apply Forall_map; exact Ha).
  destruct (dec_sum_nonneg r _ tb Fb Etb) as [Pb Rb].
  destruct (dec_sum_nonneg r _ ts Fa Ets) as [Pa Ra].
  unfold add in Et. apply fix_ok in Et. subst total.
  set (total := context_round r (tb + ts)) in *.
  assert (Le : tb <= total).
  { unfold total. rewrite <- (context_round_fixed r tb Rb) at 1. apply context_round_le. lra. }
  exists tb, ts.
  destruct (ltb 0 total) eqn:E.
  - apply ltb_lt in E. destruct Hi as (q & Eq & Hi).
    unfold truediv in Eq. apply fix_ok in Eq.
    assert (X0 : 0 <= tb / total) by (apply Qle_shift_div_l; [exact E|lra]).
    assert (X1 : tb / total <= 1) by (apply Qle_shift_div_r; [exact E|lra]).
    assert (Q0 : 0 <= q) by (rewrite Eq; apply context_round_nonneg; exact X0).
    assert (Q1 : q <= 1).
    { rewrite Eq, <- (context_round_fixed r 1 representable_1). apply context_round_le.
      exact X1. }
    destruct (to_float_unit q Q0 Q1) as [Ef _].
    exists (float_round q). split; [exact Etb|]. split; [exact Ets|].
    split; [split; assumption|]. split; [split; assumption|].
    split; [rewrite Hi; exact Ef|]. split; [|intro C; contradiction].
    intros _. fold total.
    pose proof (float_round_error_unit q Q0 Q1) as F1.
    pose proof (context_round_error_unit r (tb / total) X0 X1) as F2.
    rewrite <- Eq in F2.
    assert (P2 : inject_Z 2 ^ (-52) == 1 # 4503599627370496) by reflexivity.
    assert (P10 : inject_Z 10 ^ (-27) == 1 # 1000000000000000000000000000) by reflexivity.
    rewrite P2 in F1 |- *. rewrite P10 in F2 |- *.
    apply Qabs_Qle_condition in F1. apply Qabs_Qle_condition in F2.
    apply Qabs_Qle_condition. split; lra.
  - exists 0.5. split; [exact Etb|]. split; [exact Ets|].
    split; [split; assumption|]. split; [split; assumption|].
    split; [exact Hi|]. split; [|reflexivity].
    intro C. fold total in C. apply ltb_lt in C. congruence.
Qed.

(** C6, as the code has it.  When [get_metrics] returns for a book whose
    stored quantities are all non-negative, the imbalance is a float in
    [0, 1].  With [tb] and [ts] the totals of the two sides as the context
    adds them, it is [tb / (tb + ts)], sum and quotient rounded to 28
    significant digits and the quotient then to the nearest double, when the
    rounded sum is greater than 0, which keeps it within 2^-52 of the exact
    quotient by the rounded sum; it is 0.5 otherwise, in particular when
    both sides are empty. *)
Theorem imbalance_of_nonnegative_book :
  forall (r : rounding) (now : Q) (m : BitgetManager.t) (mt : metrics),
    all_nonneg (bids m) -> all_nonneg (asks m) ->
    get_metrics r now m = Ok mt ->
    exists tb ts total v,
      dec_sum r (map snd (bids m)) = Ok tb /\
      dec_sum r (map snd (asks m)) = Ok ts /\
      add r tb ts = Ok total /\
      imbalance mt = Float v /\
      0 <= v <= 1 /\
      (0 < total ->
         (exists q, truediv r tb total = Ok q /\ to_float q = Float v) /\
         Qabs (v - tb / total) <= inject_Z 2 ^ (-52)) /\
      (~ 0 < total -> v = 0.5) /\
      (bids m = [] -> asks m = [] -> v = 0.5).
Proof.
  intros r now m mt Hb Ha H.
  destruct (get_metrics_ok r now m mt H) as (_ & _ & _ & tb & ts & total & Etb & Ets & Et & Hi).
  assert (Fb : Forall (fun x => 0 <= x) (map snd (bids m))) by (apply Forall_map; exact Hb).
  assert (Fa : Forall (fun x => 0 <= x) (map snd (asks m))) by (apply Forall_map; exact Ha).
  destruct (dec_sum_nonneg r _ tb Fb Etb) as [Pb Rb].
  destruct (dec_sum_nonneg r _ ts Fa Ets) as [Pa _].
  pose proof Et as Et'. unfold add in Et'. apply fix_ok in Et'.
  assert (Le : tb <= total).
  { rewrite Et', <- (context_round_fixed r tb Rb) at 1. apply context_round_le. lra. }
  exists tb, ts, total.
  destruct (ltb 0 total) eqn:E.
  - apply ltb_lt in E. destruct Hi as (q & Eq & Hi).
    pose proof Eq as Eq'. unfold truediv in Eq'. apply fix_ok in Eq'.
    assert (X0 : 0 <= tb / total) by (apply Qle_shift_div_l; [exact E|lra]).
    assert (X1 : tb / total <= 1) by (apply Qle_shift_div_r; [exact E|lra]).
    assert (Q0 : 0 <= q) by (rewrite Eq'; apply context_round_nonneg; exact X0).
    assert (Q1 : q <= 1).
    { rewrite Eq', <- (context_round_fixed r 1 representable_1). apply context_round_le.
      exact X1. }
    destruct (to_float_unit q Q0 Q1) as [Ef Bf].
    exists (float_round q). split; [exact Etb|]. split; [exact Ets|]. split; [exact Et|].
    split; [rewrite Hi; exact Ef|]. split; [exact Bf|].
    split; [|split].
    + intros _. split; [exists q; split; [exact Eq|exact Ef]|].
      pose proof (float_round_error_unit q Q0 Q1) as F1.
      pose proof (context_round_error_unit r (tb / total) X0 X1) as F2.
      rewrite <- Eq' in F2.
      assert (P2 : inject_Z 2 ^ (-52) == 1 # 4503599627370496) by reflexivity.
      assert (P10 : inject_Z 10 ^ (-27) == 1 # 1000000000000000000000000000) by reflexivity.
      rewrite P2 in *. rewrite P10 in F2.
      apply Qabs_Qle_condition in F1. apply Qabs_Qle_condition in F2.
      apply Qabs_Qle_condition. split; lra.
    + intro C. contradiction.
    + intros E1 E2. exfalso. rewrite E1 in Etb. rewrite E2 in Ets.
      injection Etb as <-. injection Ets as <-. rewrite Et' in E. discriminate E.
  - exists 0.5. split; [exact Etb|]. split; [exact Ets|]. split; [exact Et|].
    split; [exact Hi|]. split; [split; discriminate|].
    split; [|split; reflexivity].
    intro C. apply ltb_lt in C. congruence.
Qed.

(** C6 fails as stated: the imbalance of a book with a negative quantity is
    3/2, and the imbalance of the quantities 1 and 2 is a double, not 1/3. *)
Lemma imbalance_above_one :
  (bids skewed_book = [(100, 3)] /\ asks skewed_book = [(101, -1)] /\
   exists mt v,
     get_metrics ROUND_HALF_UP 1 skewed_book = Ok mt /\ imbalance mt = Float v /\
     v == 3 # 2 /\ ~ v <= 1) /\
  (exists mt v,
     get_metrics ROUND_HALF_UP 1 (set_asks [(101, 2)] (set_bids [(100, 1)] (init 0))) = Ok mt /\
     imbalance mt = Float v /\
     v == 6004799503160661 # 18014398509481984 /\ ~ v == 1 / (1 + 2)).
Proof.
  split.
  - split; [reflexivity|]. split; [reflexivity|].
    eexists. eexists. split; [vm_compute; reflexivity|].
    split; [reflexivity|]. split; [reflexivity|].
    intro H. vm_compute in H. apply H. reflexivity.
  - eexists. eexists. split; [vm_compute; reflexivity|].
    split; [reflexivity|]. split; [reflexivity|].
    intro H. vm_compute in H. discriminate H.
Qed.

Lemma imbalance_of_nonnegative_book_witness :
  let m := set_asks [(101, 1)] (set_bids [(100, 3)] (init 0)) in
  all_nonneg (bids m) /\ all_nonneg (asks m) /\
  exists mt,
    get_metrics ROUND_HALF_UP 1 m = Ok mt /\
    exists tb ts total v,
      dec_sum ROUND_HALF_UP (map snd (bids m)) = Ok tb /\
      dec_sum ROUND_HALF_UP (map snd (asks m)) = Ok ts /\
      add ROUND_HALF_UP tb ts = Ok total /\
      imbalance mt = Float v /\
      0 <= v <= 1 /\
      (0 < total ->
         (exists q, truediv ROUND_HALF_UP tb total = Ok q /\ to_float q = Float v) /\
         Qabs (v - tb / total) <= inject_Z 2 ^ (-52)) /\
      (~ 0 < total -> v = 0.5) /\
      (bids m = [] -> asks m = [] -> v = 0.5).
Proof.
  cbv zeta.
  assert (Hb : all_nonneg (bids (set_asks [(101, 1)] (set_bids [(100, 3)] (init 0))))).
  { repeat constructor. simpl. discriminate. }
  assert (Ha : all_nonneg (asks (set_asks [(101, 1)] (set_bids [(100, 3)] (init 0))))).
  { repeat constructor. simpl. discriminate. }
  split; [exact Hb|]. split; [exact Ha|].
  destruct (get_metrics ROUND_HALF_UP 1 (set_asks [(101, 1)] (set_bids [(100, 3)] (init 0))))
    as [mt|e] eqn:E; [|vm_compute in E; discriminate E].
  exists mt. split; [reflexivity|].
  exact (imbalance_of_nonnegative_book ROUND_HALF_UP 1 _ mt Hb Ha E).
Defined.

(** C7, as the code has it.  [get_metrics] raises nothing but [Overflow],
    and when it returns: the best bid is the greatest bid price and the best
    ask the least ask price, each 0 on an empty side; the spread is best ask
    minus best bid, rounded by the context, when both best prices are
    greater than 0, and 0 otherwise, so it is 0 whenever a side is empty; the
    spread percent is the spread divided by the best ask, times 100, quotient
    and product rounded by the context, whenever the best ask is greater than
    0; and neither is negative when the best bid is at most the best ask. *)
Theorem metrics_best_prices_and_spread :
  forall (r : rounding) (now : Q) (m : BitgetManager.t),
    (forall e, get_metrics r now m = Raise e -> e = Overflow) /\
    (forall mt, get_metrics r now m = Ok mt ->
       (bids m = [] -> best_bid mt = 0) /\
       (bids m <> [] ->
          In (best_bid mt) (map fst (bids m)) /\
          Forall (fun p => p <= best_bid mt) (map fst (bids m))) /\
       (asks m = [] -> best_ask mt = 0) /\
       (asks m <> [] ->
          In (best_ask mt) (map fst (asks m)) /\
          Forall (fun p => best_ask mt <= p) (map fst (asks m))) /\
       (0 < best_bid mt -> 0 < best_ask mt ->
          spread mt = context_round r (best_ask mt - best_bid mt)) /\
       (~ (0 < best_bid mt /\ 0 < best_ask mt) -> spread mt = 0) /\
       (bids m = [] \/ asks m = [] -> spread mt = 0) /\
       (0 < best_ask mt ->
          spread_pct mt
          == context_round r (context_round r (spread mt / best_ask mt) * 100)) /\
       (best_bid mt <= best_ask mt -> 0 <= spread mt /\ 0 <= spread_pct mt)).
Proof.
  intros r now m. split; [intros e H; exact (get_metrics_raise r now m e H)|].
  intros mt H.
  destruct (get_metrics_ok r now m mt H) as (Hbb & Hba & Hsp & _).
  assert (Hempty_b : bids m = [] -> best_bid mt = 0).
  { intro E. rewrite Hbb, E. reflexivity. }
  assert (Hempty_a : asks m = [] -> best_ask mt = 0).
  { intro E. rewrite Hba, E. reflexivity. }
  assert (Hno : ~ (0 < best_bid mt /\ 0 < best_ask mt) -> spread mt = 0 /\ spread_pct mt = 0).
  { intro C.
    destruct (ltb 0 (best_bid mt)) eqn:E1; [|exact Hsp].
    destruct (ltb 0 (best_ask mt)) eqn:E2; [|exact Hsp].
    exfalso. apply C. split; apply ltb_lt; assumption. }
  split; [exact Hempty_b|].
  split.
  { intro Hne. rewrite Hbb.
    destruct (bids m) as [|[p q] rest]; [contradiction|]. simpl map.
    apply py_max_spec. }
  split; [exact Hempty_a|].
  split.
  { intro Hne. rewrite Hba.
    destruct (asks m) as [|[p q] rest]; [contradiction|]. simpl map.
    apply py_min_spec. }
  split.
  { intros H1 H2. apply ltb_lt in H1. apply ltb_lt in H2. rewrite H1, H2 in Hsp.
    apply Hsp. }
  split; [intro C; apply (Hno C)|].
  split.
  { intros [E|E]; apply Hno; intros [H1 H2].
    - rewrite (Hempty_b E) in H1. discriminate H1.
    - rewrite (Hempty_a E) in H2. discriminate H2. }
  split.
  { intro Pa.
    destruct (ltb 0 (best_bid mt) && ltb 0 (best_ask mt))%bool.
    - destruct Hsp as [_ ->]. reflexivity.
    - destruct Hsp as [-> ->].
      assert (Z1 : context_round r (0 / best_ask mt) * 100 == 0).
      { rewrite (context_round_0 r (0 / best_ask mt)); [ring|]. field. lra. }
      rewrite (context_round_0 r _ Z1). reflexivity. }
  intro Le.
  destruct (ltb 0 (best_bid mt) && ltb 0 (best_ask mt))%bool eqn:E.
  - apply andb_true_iff in E. destruct E as [E1 E2]. apply ltb_lt in E1, E2.
    destruct Hsp as [Es Ep].
    assert (S0 : 0 <= spread mt) by (rewrite Es; apply context_round_nonneg; lra).
    split; [exact S0|]. rewrite Ep. apply context_round_nonneg.
    apply Qmult_le_0_compat; [|discriminate]. apply context_round_nonneg.
    apply Qle_shift_div_l; [exact E2|lra].
  - destruct Hsp as [-> ->]. split; apply Qle_refl.
Qed.

(** C7 fails as stated: both sides of the first book are present, best ask
    minus best bid is 5, and the spread reported is 0; and the spread percent
    of the second book has 28 digits, which 100/201 has not. *)
Lemma spread_zero_with_both_sides_present :
  (bids zero_bid_book = [(0, 1)] /\ asks zero_bid_book = [(5, 1)] /\
   exists mt,
     get_metrics ROUND_HALF_UP 1 zero_bid_book = Ok mt /\
     best_bid mt = 0 /\ best_ask mt = 5 /\ spread mt = 0 /\
     ~ spread mt == best_ask mt - best_bid mt) /\
  (exists mt,
     get_metrics ROUND_HALF_UP 1
       (set_asks [(101, 1); (100.5, 3)] (set_bids [(99.5, 5); (100, 2)] (init 0))) = Ok mt /\
     spread mt == 0.5 /\ best_ask mt == 100.5 /\
     spread_pct mt == 0.4975124378109452736318407960 /\
     ~ spread_pct mt == spread mt / best_ask mt * 100).
Proof.
  split.
  - split; [reflexivity|]. split; [reflexivity|].
    eexists. split; [vm_compute; reflexivity|].
    repeat (split; [reflexivity|]). intro H. vm_compute in H. discriminate H.
  - eexists. split; [vm_compute; reflexivity|].
    repeat (split; [reflexivity|]). intro H. vm_compute in H. discriminate H.
Qed.

Lemma metrics_best_prices_and_spread_witness :
  let m := set_asks [(101, 1); (100.5, 3)] (set_bids [(99.5, 5); (100, 2)] (init 0)) in
  exists mt,
    get_metrics ROUND_HALF_UP 1 m = Ok mt /\
    (bids m <> [] /\ asks m <> [] /\ 0 < best_bid mt /\ 0 < best_ask mt /\
     best_bid mt <= best_ask mt) /\
    Forall (fun p => p <= best_bid mt) (map fst (bids m)) /\
    Forall (fun p => best_ask mt <= p) (map fst (asks m)) /\
    spread mt = context_round ROUND_HALF_UP (best_ask mt - best_bid mt) /\
    spread_pct mt
    == context_round ROUND_HALF_UP
         (context_round ROUND_HALF_UP (spread mt / best_ask mt) * 100) /\
    0 <= spread mt /\ 0 <= spread_pct mt.
Proof.
  cbv zeta.
  set (m := set_asks [(101, 1); (100.5, 3)] (set_bids [(99.5, 5); (100, 2)] (init 0))).
  destruct (get_metrics ROUND_HALF_UP 1 m) as [mt|e] eqn:E; [|vm_compute in E; discriminate E].
  exists mt. split; [reflexivity|].
  destruct (metrics_best_prices_and_spread ROUND_HALF_UP 1 m) as [_ K].
  destruct (K mt E) as (_ & Hb & _ & Ha & Hs & _ & _ & Hp & Hn).
  assert (Nb : bids m <> []) by discriminate.
  assert (Na : asks m <> []) by discriminate.
  assert (V : mt = match get_metrics ROUND_HALF_UP 1 m with Ok x => x | Raise _ => mt end)
    by (rewrite E; reflexivity).
  assert (Pb : 0 < best_bid mt) by (rewrite V; vm_compute; reflexivity).
  assert (Pa : 0 < best_ask mt) by (rewrite V; vm_compute; reflexivity).
  assert (Le : best_bid mt <= best_ask mt) by (rewrite V; vm_compute; discriminate).
  split; [repeat split; assumption|].
  split; [apply (Hb Nb)|]. split; [apply (Ha Na)|].
  split; [apply (Hs Pb Pa)|]. split; [apply (Hp Pa)|]. apply (Hn Le).
Defined.

End Metrics.

(** ** Selection by quantity *)

Section Selection.

Local Open Scope Q_scope.

Lemma insert_desc_perm (x : level) (l : list level) :
  Permutation (insert_desc x l) (x :: l).
Proof.
  induction l as [|y rest IH]; simpl; [apply Permutation_refl|].
  destruct (ltb (snd x) (snd y)); [|apply Permutation_refl].
  apply perm_trans with (y :: x :: rest); [apply perm_skip, IH|apply perm_swap].
Qed.

Lemma sorted_desc_perm (d : side) : Permutation (sorted_desc d) d.
Proof.
  induction d as [|x rest IH]; simpl; [apply perm_nil|].
  apply perm_trans with (x :: sorted_desc rest);
    [apply insert_desc_perm|apply perm_skip, IH].
Qed.

Lemma insert_desc_sorted (x : level) (l : list level) :
  StronglySorted outranks l -> StronglySorted outranks (insert_desc x l).
Proof.
  induction 1 as [|y rest Hs IH Hy]; simpl.
  - constructor; constructor.
  - destruct (ltb (snd x) (snd y)) eqn:E.
    + apply ltb_lt in E. constructor; [exact IH|].
      apply (Permutation_Forall (Permutation_sym (insert_desc_perm x rest))).
      constructor; [unfold outranks; lra|exact Hy].
    + apply ltb_ge in E. constructor; [constructor; assumption|].
      constructor; [exact E|].
      apply (Forall_impl (outranks x) (P := outranks y)); [|exact Hy].
      intros u Hu. unfold outranks in *. lra.
Qed.

Lemma sorted_desc_sorted (d : side) : StronglySorted outranks (sorted_desc d).
Proof.
  induction d as [|x rest IH]; simpl; [constructor|].
  apply insert_desc_sorted, IH.
Qed.

Lemma sorted_app_outranks (l1 l2 : list level) :
  StronglySorted outranks (l1 ++ l2)%list ->
  forall r u, In r l1 -> In u l2 -> outranks r u.
Proof.
  induction l1 as [|a rest IH]; simpl; intros Hs r u Hr Hu; [contradiction|].
  apply StronglySorted_inv in Hs. destruct Hs as [Hs Ha].
  destruct Hr as [<-|Hr].
  - rewrite Forall_forall in Ha. apply Ha, in_or_app. right; exact Hu.
  - apply (IH Hs r u Hr Hu).
Qed.

Lemma slice_split (n : Z) (l : list level) :
  (slice_to n l ++ slice_from n l)%list = l.
Proof.
  unfold slice_to, slice_from. destruct (0 <=? n)%Z; apply firstn_skipn.
Qed.

Lemma top_by_qty_selects (n : Z) (d : side) :
  selects d (top_by_qty n d) (rest_by_qty n d).
Proof.
  unfold selects, top_by_qty, rest_by_qty. split.
  - rewrite slice_split. apply sorted_desc_perm.
  - intros r u Hr Hu.
    apply (sorted_app_outranks (slice_to n (sorted_desc d)) (slice_from n (sorted_desc d)));
      [rewrite slice_split; apply sorted_desc_sorted|exact Hr|exact Hu].
Qed.

Lemma top_by_qty_length (n : Z) (d : side) :
  (0 <= n)%Z -> (Z.of_nat (List.length (top_by_qty n d)) <= n)%Z.
Proof.
  intro H. unfold top_by_qty, slice_to.
  destruct (Z.leb_spec 0 n) as [_|C]; [|lia].
  pose proof (firstn_le_length (Z.to_nat n) (sorted_desc d)). lia.
Qed.

Lemma build_dataframe_tops (r : rounding) (n : Z) (m : BitgetManager.t) :
  top_asks (build_dataframe r n m) = top_by_qty n (asks m) /\
  top_bids (build_dataframe r n m) = top_by_qty n (bids m).
Proof.
  unfold build_dataframe.
  destruct (if negb _ then _ else _) as [na nb]. split; reflexivity.
Qed.

(** C8.  The selection of [build_dataframe] on either side and that of
    [get_support_resistance] on either side are selections by quantity: no
    row of the side that is left out has a greater quantity than a row that
    is returned; and for a row count [N] each has at most [N] rows. *)
Theorem top_rows_bounded_and_dominant :
  forall (r : rounding) (N : Z) (m : BitgetManager.t),
    let f := build_dataframe r N m in
    let sr := get_support_resistance N m in
    (selects (asks m) (top_asks f) (rest_by_qty N (asks m)) /\
     selects (bids m) (top_bids f) (rest_by_qty N (bids m)) /\
     selects (bids m) (fst sr) (rest_by_qty N (bids m)) /\
     selects (asks m) (snd sr) (rest_by_qty N (asks m))) /\
    ((0 <= N)%Z ->
     (Z.of_nat (List.length (top_asks f)) <= N)%Z /\
     (Z.of_nat (List.length (top_bids f)) <= N)%Z /\
     (Z.of_nat (List.length (fst sr)) <= N)%Z /\
     (Z.of_nat (List.length (snd sr)) <= N)%Z).
Proof.
  intros r N m f sr.
  destruct (build_dataframe_tops r N m) as [Ea Eb].
  subst f sr. rewrite Ea, Eb. simpl fst; simpl snd.
  split.
  - split; [|split; [|split]]; apply top_by_qty_selects.
  - intro HN. split; [|split; [|split]]; apply top_by_qty_length; exact HN.
Qed.

Lemma top_rows_bounded_and_dominant_witness :
  let m := set_asks [(100.5, 1); (101, 3); (102, 2)]
             (set_bids [(100, 2); (99.5, 5); (99, 2)] (init 0)) in
  (0 <= 2)%Z /\
  top_bids (build_dataframe ROUND_HALF_EVEN 2 m) = [(99.5, 5); (100, 2)] /\
  rest_by_qty 2 (bids m) = [(99, 2)] /\
  (Z.of_nat (List.length (top_bids (build_dataframe ROUND_HALF_EVEN 2 m))) <= 2)%Z /\
  selects (bids m) (top_bids (build_dataframe ROUND_HALF_EVEN 2 m)) (rest_by_qty 2 (bids m)).
Proof.
  cbv zeta.
  assert (H : (0 <= 2)%Z) by lia.
  split; [exact H|]. split; [reflexivity|]. split; [reflexivity|].
  destruct (top_rows_bounded_and_dominant ROUND_HALF_EVEN 2
              (set_asks [(100.5, 1); (101, 3); (102, 2)]
                 (set_bids [(100, 2); (99.5, 5); (99, 2)] (init 0))))
    as ((_ & Hs & _) & Hl).
  destruct (Hl H) as (_ & Hb & _).
  split; [exact Hb|exact Hs].
Defined.

End Selection.

(** ** The row nearest to the current price *)

Section Nearest.

Local Open Scope Q_scope.

Variable r : rounding.

Lemma distances_length (cur : Decimal) (top : list level) :
  forall ds, distances r cur top = Ok ds -> List.length ds = List.length top.
Proof.
  induction top as [|[p q] rest IH]; intros ds H; simpl in H.
  - injection H as <-. reflexivity.
  - destruct (distance r cur p) as [d|e]; [|discriminate H]. cbn [bind] in H.
    destruct (distances r cur rest) as [ds'|e]; [|discriminate H]. cbn [bind] in H.
    injection H as <-. simpl. rewrite (IH ds' eq_refl). reflexivity.
Qed.

Lemma scan_spec (cur : Decimal) (rows : list level) :
  forall (pre ds : list Q) (bi : nat) (bd : Q),
    distances r cur rows = Ok ds ->
    (bi < List.length (pre ++ ds))%nat ->
    nth bi (pre ++ ds)%list 0 = bd ->
    (forall j, (j < List.length pre)%nat -> bd <= nth j (pre ++ ds)%list 0) ->
    (forall j, (j < bi)%nat -> bd < nth j (pre ++ ds)%list 0) ->
    exists i, scan r cur rows (List.length pre) bi bd = Ok i /\
              first_least (pre ++ ds)%list i.
Proof.
  induction rows as [|[p q] rest IH]; intros pre ds bi bd Hd Hbi Hbd Hmin Hfirst.
  - simpl in Hd. injection Hd as <-. simpl. exists bi. split; [reflexivity|].
    split; [exact Hbi|]. rewrite Hbd.
    split; [|exact Hfirst]. intros j Hj. apply Hmin. rewrite app_nil_r in Hj. exact Hj.
  - cbn [distances] in Hd. cbn [scan].
    destruct (distance r cur p) as [d|e]; [|discriminate Hd]. cbn [bind] in Hd |- *.
    destruct (distances r cur rest) as [ds'|e] eqn:Er; [|discriminate Hd]. cbn [bind] in Hd.
    injection Hd as <-.
    assert (Eall : (pre ++ d :: ds')%list = ((pre ++ [d]) ++ ds')%list).
    { rewrite <- app_assoc. reflexivity. }
    assert (Elen : List.length (pre ++ [d])%list = S (List.length pre))
      by apply last_length.
    assert (Ed : nth (List.length pre) (pre ++ d :: ds')%list 0 = d) by apply nth_middle.
    destruct (ltb d bd) eqn:E.
    + apply ltb_lt in E.
      rewrite <- Elen. rewrite Eall.
      apply (IH (pre ++ [d])%list ds' (List.length pre) d eq_refl); rewrite <- Eall.
      * rewrite length_app. simpl. lia.
      * exact Ed.
      * intros j Hj. rewrite Elen in Hj.
        destruct (Nat.eq_dec j (List.length pre)) as [->|Hne].
        -- rewrite Ed. lra.
        -- assert (Hj' : (j < List.length pre)%nat) by lia.
           specialize (Hmin j Hj'). lra.
      * intros j Hj. specialize (Hmin j Hj). lra.
    + apply ltb_ge in E.
      rewrite <- Elen. rewrite Eall.
      apply (IH (pre ++ [d])%list ds' bi bd eq_refl); rewrite <- Eall.
      * exact Hbi.
      * exact Hbd.
      * intros j Hj. rewrite Elen in Hj.
        destruct (Nat.eq_dec j (List.length pre)) as [->|Hne].
        -- rewrite Ed. exact E.
        -- apply Hmin. lia.
      * exact Hfirst.
Qed.

Lemma scan_raise (cur : Decimal) (rows : list level) (e : exn) :
  distances r cur rows = Raise e ->
  forall i bi bd, scan r cur rows i bi bd = Raise e.
Proof.
  induction rows as [|[p q] rest IH]; intros H i bi bd; simpl in H; [discriminate H|].
  cbn [scan]. destruct (distance r cur p) as [d|e0]; [|cbn [bind] in H |- *; injection H as ->; reflexivity].
  cbn [bind] in H |- *.
  destruct (distances r cur rest) as [ds'|e1]; [discriminate H|]. cbn [bind] in H.
  injection H as ->. destruct (ltb d bd); apply IH; reflexivity.
Qed.

Lemma nearest_spec (cur : Decimal) (top : list level) (ds : list Q) :
  distances r cur top = Ok ds -> top <> [] ->
  exists i, nearest r cur top = Ok (Some i) /\ first_least ds i.
Proof.
  intros H Hne. destruct top as [|[p0 q0] rest]; [contradiction|].
  unfold nearest. pose proof H as H'. cbn [distances] in H'.
  destruct (distance r cur p0) as [d0|e]; [|discriminate H']. cbn [bind] in H' |- *.
  destruct (distances r cur rest) as [ds'|e]; [|discriminate H']. cbn [bind] in H'.
  injection H' as <-.
  destruct (scan_spec cur ((p0, q0) :: rest) [] (d0 :: ds') 0 d0 H) as (i & Ei & Fi).
  - simpl. lia.
  - reflexivity.
  - intros j Hj. simpl in Hj. lia.
  - intros j Hj. lia.
  - exists i. split; [|exact Fi].
    exact (f_equal (fun x => j <- x ;; Ok (Some j)) Ei).
Qed.

Lemma nearest_raise (cur : Decimal) (top : list level) (e : exn) :
  distances r cur top = Raise e -> nearest r cur top = Raise e.
Proof.
  intro H. destruct top as [|[p0 q0] rest]; [discriminate H|].
  unfold nearest. pose proof H as H'. cbn [distances] in H'.
  destruct (distance r cur p0) as [d0|e0]; [|cbn [bind] in H' |- *; injection H' as ->; reflexivity]. cbn [bind].
  rewrite (scan_raise cur _ e H). reflexivity.
Qed.

Lemma nearest_in_range (cur : Decimal) (top : list level) (k : nat) :
  nearest r cur top = Ok (Some k) -> (k < List.length top)%nat.
Proof.
  intro H. destruct top as [|x rest]; [discriminate H|].
  destruct (distances r cur (x :: rest)) as [ds|e] eqn:E.
  - destruct (nearest_spec cur (x :: rest) ds E) as (i & Ei & Fi); [discriminate|].
    rewrite H in Ei. injection Ei as <-.
    rewrite <- (distances_length cur _ ds E). apply Fi.
  - rewrite (nearest_raise cur _ e E) in H. discriminate H.
Qed.





Lemma first_index_in_range (top : list level) (k : nat) :
  first_index top = Some k -> (k < List.length top)%nat.
Proof.
  destruct top; [discriminate|]. intro H; injection H as <-. simpl. lia.
Qed.

Lemma marks_in_range (n : Z) (m : BitgetManager.t) :
  (forall k, nearest_ask_idx (build_dataframe r n m) = Some k ->
             (k < List.length (top_asks (build_dataframe r n m)))%nat) /\
  (forall k, nearest_bid_idx (build_dataframe r n m) = Some k ->
             (k < List.length (top_bids (build_dataframe r n m)))%nat).
Proof.
  unfold build_dataframe.
  set (ta := top_by_qty n (asks m)). set (tb := top_by_qty n (bids m)).
  assert (Hnone : forall k : nat, @None nat = Some k -> forall l : list level,
                    (k < List.length l)%nat) by (intros k H; discriminate H).
  destruct (negb _); [|simpl; split; intros k H; discriminate H].
  destruct (read _) as [[cur|[neg| |]]|]; cbn [top_asks top_bids nearest_ask_idx nearest_bid_idx];
    try (split; intros k H; discriminate H).
  - destruct (nearest r cur ta) as [a|e] eqn:Ea; cbn [bind];
      [|cbn; split; intros k H; discriminate H].
    destruct (nearest r cur tb) as [b|e] eqn:Eb; cbn [bind];
      [|cbn; split; intros k H; discriminate H].
    cbn. split; intros k H; subst; [apply (nearest_in_range cur ta k Ea)
                                   |apply (nearest_in_range cur tb k Eb)].
  - cbn. split; intros k H; apply first_index_in_range; exact H.
Qed.

Lemma rows_nth (n : Z) (m : BitgetManager.t) (i : nat) (a b : option cell) :
  nth_error (rows (build_dataframe r n m)) i = Some (a, b) ->
  a = cell_at (top_asks (build_dataframe r n m)) (nearest_ask_idx (build_dataframe r n m)) i /\
  b = cell_at (top_bids (build_dataframe r n m)) (nearest_bid_idx (build_dataframe r n m)) i.
Proof.
  unfold build_dataframe.
  destruct (if negb _ then _ else _) as [na nb]. simpl.
  rewrite nth_error_map, nth_error_seq.
  destruct (i <? _)%nat; simpl; [|discriminate].
  intro H; injection H as <- <-. split; reflexivity.
Qed.



End Nearest.

Section NearestExamples.

Local Open Scope Q_scope.



End NearestExamples.

(** ** Deltas, entry by entry *)

Section Delta.

Local Open Scope Q_scope.




Lemma apply_levels_app (a b : list pyval) :
  forall d, apply_levels (a ++ b)%list d = apply_levels b (apply_levels a d).
Proof.
  induction a as [|it rest IH]; intro d; simpl; [reflexivity|].
  destruct (index it 0) as [p0|e]; [|apply IH].
  destruct (index it 1) as [q0|e]; [|apply IH].
  apply IH.
Qed.



Lemma malformed_skipped (it : pyval) (rest : list pyval) (d : side) :
  malformed it -> apply_levels (it :: rest) d = apply_levels rest d.
Proof.
  intros [[e H]|[e H]]; simpl.
  - rewrite H. reflexivity.
  - destruct (index it 0); [rewrite H|]; reflexivity.
Qed.

Lemma malformed_shape (it : pyval) :
  malformed it <->
  match it with
  | PList l => (List.length l < 2)%nat
  | PStr s => (String.length s < 2)%nat
  | _ => True
  end.
Proof.
  unfold malformed. destruct it as [| b | z | s | l | kvs]; simpl;
    try (split; [intros _; exact I|intros _; left; eexists; reflexivity]).
  - destruct s as [|c1 [|c2 s']]; simpl.
    + split; [intros _; lia|intros _; left; eexists; reflexivity].
    + split; [intros _; lia|intros _; right; eexists; reflexivity].
    + split; [|intro H; lia].
      intros [[e H]|[e H]]; discriminate H.
  - destruct l as [|x [|y l']]; simpl.
    + split; [intros _; lia|intros _; left; eexists; reflexivity].
    + split; [intros _; lia|intros _; right; eexists; reflexivity].
    + split; [|intro H; lia].
      intros [[e H]|[e H]]; discriminate H.
Qed.

(** X2.  An update entry that is not a list or a string of at least two
    elements is skipped by the delta loop: the batch has the effect it has
    without that entry, whatever stands before and after it. *)
Theorem malformed_update_is_skipped :
  forall (a b : list pyval) (it : pyval) (d : side),
    match it with
    | PList l => (List.length l < 2)%nat
    | PStr s => (String.length s < 2)%nat
    | _ => True
    end ->
    apply_levels (a ++ it :: b)%list d = apply_levels (a ++ b)%list d.
Proof.
  intros a b it d H. apply malformed_shape in H.
  rewrite !apply_levels_app. apply malformed_skipped, H.
Qed.

Lemma malformed_update_is_skipped_witness :
  apply_levels [level_entry "100" "4"; PList [PStr "101"]; level_entry "102" "1"] []
  = apply_levels [level_entry "100" "4"; level_entry "102" "1"] [].
Proof.
  apply (malformed_update_is_skipped [level_entry "100" "4"] [level_entry "102" "1"]
           (PList [PStr "101"]) []).
  simpl. lia.
Defined.

Lemma apply_blocks_time (blocks : list pyval) :
  forall m, last_update_time (fst (apply_blocks blocks m)) = last_update_time m.
Proof.
  induction blocks as [|block rest IH]; intro m; simpl; [reflexivity|].
  destruct (isinstance_dict block); simpl; [|apply IH].
  destruct (apply_side "bids" block (bids m)) as [b|e]; [|reflexivity].
  destruct (apply_side "asks" block _) as [a|e]; [|reflexivity].
  rewrite IH. reflexivity.
Qed.

Lemma apply_side_outcome (key : string) (block : pyval) (d : side) :
  isinstance_dict block = true ->
  (iterable_at key block /\ exists d', apply_side key block d = Ok d') \/
  (~ iterable_at key block /\ apply_side key block d = Raise TypeError).
Proof.
  intro Hd. destruct block; try discriminate Hd.
  unfold apply_side, iterable_at. simpl.
  set (v := match assoc key kvs with Some x => x | None => PList [] end).
  destruct (iter v) as [its|e] eqn:E.
  - left. split; [exists v, its; split; [reflexivity|exact E]|eexists; reflexivity].
  - right. split.
    + intros (v' & its & Hv & Hi). injection Hv as <-. congruence.
    + destruct v; simpl in E; try discriminate E; injection E as <-; reflexivity.
Qed.

Lemma apply_blocks_outcome (blocks : list pyval) :
  forall m,
    (blocks_iterable blocks /\ snd (apply_blocks blocks m) = None) \/
    (~ blocks_iterable blocks /\ snd (apply_blocks blocks m) = Some TypeError).
Proof.
  induction blocks as [|block rest IH]; intro m; simpl.
  - left. split; [constructor|reflexivity].
  - destruct (isinstance_dict block) eqn:Hd; simpl.
    + destruct (apply_side_outcome "bids" block (bids m) Hd) as [[Ib [b Eb]]|[Nb Eb]].
      * rewrite Eb.
        destruct (apply_side_outcome "asks" block (asks (set_bids b m)) Hd)
          as [[Ia [a Ea]]|[Na Ea]]; simpl in Ea; rewrite Ea.
        -- destruct (IH (set_asks a (set_bids b m))) as [[Hr Hs]|[Hr Hs]].
           ++ left. split; [constructor; [intros _; split; assumption|exact Hr]|exact Hs].
           ++ right. split; [|exact Hs].
              intro H. inversion_clear H as [|? ? _ H']. contradiction.
        -- right. split; [|reflexivity].
           intro H. inversion_clear H as [|? ? H' _]. apply Na, (H' Hd).
      * rewrite Eb. right. split; [|reflexivity].
        intro H. inversion_clear H as [|? ? H' _]. apply Nb, (H' Hd).
    + destruct (IH m) as [[Hr Hs]|[Hr Hs]].
      * left. split; [constructor; [intro C; rewrite Hd in C; discriminate C|exact Hr]|exact Hs].
      * right. split; [|exact Hs].
        intro H. inversion_clear H as [|? ? _ H']. contradiction.
Qed.

(** X3.  Over a batch none of whose prices and quantities [Decimal] reads
    as a signaling NaN: [apply_books] ends without an exception exactly when
    the [bids] and the [asks] of every dict among the blocks can be looped
    over, and then it sets the time of the last update to the clock reading;
    otherwise it raises a [TypeError] and leaves the time of the last update
    as it was. *)
Theorem apply_books_stamps_complete_batches :
  forall (blocks : list pyval) (now : Q) (m : BitgetManager.t),
    blocks_inputs quiet_input blocks ->
    (blocks_iterable blocks ->
       snd (apply_books blocks now m) = None /\
       last_update_time (fst (apply_books blocks now m)) = now) /\
    (~ blocks_iterable blocks ->
       snd (apply_books blocks now m) = Some TypeError /\
       last_update_time (fst (apply_books blocks now m)) = last_update_time m).
Proof.
  intros blocks now m _. unfold apply_books.
  pose proof (apply_blocks_time blocks m) as T.
  destruct (apply_blocks_outcome blocks m) as [[Hr Hs]|[Hr Hs]];
    destruct (apply_blocks blocks m) as [m' [e|]]; simpl in *;
    try discriminate Hs.
  - split; [intros _; split; reflexivity|intro C; contradiction].
  - injection Hs as ->. split; [intro C; contradiction|intros _; split; [reflexivity|exact T]].
Qed.

Lemma apply_books_stamps_complete_batches_witness :
  let good := books_data [level_entry "100" "2"] [] in
  let bad := [PDict [("bids"%string, PNone)]] in
  (blocks_inputs quiet_input good /\ blocks_iterable good /\
   snd (apply_books good 7 (init 0)) = None /\
   last_update_time (fst (apply_books good 7 (init 0))) = 7) /\
  (blocks_inputs quiet_input bad /\ ~ blocks_iterable bad /\
   snd (apply_books bad 7 (init 0)) = Some TypeError /\
   last_update_time (fst (apply_books bad 7 (init 0))) = 0).
Proof.
  cbv zeta.
  assert (Qg : blocks_inputs quiet_input (books_data [level_entry "100" "2"] [])).
  { constructor; [|constructor].
    split; intros v its Hv Hi; simpl in Hv; injection Hv as <-;
      simpl in Hi; injection Hi as <-;
      repeat (first [apply Forall_nil | apply Forall_cons]).
    intros p0 q0 H0 H1. simpl in H0, H1. injection H0 as <-. injection H1 as <-.
    split; reflexivity. }
  assert (Qb : blocks_inputs quiet_input [PDict [("bids"%string, PNone)]]).
  { constructor; [|constructor].
    split; intros v its Hv Hi; simpl in Hv; injection Hv as <-;
      simpl in Hi; [discriminate Hi|injection Hi as <-; constructor]. }
  assert (G : blocks_iterable (books_data [level_entry "100" "2"] [])).
  { constructor; [|constructor]. intros _.
    split; eexists _, _; split; reflexivity. }
  assert (B : ~ blocks_iterable [PDict [("bids"%string, PNone)]]).
  { intro H. inversion_clear H as [|? ? H' _].
    destruct (H' eq_refl) as [(v & its & Hv & Hi) _].
    simpl in Hv. injection Hv as <-. discriminate Hi. }
  split.
  - split; [exact Qg|]. split; [exact G|].
    apply (apply_books_stamps_complete_batches
             (books_data [level_entry "100" "2"] []) 7 (init 0) Qg), G.
  - split; [exact Qb|]. split; [exact B|].
    apply (apply_books_stamps_complete_batches
             [PDict [("bids"%string, PNone)]] 7 (init 0) Qb), B.
Defined.

End Delta.

(** ** The bootstrap snapshot, entry by entry *)

Section Snapshot.

Local Open Scope Q_scope.

Lemma replace_snapshot_prior (rb ra : pyval) (m m' : BitgetManager.t) :
  bids (replace_snapshot rb ra m) = bids (replace_snapshot rb ra m') /\
  asks (replace_snapshot rb ra m) = asks (replace_snapshot rb ra m').
Proof.
  unfold replace_snapshot. simpl bids.
  destruct (iter rb) as [items|e]; [|split; reflexivity].
  destruct (load_levels items []) as [b [e|]]; [split; reflexivity|].
  destruct (iter ra) as [items'|e]; split; reflexivity.
Qed.

Lemma replace_snapshot_twice (rb ra : pyval) (m : BitgetManager.t) :
  replace_snapshot rb ra (replace_snapshot rb ra m) = replace_snapshot rb ra m.
Proof.
  unfold replace_snapshot. simpl bids.
  destruct (iter rb) as [items|e]; [|reflexivity].
  destruct (load_levels items []) as [b [e|]]; [reflexivity|].
  destruct (iter ra) as [items'|e]; reflexivity.
Qed.

(** X4.  A bootstrap whose order book request is read replaces the book: the
    two sides it leaves do not depend on the book before it; and running the
    order book part of the bootstrap twice on the same reply is the same as
    running it once. *)
Theorem snapshot_replaces_the_book :
  forall (r : http) (m m' : BitgetManager.t),
    ((exists rb ra, fetch_orderbook r = Ok (rb, ra)) ->
       bids (init_snapshot r m) = bids (init_snapshot r m') /\
       asks (init_snapshot r m) = asks (init_snapshot r m')) /\
    init_snapshot r (init_snapshot r m) = init_snapshot r m.
Proof.
  intros r m m'. unfold init_snapshot. split.
  - intros (rb & ra & E). rewrite E. apply replace_snapshot_prior.
  - destruct (fetch_orderbook r) as [[rb ra]|e]; [|reflexivity].
    apply replace_snapshot_twice.
Qed.

Lemma snapshot_replaces_the_book_witness :
  let r := snapshot_reply [level_entry "99.5" "5"] [level_entry "100.5" "1"] in
  (exists rb ra, fetch_orderbook r = Ok (rb, ra)) /\
  bids (init_snapshot r after_a_run) = bids (init_snapshot r (init 0)) /\
  asks (init_snapshot r after_a_run) = asks (init_snapshot r (init 0)).
Proof.
  cbv zeta.
  assert (E : exists rb ra,
             fetch_orderbook
               (snapshot_reply [level_entry "99.5" "5"] [level_entry "100.5" "1"])
             = Ok (rb, ra)) by (eexists _, _; reflexivity).
  split; [exact E|].
  apply (snapshot_replaces_the_book
           (snapshot_reply [level_entry "99.5" "5"] [level_entry "100.5" "1"])
           after_a_run (init 0)), E.
Defined.

Lemma fetch_snapshot_reply (bid_levels ask_levels : list pyval) :
  fetch_orderbook (snapshot_reply bid_levels ask_levels)
  = Ok (por (PList bid_levels) (PList []), por (PList ask_levels) (PList [])).
Proof. reflexivity. Qed.

Lemma iter_por_list (l : list pyval) : iter (por (PList l) (PList [])) = Ok l.
Proof. destruct l; reflexivity. Qed.

Lemma init_snapshot_reply (bid_levels ask_levels : list pyval) (m : BitgetManager.t) :
  init_snapshot (snapshot_reply bid_levels ask_levels) m
  = let '(b, e) := load_levels bid_levels [] in
    let m1 := set_bids b (_clear_books m) in
    match e with
    | Some _ => m1
    | None => set_asks (fst (load_levels ask_levels [])) m1
    end.
Proof.
  unfold init_snapshot. rewrite fetch_snapshot_reply.
  unfold replace_snapshot. rewrite !iter_por_list. reflexivity.
Qed.






Lemma load_levels_raising (item : pyval) (rest : list pyval) (d : side) :
  raising_entry item -> exists e, load_levels (item :: rest) d = (d, Some e).
Proof.
  destruct item as [| b | z | s | l | kvs]; simpl; try contradiction.
  - intros ->. eexists; reflexivity.
  - intro H. destruct (Z.eqb_spec z 0) as [E|_]; [contradiction|].
    eexists; reflexivity.
  - intro H. destruct kvs as [|kv1 [|kv2 kvs']]; simpl in H; try lia.
    eexists; reflexivity.
Qed.

Lemma load_levels_stops (a : list pyval) (bad : pyval) (b : list pyval) :
  raising_entry bad ->
  forall d,
    fst (load_levels (a ++ bad :: b)%list d) = fst (load_levels a d) /\
    snd (load_levels (a ++ bad :: b)%list d) <> None.
Proof.
  intro Hbad. induction a as [|item rest IH]; intro d.
  - destruct (load_levels_raising bad b d Hbad) as [e E].
    simpl app. rewrite E. split; [reflexivity|discriminate].
  - simpl.
    destruct (negb (truthy item)); [apply IH|].
    destruct (len item) as [n|e]; [|split; [reflexivity|discriminate]].
    destruct (n <? 2)%nat; [apply IH|].
    destruct (index item 0) as [p0|e]; [|split; [reflexivity|discriminate]].
    destruct (index item 1) as [q0|e]; [|split; [reflexivity|discriminate]].
    apply IH.
Qed.

(** X6.  The loading loop of the bootstrap stops at the first entry at which
    it raises: when the list of bids holds a non-zero number, [True], or a
    dict of two or more keys, the bid side holds what the entries before it
    give, the entries after it are not stored, and the ask side is left
    empty whatever the reply holds for it. *)
Theorem snapshot_stops_at_raising_entry :
  forall (a b ask_levels : list pyval) (bad : pyval) (m : BitgetManager.t),
    raising_entry bad ->
    let m' := init_snapshot (snapshot_reply (a ++ bad :: b) ask_levels) m in
    bids m' = fst (load_levels a []) /\ asks m' = [].
Proof.
  intros a b al bad m Hbad.
  destruct (load_levels_stops a bad b Hbad []) as [Hf Hs].
  cbv zeta. rewrite init_snapshot_reply.
  destruct (load_levels (a ++ bad :: b) []) as [bs [e|]]; simpl in *.
  - split; [exact Hf|reflexivity].
  - contradiction.
Qed.

Lemma snapshot_stops_at_raising_entry_witness :
  let m' := init_snapshot
              (snapshot_reply [level_entry "100" "2"; PInt 7; level_entry "99" "1"]
                              [level_entry "101" "3"]) after_a_run in
  raising_entry (PInt 7) /\ bids m' = [(100, 2)] /\ asks m' = [].
Proof.
  cbv zeta.
  assert (H : raising_entry (PInt 7)) by discriminate.
  split; [exact H|].
  apply (snapshot_stops_at_raising_entry [level_entry "100" "2"] [level_entry "99" "1"]
           [level_entry "101" "3"] (PInt 7) after_a_run H).
Defined.

End Snapshot.

(** ** The conversion [D] *)

Section Conversion.

Local Open Scope string_scope.

Lemma lstrip_snoc (xs : list ascii) (c : ascii) :
  is_space c = false -> exists ys, lstrip (xs ++ [c]) = (ys ++ [c])%list.
Proof.
  intro H. induction xs as [|x xs IH]; simpl.
  - rewrite H. exists []. reflexivity.
  - destruct (is_space x); [exact IH|]. exists (x :: xs). reflexivity.
Qed.

Lemma strip_head (c : ascii) (rest : string) :
  is_space c = false -> exists r, strip (String c rest) = String c r.
Proof.
  intro H. unfold strip. simpl list_ascii_of_string. simpl lstrip. rewrite H.
  simpl rev. destruct (lstrip_snoc (rev (list_ascii_of_string rest)) c H) as [ys E].
  rewrite E, rev_app_distr. simpl. eexists. reflexivity.
Qed.

Lemma of_string_bracket (rest : string) : of_string (String "[" rest) = None.
Proof.
  unfold of_string.
  destruct (strip_head "[" rest eq_refl) as [r ->]. reflexivity.
Qed.

Lemma of_string_brace (rest : string) : of_string (String "{" rest) = None.
Proof.
  unfold of_string.
  destruct (strip_head "{" rest eq_refl) as [r ->]. reflexivity.
Qed.

Lemma D_not_numeric (v : pyval) : not_numeric v -> D v = 0%Q.
Proof.
  destruct v as [| b | z | s | l | kvs]; simpl; try contradiction; intros _.
  - reflexivity.
  - destruct b; reflexivity.
  - unfold D. simpl str. rewrite of_string_bracket. destruct (str_raises _); reflexivity.
  - unfold D. simpl str. rewrite of_string_brace. destruct (str_raises _); reflexivity.
Qed.

(** X7.  [D] turns every value that is neither a string nor an integer
    ([None], a boolean, a list, a dict) into zero, and so every string of
    ASCII characters that [Decimal] reads neither as a number nor as a special
    value; an update with such a quantity, at a price read as a finite number
    or not at all, removes the price from the side instead of being
    skipped. *)
Theorem unreadable_quantity_removes_the_level :
  forall (it p0 q0 : pyval) (rest : list pyval) (d : side),
    index it 0 = Ok p0 -> index it 1 = Ok q0 ->
    finite_input p0 ->
    not_numeric q0 \/ (exists s, q0 = PStr s /\ ascii_only s = true /\ read s = None) ->
    D q0 = 0%Q /\
    apply_levels (it :: rest) d = apply_levels rest (dict_pop (D p0) d).
Proof.
  intros it p0 q0 rest d E0 E1 _ H.
  assert (Z0 : D q0 = 0%Q).
  { destruct H as [H|(s & -> & _ & H)]; [apply D_not_numeric, H|].
    unfold D. simpl str. unfold read in H.
    destruct (of_string s); [discriminate H|reflexivity]. }
  split; [exact Z0|]. simpl. rewrite E0, E1, Z0. reflexivity.
Qed.

Lemma unreadable_quantity_removes_the_level_witness :
  (finite_input (PStr "100") /\ not_numeric PNone /\
   apply_levels [PList [PStr "100"; PNone]] [(100, 2); (99, 1)]%Q = [(99, 1)]%Q) /\
  (ascii_only "n/a" = true /\ read "n/a" = None /\
   apply_levels [PList [PStr "100"; PStr "n/a"]] [(100, 2); (99, 1)]%Q = [(99, 1)]%Q).
Proof.
  assert (T : finite_input (PStr "100")) by reflexivity.
  split.
  - split; [exact T|]. split; [exact I|].
    apply (unreadable_quantity_removes_the_level
             (PList [PStr "100"; PNone]) (PStr "100") PNone [] [(100, 2); (99, 1)]%Q
             eq_refl eq_refl T (or_introl I)).
  - split; [reflexivity|]. split; [reflexivity|].
    apply (unreadable_quantity_removes_the_level
             (PList [PStr "100"; PStr "n/a"]) (PStr "100") (PStr "n/a") []
             [(100, 2); (99, 1)]%Q eq_refl eq_refl T).
    right. exists "n/a". split; [reflexivity|]. split; reflexivity.
Defined.

Lemma digits_digit (c : ascii) (v : Z) (rest : string) (acc : Z) (cnt : nat) :
  digit_of c = Some v ->
  digits (String c rest) acc cnt = digits rest (10 * acc + v)%Z (S cnt).
Proof. intro H. simpl. rewrite H. reflexivity. Qed.

Ltac digit_step IH c k :=
  rewrite (digits_digit c k _ _ _ eq_refl);
  match goal with
  | |- digits _ ?a _ = (Z.pos (Pos.of_uint_acc _ ?q), _, _) =>
      replace a with (Z.pos q) by lia
  end;
  rewrite IH; f_equal; f_equal; lia.

Lemma digits_uint (u : Decimal.uint) :
  forall (p : positive) (cnt : nat),
    digits (NilEmpty.string_of_uint u) (Z.pos p) cnt
    = (Z.pos (Pos.of_uint_acc u p), (cnt + Decimal.nb_digits u)%nat, "").
Proof.
  induction u as [|u IH|u IH|u IH|u IH|u IH|u IH|u IH|u IH|u IH|u IH];
    intros p cnt; cbn [NilEmpty.string_of_uint Pos.of_uint_acc Decimal.nb_digits].
  - simpl. rewrite Nat.add_0_r. reflexivity.
  - digit_step IH "0"%char 0%Z.
  - digit_step IH "1"%char 1%Z.
  - digit_step IH "2"%char 2%Z.
  - digit_step IH "3"%char 3%Z.
  - digit_step IH "4"%char 4%Z.
  - digit_step IH "5"%char 5%Z.
  - digit_step IH "6"%char 6%Z.
  - digit_step IH "7"%char 7%Z.
  - digit_step IH "8"%char 8%Z.
  - digit_step IH "9"%char 9%Z.
Qed.

Lemma digits_uint0 (u : Decimal.uint) :
  forall cnt,
    digits (NilEmpty.string_of_uint u) 0%Z cnt
    = (Z.of_uint u, (cnt + Decimal.nb_digits u)%nat, "").
Proof.
  induction u as [|u IH|u IH|u IH|u IH|u IH|u IH|u IH|u IH|u IH|u IH];
    intros cnt; cbn [NilEmpty.string_of_uint Decimal.nb_digits].
  - simpl. rewrite Nat.add_0_r. reflexivity.
  - rewrite (digits_digit "0"%char 0%Z _ _ _ eq_refl). simpl Z.add. rewrite IH.
    f_equal. f_equal. lia.
  - rewrite (digits_digit "1"%char 1%Z _ _ _ eq_refl). simpl Z.add. rewrite digits_uint.
    unfold Z.of_uint. simpl. f_equal. f_equal. lia.
  - rewrite (digits_digit "2"%char 2%Z _ _ _ eq_refl). simpl Z.add. rewrite digits_uint.
    unfold Z.of_uint. simpl. f_equal. f_equal. lia.
  - rewrite (digits_digit "3"%char 3%Z _ _ _ eq_refl). simpl Z.add. rewrite digits_uint.
    unfold Z.of_uint. simpl. f_equal. f_equal. lia.
  - rewrite (digits_digit "4"%char 4%Z _ _ _ eq_refl). simpl Z.add. rewrite digits_uint.
    unfold Z.of_uint. simpl. f_equal. f_equal. lia.
  - rewrite (digits_digit "5"%char 5%Z _ _ _ eq_refl). simpl Z.add. rewrite digits_uint.
    unfold Z.of_uint. simpl. f_equal. f_equal. lia.
  - rewrite (digits_digit "6"%char 6%Z _ _ _ eq_refl). simpl Z.add. rewrite digits_uint.
    unfold Z.of_uint. simpl. f_equal. f_equal. lia.
  - rewrite (digits_digit "7"%char 7%Z _ _ _ eq_refl). simpl Z.add. rewrite digits_uint.
    unfold Z.of_uint. simpl. f_equal. f_equal. lia.
  - rewrite (digits_digit "8"%char 8%Z _ _ _ eq_refl). simpl Z.add. rewrite digits_uint.
    unfold Z.of_uint. simpl. f_equal. f_equal. lia.
  - rewrite (digits_digit "9"%char 9%Z _ _ _ eq_refl). simpl Z.add. rewrite digits_uint.
    unfold Z.of_uint. simpl. f_equal. f_equal. lia.
Qed.

Lemma uint_chars_plain (u : Decimal.uint) :
  Forall plain (list_ascii_of_string (NilEmpty.string_of_uint u)).
Proof.
  induction u; simpl; constructor; try assumption; split; reflexivity.
Qed.

Lemma lstrip_plain (l : list ascii) : Forall plain l -> lstrip l = l.
Proof.
  intro H. destruct H as [|c l [Hc _] _]; simpl; [reflexivity|].
  rewrite Hc. reflexivity.
Qed.

Lemma strip_plain (s : string) :
  Forall plain (list_ascii_of_string s) -> strip s = s.
Proof.
  intro H. unfold strip. rewrite (lstrip_plain _ H).
  rewrite (lstrip_plain _ (Forall_rev H)), rev_involutive.
  apply string_of_list_ascii_of_string.
Qed.

Lemma drop_underscores_plain (s : string) :
  Forall plain (list_ascii_of_string s) -> drop_underscores s = s.
Proof.
  intro H. unfold drop_underscores.
  assert (E : filter (fun c => negb (Ascii.eqb c "_")) (list_ascii_of_string s)
              = list_ascii_of_string s).
  { induction H as [|c l [_ Hc] _ IH]; simpl; [reflexivity|].
    rewrite Hc. simpl. rewrite IH. reflexivity. }
  rewrite E. apply string_of_list_ascii_of_string.
Qed.

Lemma sign_of_uint (u : Decimal.uint) :
  u <> Decimal.Nil ->
  sign_of (NilEmpty.string_of_uint u) = (1%Z, NilEmpty.string_of_uint u).
Proof.
  destruct u; intros _; reflexivity.
Qed.

Lemma of_string_uint (u : Decimal.uint) :
  u <> Decimal.Nil ->
  of_string (NilEmpty.string_of_uint u) = Some (inject_Z (Z.of_uint u)) /\
  of_string (String "-" (NilEmpty.string_of_uint u)) = Some (inject_Z (- Z.of_uint u)).
Proof.
  intro H.
  pose proof (uint_chars_plain u) as P.
  assert (N : exists k, (0 + Decimal.nb_digits u)%nat = S k).
  { destruct (Decimal.nb_digits u) eqn:E; [|eexists; reflexivity].
    apply DecimalFacts.nb_digits_0 in E. contradiction. }
  destruct N as [k N].
  split; unfold of_string.
  - rewrite (strip_plain _ P), (drop_underscores_plain _ P), (sign_of_uint u H).
    rewrite digits_uint0, N. simpl. unfold scale10. simpl.
    do 2 f_equal. destruct (Z.of_uint u); lia.
  - assert (P' : Forall plain (list_ascii_of_string (String "-" (NilEmpty.string_of_uint u)))).
    { simpl. constructor; [split; reflexivity|exact P]. }
    rewrite (strip_plain _ P'), (drop_underscores_plain _ P').
    cbn [sign_of]. rewrite digits_uint0, N. simpl. unfold scale10. simpl.
    do 2 f_equal. destruct (Z.of_uint u); lia.
Qed.

(** X8.  [D] of a Python integer that [str] writes, one of at most 4300
    digits, is that integer: the digits [str] writes are the digits
    [Decimal] reads, sign included.  For a longer integer [str] raises
    [ValueError] and [D] is 0. *)
Theorem D_of_integer_is_exact :
  forall z : Z,
    D (PInt z) = if (Z.abs z <? 10 ^ MAX_STR_DIGITS)%Z then inject_Z z else 0%Q.
Proof.
  intro z.
  unfold D. cbn [str_raises]. unfold int_str_fails.
  destruct (Z.ltb_spec (Z.abs z) (10 ^ MAX_STR_DIGITS)) as [L|L].
  2:{ destruct (Z.leb_spec (10 ^ MAX_STR_DIGITS) (Z.abs z)) as [_|C]; [reflexivity|lia]. }
  destruct (Z.leb_spec (10 ^ MAX_STR_DIGITS) (Z.abs z)) as [C|_]; [lia|].
  clear L. simpl str. unfold str_of_Z, Z.to_int.
  destruct z as [|p|p].
  - reflexivity.
  - simpl NilZero.string_of_int.
    pose proof (DecimalPos.Unsigned.to_uint_nonnil p) as H.
    assert (E : NilZero.string_of_uint (Pos.to_uint p)
                = NilEmpty.string_of_uint (Pos.to_uint p)).
    { destruct (Pos.to_uint p); [contradiction|reflexivity..]. }
    rewrite E. destruct (of_string_uint _ H) as [-> _].
    unfold Z.of_uint. rewrite DecimalPos.Unsigned.of_to. reflexivity.
  - simpl NilZero.string_of_int.
    pose proof (DecimalPos.Unsigned.to_uint_nonnil p) as H.
    assert (E : NilZero.string_of_uint (Pos.to_uint p)
                = NilEmpty.string_of_uint (Pos.to_uint p)).
    { destruct (Pos.to_uint p); [contradiction|reflexivity..]. }
    rewrite E. destruct (of_string_uint _ H) as [_ ->].
    unfold Z.of_uint. rewrite DecimalPos.Unsigned.of_to. reflexivity.
Qed.

End Conversion.

(** ** States the manager can be in *)

Section Reachable.

Local Open Scope string_scope.

Lemma on_message_state (parsed : option pyval) (now : Q) (m : BitgetManager.t) :
  fst (_on_message parsed now m) = m \/
  exists blocks, fst (_on_message parsed now m) = fst (apply_books blocks now m).
Proof.
  unfold _on_message.
  destruct parsed as [msg|]; [|left; reflexivity].
  destruct (is_control msg) as [[|]|e]; try (left; reflexivity).
  destruct (channel_of msg) as [channel|e]; [|left; reflexivity].
  destruct (get "data" msg) as [data|e]; [|left; reflexivity].
  set (blocks := match data with PList l => l | _ => [data] end).
  assert (Hgo :
    let r :=
      (let '(m1, e1) :=
         if existsb book_shaped blocks then apply_books blocks now m else (m, None) in
       match e1 with
       | Some e => (m1, Some e)
       | None =>
           if existsb trade_shaped blocks then call_apply_trades blocks m1
           else match str_in "trade" channel with
                | Raise e => (m1, Some e)
                | Ok true => call_apply_trades blocks m1
                | Ok false => (m1, None)
                end
       end) in
    fst r = m \/ exists bl, fst r = fst (apply_books bl now m)).
  { cbv zeta. destruct (existsb book_shaped blocks).
    - right. exists blocks.
      destruct (apply_books blocks now m) as [m1 [e|]]; simpl; [reflexivity|].
      destruct (existsb trade_shaped blocks); [reflexivity|].
      destruct (str_in "trade" channel) as [[|]|e]; reflexivity.
    - left. destruct (existsb trade_shaped blocks); [reflexivity|].
      destruct (str_in "trade" channel) as [[|]|e]; reflexivity. }
  destruct data; try exact Hgo. left; reflexivity.
Qed.

Lemma init_price_shape (r : http) (m : BitgetManager.t) :
  init_price r m = m \/ exists s, init_price r m = shift_price s m.
Proof.
  unfold init_price.
  destruct r as [|st body]; [left; reflexivity|].
  destruct (_ <- _ ;; _) as [[p|]|e]; try (left; reflexivity).
  destruct p; try (left; reflexivity); destruct (str_raises _);
    right; eexists; reflexivity.
Qed.

Lemma ticker_poll_loop_shape (rounds : list (bool * http * bool)) :
  forall m,
    let m' := _ticker_poll_loop rounds m in
    (m' = m \/ prev_price_str m' <> last_price_str m') /\
    bids m' = bids m /\ asks m' = asks m /\
    symbol m' = symbol m /\ top_n m' = top_n m /\
    running m' = running m /\ stop_set m' = stop_set m /\
    last_update_time m' = last_update_time m.
Proof.
  induction rounds as [|[[top r] slp] rest IH]; intro m; cbv zeta; simpl.
  - repeat split. left; reflexivity.
  - destruct top; [repeat split; left; reflexivity|].
    assert (S1 : (ticker_poll r m = m \/
                  prev_price_str (ticker_poll r m) <> last_price_str (ticker_poll r m)) /\
                 bids (ticker_poll r m) = bids m /\ asks (ticker_poll r m) = asks m /\
                 symbol (ticker_poll r m) = symbol m /\ top_n (ticker_poll r m) = top_n m /\
                 running (ticker_poll r m) = running m /\
                 stop_set (ticker_poll r m) = stop_set m /\
                 last_update_time (ticker_poll r m) = last_update_time m).
    { destruct (ticker_poll_guard r m) as [->|(s & Hs & ->)].
      - repeat split. left; reflexivity.
      - repeat split. right. simpl. intro E. apply Hs. symmetry. exact E. }
    destruct slp; [exact S1|].
    specialize (IH (ticker_poll r m)). cbv zeta in IH.
    destruct S1 as (A1 & B1 & C1 & D1 & E1 & F1 & G1 & H1).
    destruct IH as (A2 & B2 & C2 & D2 & E2 & F2 & G2 & H2).
    split; [|repeat split; congruence].
    destruct A2 as [A2|A2]; [rewrite A2; exact A1|right; exact A2].
Qed.

Lemma start_running (book ticker : http) (m : BitgetManager.t) :
  running (start book ticker m) = true.
Proof.
  unfold start. destruct (running m) eqn:E; [exact E|reflexivity].
Qed.

Lemma bootstrap_well_formed (book ticker : http) (m : BitgetManager.t) :
  unique_keys (bids m) -> unique_keys (asks m) ->
  let m' := init_snapshot_and_price book ticker m in
  unique_keys (bids m') /\ unique_keys (asks m') /\
  running m' = running m /\ stop_set m' = stop_set m.
Proof.
  intros Hb Ha. cbv zeta. unfold init_snapshot_and_price.
  destruct (init_snapshot_unique book m Hb Ha) as [Ub Ua].
  pose proof (init_snapshot_config book m) as C. unfold config_of in C.
  injection C as _ _ _ _ Cr Cs.
  destruct (init_price_shape ticker (init_snapshot book m)) as [->|[s ->]];
    simpl; repeat split; assumption.
Qed.

Lemma start_well_formed (book ticker : http) (m : BitgetManager.t) :
  well_formed m -> well_formed (start book ticker m).
Proof.
  intros (Hb & Ha & Hr). unfold start.
  destruct (running m) eqn:E;
    [split; [exact Hb|split; [exact Ha|intros _; apply Hr; reflexivity]]|].
  destruct (bootstrap_well_formed book ticker (set_stop false m) Hb Ha)
    as (Ub & Ua & _ & Us).
  split; [exact Ub|]. split; [exact Ua|]. intros _. exact Us.
Qed.

Lemma stop_well_formed (m : BitgetManager.t) : well_formed m -> well_formed (stop m).
Proof.
  intros (Hb & Ha & Hr). unfold stop.
  destruct (running m) eqn:E; simpl.
  - split; [exact Hb|]. split; [exact Ha|]. intro C; discriminate C.
  - split; [exact Hb|]. split; [exact Ha|]. rewrite E. intro C; discriminate C.
Qed.

(** X9.  In every state the manager can be in (from [__init__] through any
    messages, polls, starts, stops, restarts and clears, on any input) each
    side of the book holds a price at most once, and the stop event is clear
    whenever the manager is marked as running. *)
Theorem reachable_states_are_well_formed :
  forall m : BitgetManager.t, reachable m -> well_formed m.
Proof.
  induction 1 as [now | parsed now m _ IH | rounds m _ IH | book ticker m _ IH
                  | m _ IH | sym n book ticker m _ IH | m _ IH].
  - split; [exact I|]. split; [exact I|]. intro C; discriminate C.
  - destruct IH as (Hb & Ha & Hr).
    pose proof (on_message_config parsed now m) as C. unfold config_of in C.
    injection C as _ _ _ _ Cr Cs.
    destruct (on_message_state parsed now m) as [E|[blocks E]]; rewrite E in *.
    + split; [exact Hb|]. split; [exact Ha|exact Hr].
    + destruct (apply_books_unique blocks now m Hb Ha) as [Ub Ua].
      split; [exact Ub|]. split; [exact Ua|]. rewrite Cr, Cs. exact Hr.
  - destruct IH as (Hb & Ha & Hr).
    destruct (ticker_poll_loop_shape rounds m) as (_ & B & A & _ & _ & R & S & _).
    split; [rewrite B; exact Hb|]. split; [rewrite A; exact Ha|].
    rewrite R, S. exact Hr.
  - apply start_well_formed, IH.
  - apply stop_well_formed, IH.
  - unfold restart. apply start_well_formed.
    pose proof (stop_well_formed m IH) as (Hb & Ha & Hr).
    destruct sym as [s|]; [destruct (negb (s =? ""))|];
      (destruct n as [k|]; [destruct (negb (k =? 0)%Z)|]);
      (split; [exact I|]; split; [exact I|exact Hr]).
  - destruct IH as (_ & _ & Hr). split; [exact I|]. split; [exact I|exact Hr].
Qed.

Lemma reachable_states_are_well_formed_witness :
  well_formed
    (fst (_on_message (Some (PDict [("data", PList (books_data [level_entry "100" "2";
                                                                 level_entry "100.0" "3"]
                                                                []))]))
            1 (start ConnectionError (ticker_reply "100") (init 0)))).
Proof.
  apply reachable_states_are_well_formed.
  apply reach_message, reach_start, reach_init.
Defined.

End Reachable.

(** ** The polled price and its marker *)

Section Polling.

Local Open Scope string_scope.

(** X10.  The poll loop changes nothing but the two price strings, and it
    keeps them apart: after any number of rounds either the state is the one
    the loop started from, or the previous price differs from the current
    one. *)
Theorem poll_keeps_previous_apart_from_current :
  forall (rounds : list (bool * http * bool)) (m : BitgetManager.t),
    let m' := _ticker_poll_loop rounds m in
    (m' = m \/ prev_price_str m' <> last_price_str m') /\
    bids m' = bids m /\ asks m' = asks m /\
    symbol m' = symbol m /\ top_n m' = top_n m /\
    running m' = running m /\ last_update_time m' = last_update_time m.
Proof.
  intros rounds m.
  destruct (ticker_poll_loop_shape rounds m) as (A & B & C & D & E & F & _ & H).
  cbv zeta. split; [exact A|]. split; [exact B|]. split; [exact C|].
  split; [exact D|]. split; [exact E|]. split; [exact F|exact H].
Qed.





End Polling.

(** ** Starting and stopping *)

Section StartStop.

(** X12.  [start] does nothing on a manager that runs, so a second [start]
    keeps the state of the first whatever the second bootstrap would read,
    and [stop] does nothing on a manager that does not run, so a second
    [stop] keeps the state of the first.  [stop] leaves the book, the two
    prices, the symbol and the depth as they are. *)
Theorem start_and_stop_are_idempotent :
  forall (book ticker book' ticker' : http) (m : BitgetManager.t),
    start book' ticker' (start book ticker m) = start book ticker m /\
    stop (stop m) = stop m /\
    running (start book ticker m) = true /\
    running (stop m) = false /\
    (bids (stop m) = bids m /\ asks (stop m) = asks m /\
     last_price_str (stop m) = last_price_str m /\
     prev_price_str (stop m) = prev_price_str m /\
     symbol (stop m) = symbol m /\ top_n (stop m) = top_n m).
Proof.
  intros book ticker book' ticker' m.
  pose proof (start_running book ticker m) as R.
  pose proof (stop_not_running m) as S.
  split; [|split; [|split; [|split]]].
  - unfold start at 1. rewrite R. reflexivity.
  - unfold stop at 1. rewrite S. reflexivity.
  - exact R.
  - exact S.
  - apply stop_keeps.
Qed.

End StartStop.

(** ** Order and shape of the table *)

Section Table.

Local Open Scope Q_scope.

Lemma insert_desc_filter (q : Decimal) (x : level) (l : list level) :
  filter (same_qty q) (insert_desc x l)
  = if same_qty q x then x :: filter (same_qty q) l else filter (same_qty q) l.
Proof.
  induction l as [|y rest IH]; simpl; [reflexivity|].
  destruct (ltb (snd x) (snd y)) eqn:E; [|reflexivity].
  simpl. rewrite IH.
  destruct (same_qty q y) eqn:Fy; [|reflexivity].
  destruct (same_qty q x) eqn:Fx; [|reflexivity].
  exfalso. unfold same_qty in *.
  apply eqb_eq in Fx. apply eqb_eq in Fy. apply ltb_lt in E. lra.
Qed.

Lemma sorted_desc_filter (q : Decimal) (d : side) :
  filter (same_qty q) (sorted_desc d) = filter (same_qty q) d.
Proof.
  induction d as [|x rest IH]; simpl; [reflexivity|].
  rewrite insert_desc_filter, IH. reflexivity.
Qed.

Lemma sorted_firstn (k : nat) (l : list level) :
  StronglySorted outranks l -> StronglySorted outranks (firstn k l).
Proof.
  intro H. revert k. induction H as [|a l Hs IH Ha]; intro k.
  - rewrite firstn_nil. constructor.
  - destruct k as [|k]; simpl; [constructor|].
    constructor; [apply IH|].
    rewrite Forall_forall in *. intros u Hu. apply Ha.
    rewrite <- (firstn_skipn k l). apply in_or_app. left; exact Hu.
Qed.

Lemma top_by_qty_prefix (n : Z) (d : side) :
  exists k, top_by_qty n d = firstn k (sorted_desc d).
Proof.
  unfold top_by_qty, slice_to. destruct (0 <=? n)%Z; eexists; reflexivity.
Qed.

(** X13.  A selection is ranked and the ranking is stable: its rows come by
    non-increasing quantity, it is a prefix of the whole side so ranked, and
    in that ranking rows of equal quantity keep the order they have in the
    dict. *)
Theorem selection_is_ranked_and_stable :
  forall (N : Z) (d : side) (q : Decimal),
    StronglySorted outranks (top_by_qty N d) /\
    (exists k, top_by_qty N d = firstn k (sorted_desc d)) /\
    filter (same_qty q) (sorted_desc d) = filter (same_qty q) d.
Proof.
  intros N d q. split; [|split].
  - destruct (top_by_qty_prefix N d) as [k ->].
    apply sorted_firstn, sorted_desc_sorted.
  - apply top_by_qty_prefix.
  - apply sorted_desc_filter.
Qed.

(** X14.  The supports and resistances for a count [K] are the first [K]
    rows of the table of any depth [N] that is at least [K]. *)
Theorem supports_head_the_table :
  forall (r : rounding) (K N : Z) (m : BitgetManager.t),
    (0 <= K <= N)%Z ->
    fst (get_support_resistance K m)
      = firstn (Z.to_nat K) (top_bids (build_dataframe r N m)) /\
    snd (get_support_resistance K m)
      = firstn (Z.to_nat K) (top_asks (build_dataframe r N m)).
Proof.
  intros r K N m [H0 H1].
  destruct (build_dataframe_tops r N m) as [-> ->].
  unfold get_support_resistance, top_by_qty, slice_to. simpl.
  destruct (Z.leb_spec 0 K) as [_|C]; [|lia].
  destruct (Z.leb_spec 0 N) as [_|C]; [|lia].
  rewrite !firstn_firstn.
  replace (Nat.min (Z.to_nat K) (Z.to_nat N)) with (Z.to_nat K) by lia.
  split; reflexivity.
Qed.

Lemma supports_head_the_table_witness :
  let m := set_bids [(100, 2); (99.5, 5); (99, 3)] (init 0) in
  (0 <= 1 <= 2)%Z /\
  fst (get_support_resistance 1 m) = [(99.5, 5)] /\
  top_bids (build_dataframe ROUND_HALF_EVEN 2 m) = [(99.5, 5); (99, 3)].
Proof.
  cbv zeta.
  assert (H : (0 <= 1 <= 2)%Z) by lia.
  split; [exact H|].
  destruct (supports_head_the_table ROUND_HALF_EVEN 1 2 (set_bids [(100, 2); (99.5, 5); (99, 3)] (init 0)) H)
    as [E _].
  split; [rewrite E|]; reflexivity.
Defined.

Lemma rows_length (r : rounding) (n : Z) (m : BitgetManager.t) :
  List.length (rows (build_dataframe r n m))
  = Nat.max (List.length (top_asks (build_dataframe r n m)))
            (List.length (top_bids (build_dataframe r n m))).
Proof.
  unfold build_dataframe.
  destruct (if negb _ then _ else _) as [na nb]. simpl.
  rewrite length_map, length_seq. reflexivity.
Qed.

Lemma cell_at_spec (top : list level) (mark : option nat) (i : nat) :
  match cell_at top mark i with
  | Some c => nth_error top i = Some (cell_price c, cell_qty c) /\
              cell_value c == cell_price c * cell_qty c
  | None => (List.length top <= i)%nat
  end.
Proof.
  unfold cell_at. destruct (nth_error top i) as [[p q]|] eqn:E.
  - simpl. split; [reflexivity|].
    destruct (eqb p 0) eqn:Ep; simpl.
    + apply eqb_eq in Ep. rewrite Ep. ring.
    + destruct (eqb q 0) eqn:Eq; simpl; [|reflexivity].
      apply eqb_eq in Eq. rewrite Eq. ring.
  - apply nth_error_None, E.
Qed.

(** X15.  The table has as many rows as the longer of the two selections.
    Row [i] holds the ask of rank [i] on the sell side and the bid of rank
    [i] on the buy side, each with the value price times quantity, and a side
    is blank in a row exactly when its selection has no rank [i]. *)
Theorem rows_pair_the_ranks :
  forall (r : rounding) (N : Z) (m : BitgetManager.t),
    let f := build_dataframe r N m in
    List.length (rows f) = Nat.max (List.length (top_asks f)) (List.length (top_bids f)) /\
    forall i a b,
      nth_error (rows f) i = Some (a, b) ->
      match a with
      | Some c => nth_error (top_asks f) i = Some (cell_price c, cell_qty c) /\
                  cell_value c == cell_price c * cell_qty c
      | None => (List.length (top_asks f) <= i)%nat
      end /\
      match b with
      | Some c => nth_error (top_bids f) i = Some (cell_price c, cell_qty c) /\
                  cell_value c == cell_price c * cell_qty c
      | None => (List.length (top_bids f) <= i)%nat
      end.
Proof.
  intros r N m f. split; [apply rows_length|].
  intros i a b H. destruct (rows_nth r N m i a b H) as [-> ->].
  split; apply cell_at_spec.
Qed.

Lemma rows_pair_the_ranks_witness :
  let f := build_dataframe ROUND_HALF_EVEN 5 (set_asks [(101, 3)] (set_bids [(100, 2); (99.5, 5)] (init 0))) in
  nth_error (rows f) 1 = Some (None, Some (mk_cell 2 100 false (100 * 2))) /\
  (List.length (top_asks f) <= 1)%nat /\
  nth_error (top_bids f) 1 = Some (100, 2).
Proof.
  cbv zeta.
  set (f := build_dataframe ROUND_HALF_EVEN 5 (set_asks [(101, 3)] (set_bids [(100, 2); (99.5, 5)] (init 0)))).
  assert (E : nth_error (rows f) 1 = Some (None, Some (mk_cell 2 100 false (100 * 2))))
    by reflexivity.
  destruct (rows_pair_the_ranks ROUND_HALF_EVEN 5
              (set_asks [(101, 3)] (set_bids [(100, 2); (99.5, 5)] (init 0))))
    as [_ H].
  destruct (H 1%nat _ _ E) as [Ha [Hb _]].
  split; [exact E|]. split; [exact Ha|exact Hb].
Defined.

End Table.

(** ** Stars, totals and the bounds of the metrics *)

Section Marks.

Local Open Scope Q_scope.

Lemma count_index (k n : nat) :
  List.length (filter (fun i => Nat.eqb i k) (seq 0 n)) = if (k <? n)%nat then 1%nat else 0%nat.
Proof.
  induction n as [|n IH]; [reflexivity|].
  rewrite seq_S, filter_app, length_app, IH. simpl.
  destruct (Nat.eqb_spec n k) as [E|E]; simpl.
  - subst k. rewrite Nat.ltb_irrefl.
    destruct (Nat.ltb_spec n (S n)); [reflexivity|lia].
  - destruct (Nat.ltb_spec k n); destruct (Nat.ltb_spec k (S n)); lia.
Qed.

Lemma stars_column (top : list level) (mark : option nat) (n : nat) :
  (List.length top <= n)%nat ->
  (forall k, mark = Some k -> (k < List.length top)%nat) ->
  stars (map (cell_at top mark) (seq 0 n))
  = match mark with Some _ => 1%nat | None => 0%nat end.
Proof.
  intros Hn Hk. unfold stars.
  destruct mark as [k|].
  - specialize (Hk k eq_refl).
    assert (E : forall l,
               List.length (filter (fun c => match c with
                                             | Some x => cell_star x
                                             | None => false
                                             end)
                              (map (cell_at top (Some k)) l))
               = List.length (filter (fun i => Nat.eqb i k) l)).
    { induction l as [|i l IH]; [reflexivity|]. simpl.
      unfold cell_at at 1.
      destruct (nth_error top i) as [[p q]|] eqn:En; simpl.
      - destruct (Nat.eqb i k); simpl; rewrite IH; reflexivity.
      - destruct (Nat.eqb_spec i k) as [->|_]; [|exact IH].
        apply nth_error_None in En. lia. }
    rewrite E, count_index.
    destruct (Nat.ltb_spec k n); [reflexivity|lia].
  - clear. induction (seq 0 n) as [|i l IH]; [reflexivity|]. simpl.
    unfold cell_at at 1. destruct (nth_error top i) as [[p q]|]; simpl; exact IH.
Qed.

Lemma rows_columns (r : rounding) (n : Z) (m : BitgetManager.t) :
  let f := build_dataframe r n m in
  let len := Nat.max (List.length (top_asks f)) (List.length (top_bids f)) in
  map fst (rows f) = map (cell_at (top_asks f) (nearest_ask_idx f)) (seq 0 len) /\
  map snd (rows f) = map (cell_at (top_bids f) (nearest_bid_idx f)) (seq 0 len).
Proof.
  unfold build_dataframe.
  destruct (if negb _ then _ else _) as [na nb]. cbv zeta. simpl.
  rewrite !map_map. simpl. split; reflexivity.
Qed.

(** X16.  Each side of the table carries at most one star: exactly one when
    the nearest index of the side is set, none otherwise. *)
Theorem one_star_per_marked_side :
  forall (r : rounding) (N : Z) (m : BitgetManager.t),
    let f := build_dataframe r N m in
    stars (map fst (rows f))
      = match nearest_ask_idx f with Some _ => 1%nat | None => 0%nat end /\
    stars (map snd (rows f))
      = match nearest_bid_idx f with Some _ => 1%nat | None => 0%nat end.
Proof.
  intros r N m f.
  destruct (rows_columns r N m) as [Ca Cb]. fold f in Ca, Cb.
  destruct (marks_in_range r N m) as [Ra Rb]. fold f in Ra, Rb.
  rewrite Ca, Cb. split; apply stars_column; try assumption.
  - apply Nat.le_max_l.
  - apply Nat.le_max_r.
Qed.

Lemma fold_left_plus_acc (xs : list Q) :
  forall acc, fold_left Qplus xs acc == acc + fold_right Qplus 0 xs.
Proof.
  induction xs as [|x rest IH]; intro acc; simpl; [ring|].
  rewrite IH. ring.
Qed.

Lemma py_sum_right (xs : list Q) : py_sum xs == fold_right Qplus 0 xs.
Proof. unfold py_sum. rewrite fold_left_plus_acc. ring. Qed.

Lemma sum_right_perm (f : level -> Q) (l l' : list level) :
  Permutation l l' ->
  fold_right Qplus 0 (map f l) == fold_right Qplus 0 (map f l').
Proof.
  induction 1 as [|x l l' _ IH|x y l|l l' l'' _ IH1 _ IH2]; simpl.
  - reflexivity.
  - rewrite IH. reflexivity.
  - ring.
  - rewrite IH1. exact IH2.
Qed.

Lemma column_value_blank (pre : list level) (mark : option nat) (n : nat) :
  forall s, (List.length pre <= s)%nat ->
    column_value (map (cell_at pre mark) (seq s n)) == 0.
Proof.
  induction n as [|n IH]; intros s Hs; simpl; [reflexivity|].
  unfold cell_at at 1.
  replace (nth_error pre s) with (@None level)
    by (symmetry; apply nth_error_None; exact Hs).
  apply IH. lia.
Qed.

Lemma cell_value_product (p q : Decimal) :
  (if (negb (eqb p 0) && negb (eqb q 0))%bool then p * q else 0) == p * q.
Proof.
  destruct (eqb p 0) eqn:Ep; simpl.
  - apply eqb_eq in Ep. rewrite Ep. ring.
  - destruct (eqb q 0) eqn:Eq; simpl; [|reflexivity].
    apply eqb_eq in Eq. rewrite Eq. ring.
Qed.

Lemma column_value_full (top : list level) (mark : option nat) :
  forall (pre : list level) (n : nat),
    (List.length top <= n)%nat ->
    column_value (map (cell_at (pre ++ top) mark) (seq (List.length pre) n))
    == fold_right Qplus 0 (map (fun l => fst l * snd l) top).
Proof.
  induction top as [|[p q] rest IH]; intros pre n Hn.
  - rewrite app_nil_r. simpl. apply column_value_blank. lia.
  - destruct n as [|n]; [simpl in Hn; lia|].
    simpl seq. simpl map. unfold cell_at at 1.
    rewrite nth_error_app2 by lia. rewrite Nat.sub_diag. simpl nth_error.
    cbn [column_value fold_right cell_value].
    specialize (IH (pre ++ [(p, q)])%list n).
    rewrite <- app_assoc, last_length in IH. simpl app in IH.
    unfold column_value in IH. rewrite IH by (simpl in Hn; lia).
    simpl. rewrite cell_value_product. reflexivity.
Qed.

Lemma side_value_nonneg (d : side) :
  Forall (fun l => 0 <= fst l /\ 0 <= snd l) d -> 0 <= side_value d.
Proof.
  intro H. unfold side_value. apply fold_sum_nonneg; [|lra].
  apply Forall_map. apply (Forall_impl _ (P := fun l => 0 <= fst l /\ 0 <= snd l)); [|exact H].
  intros l [H1 H2]. apply Qmult_le_0_compat; assumption.
Qed.

Lemma top_by_qty_all (n : Z) (d : side) :
  (Z.of_nat (List.length d) <= n)%Z -> top_by_qty n d = sorted_desc d.
Proof.
  intro H. unfold top_by_qty, slice_to.
  destruct (Z.leb_spec 0 n) as [_|C]; [|lia].
  apply firstn_all2.
  rewrite (Permutation_length (sorted_desc_perm d)). lia.
Qed.

Lemma column_value_of_side (d : side) (mark : option nat) (n : nat) :
  (List.length d <= n)%nat ->
  column_value (map (cell_at (sorted_desc d) mark) (seq 0 n)) == side_value d.
Proof.
  intro H.
  pose proof (column_value_full (sorted_desc d) mark [] n) as C.
  simpl in C. rewrite C by (rewrite (Permutation_length (sorted_desc_perm d)); exact H).
  rewrite (sum_right_perm _ _ _ (sorted_desc_perm d)).
  unfold side_value. rewrite py_sum_right. reflexivity.
Qed.

(** X17.  The totals of [get_total_values] are not negative when no price and
    no quantity of the book is, and when the depth of the table covers a side
    the values of that side's column add up to the total of the side.
    Products and sums are taken exactly here, without the rounding of either
    to 28 significant digits. *)
Theorem totals_match_a_full_table :
  forall (r : rounding) (N : Z) (m : BitgetManager.t),
    let f := build_dataframe r N m in
    (Forall (fun l => 0 <= fst l /\ 0 <= snd l) (bids m) ->
       0 <= fst (get_total_values m)) /\
    (Forall (fun l => 0 <= fst l /\ 0 <= snd l) (asks m) ->
       0 <= snd (get_total_values m)) /\
    ((Z.of_nat (List.length (bids m)) <= N)%Z ->
       column_value (map snd (rows f)) == fst (get_total_values m)) /\
    ((Z.of_nat (List.length (asks m)) <= N)%Z ->
       column_value (map fst (rows f)) == snd (get_total_values m)).
Proof.
  intros r N m f.
  destruct (rows_columns r N m) as [Ca Cb]. fold f in Ca, Cb.
  destruct (build_dataframe_tops r N m) as [Ta Tb]. fold f in Ta, Tb.
  split; [apply side_value_nonneg|]. split; [apply side_value_nonneg|].
  split; intro H.
  - rewrite Cb, Tb, Ta, (top_by_qty_all N (bids m) H).
    apply column_value_of_side.
    rewrite <- (Permutation_length (sorted_desc_perm (bids m))). apply Nat.le_max_r.
  - rewrite Ca, Ta, Tb, (top_by_qty_all N (asks m) H).
    apply column_value_of_side.
    rewrite <- (Permutation_length (sorted_desc_perm (asks m))). apply Nat.le_max_l.
Qed.

Lemma totals_match_a_full_table_witness :
  let m := set_asks [(101, 3); (100.5, 1)] (set_bids [(100, 2); (99.5, 5)] (init 0)) in
  (Z.of_nat (List.length (bids m)) <= 5)%Z /\
  fst (get_total_values m) == 697.5 /\
  column_value (map snd (rows (build_dataframe ROUND_HALF_EVEN 5 m))) == fst (get_total_values m).
Proof.
  cbv zeta.
  set (m := set_asks [(101, 3); (100.5, 1)] (set_bids [(100, 2); (99.5, 5)] (init 0))).
  assert (H : (Z.of_nat (List.length (bids m)) <= 5)%Z) by (simpl; lia).
  destruct (totals_match_a_full_table ROUND_HALF_EVEN 5 m) as (_ & _ & Hb & _).
  split; [exact H|]. split; [reflexivity|apply Hb, H].
Defined.

Lemma ws_loop_bounds (passes : list pass) :
  forall b,
    1 <= b <= 10 ->
    Forall (fun p => 0.5 <= pause_delay p <= 10) (ws_loop passes b) /\
    (List.length (ws_loop passes b) <= List.length passes)%nat /\
    forall i e,
      nth_error passes i = Some e ->
      stop_at_top e = true \/ stop_after e = true ->
      (List.length (ws_loop passes b) <= i)%nat.
Proof.
  induction passes as [|e rest IH]; intros b Hb; simpl.
  - split; [constructor|]. split; [lia|]. intros i e H. destruct i; discriminate H.
  - assert (Stop : Forall (fun p => 0.5 <= pause_delay p <= 10) [] /\
                   (List.length (@nil pause) <= S (List.length rest))%nat /\
                   forall i e0, nth_error (e :: rest) i = Some e0 ->
                     stop_at_top e0 = true \/ stop_after e0 = true ->
                     (List.length (@nil pause) <= i)%nat).
    { split; [constructor|]. split; simpl; [lia|]. intros; lia. }
    destruct (stop_at_top e) eqn:Et; [exact Stop|].
    destruct (result e); (destruct (stop_after e) eqn:Ea; [exact Stop|]).
    + destruct (IH (next_backoff b)) as (F & L & S).
      { apply next_backoff_bounds, Hb. }
      split; [constructor; [simpl; lra|exact F]|]. split; [simpl; lia|].
      intros i e0 Hi Hs. destruct i as [|i]; simpl in *.
      * injection Hi as <-. rewrite Et, Ea in Hs. destruct Hs; discriminate.
      * specialize (S i e0 Hi Hs). lia.
    + destruct (IH b Hb) as (F & L & S).
      split; [constructor; [simpl; lra|exact F]|]. split; [simpl; lia|].
      intros i e0 Hi Hs. destruct i as [|i]; simpl in *.
      * injection Hi as <-. rewrite Et, Ea in Hs. destruct Hs; discriminate.
      * specialize (S i e0 Hi Hs). lia.
Qed.

(** X18.  The reconnect loop never sleeps less than 0.5 or more than 10, it
    sleeps at most once per pass, and once a pass reads the stop event as set
    it sleeps no more: the number of sleeps is at most the number of passes
    before that one. *)
Theorem reconnect_loop_sleeps_are_bounded :
  forall passes : list pass,
    Forall (fun p => 0.5 <= pause_delay p <= 10) (_ws_runloop passes) /\
    (List.length (_ws_runloop passes) <= List.length passes)%nat /\
    forall i e,
      nth_error passes i = Some e ->
      stop_at_top e = true \/ stop_after e = true ->
      (List.length (_ws_runloop passes) <= i)%nat.
Proof.
  intro passes. apply ws_loop_bounds. lra.
Qed.

Lemma reconnect_loop_sleeps_are_bounded_witness :
  let passes := [failure; clean_close; mk_pass false Raised true; failure] in
  nth_error passes 2 = Some (mk_pass false Raised true) /\
  _ws_runloop passes = [Backoff 1; CleanPause 0.5] /\
  (List.length (_ws_runloop passes) <= 2)%nat.
Proof.
  cbv zeta.
  destruct (reconnect_loop_sleeps_are_bounded
              [failure; clean_close; mk_pass false Raised true; failure])
    as (_ & _ & H).
  split; [reflexivity|]. split; [reflexivity|].
  apply (H 2%nat (mk_pass false Raised true) eq_refl). right; reflexivity.
Defined.

(** X19.  When best bid and best ask are both greater than 0 and the
    metrics are returned: the spread percent is at most 100 when the best
    ask has no more than 28 significant digits, spread and spread percent are
    not negative when the best bid is at most the best ask, and neither is
    positive when the best ask is below the best bid. *)
Theorem spread_percent_is_bounded :
  forall (r : rounding) (now : Q) (m : BitgetManager.t) (mt : metrics),
    get_metrics r now m = Ok mt ->
    0 < best_bid mt -> 0 < best_ask mt ->
    (representable (best_ask mt) -> spread_pct mt <= 100) /\
    (best_bid mt <= best_ask mt -> 0 <= spread mt /\ 0 <= spread_pct mt) /\
    (best_ask mt < best_bid mt -> spread mt <= 0 /\ spread_pct mt <= 0).
Proof.
  intros r now m mt H Hb Ha.
  destruct (get_metrics_ok r now m mt H) as (_ & _ & Hs & _).
  rewrite (proj2 (ltb_lt _ _) Hb), (proj2 (ltb_lt _ _) Ha) in Hs.
  destruct Hs as [Hsp Hpc]. cbn [andb] in *.
  set (a := best_ask mt) in *. set (b := best_bid mt) in *.
  assert (Up : forall x, x <= 0 -> context_round r (context_round r (x / a) * 100) <= 0).
  { intros x Hx. apply context_round_nonpos.
    assert (Q0 : x / a <= 0).
    { apply Qle_shift_div_r; [exact Ha|lra]. }
    pose proof (context_round_nonpos r _ Q0). lra. }
  assert (Lo : forall x, 0 <= x -> 0 <= context_round r (context_round r (x / a) * 100)).
  { intros x Hx. apply context_round_nonneg.
    assert (Q0 : 0 <= x / a).
    { apply Qle_shift_div_l; [exact Ha|lra]. }
    pose proof (context_round_nonneg r _ Q0). lra. }
  split; [|split].
  - intro Ra.
    assert (S1 : spread mt <= a).
    { pose proof (context_round_fixed r a Ra) as F.
      pose proof (context_round_le r (a - b) a ltac:(lra)) as K.
      rewrite Hsp. lra. }
    assert (Q1 : spread mt / a <= 1) by (apply Qle_shift_div_r; [exact Ha|lra]).
    assert (Q2 : context_round r (spread mt / a) <= 1).
    { pose proof (context_round_fixed r 1 representable_1) as F.
      pose proof (context_round_le r _ _ Q1) as K. lra. }
    pose proof (context_round_fixed r 100 representable_100) as F.
    pose proof (context_round_le r (context_round r (spread mt / a) * 100) 100 ltac:(lra)) as K.
    rewrite Hpc. lra.
  - intro Le.
    assert (S0 : 0 <= spread mt) by (rewrite Hsp; apply context_round_nonneg; lra).
    split; [exact S0|]. rewrite Hpc. apply Lo. exact S0.
  - intro Lt.
    assert (S0 : spread mt <= 0) by (rewrite Hsp; apply context_round_nonpos; lra).
    split; [exact S0|]. rewrite Hpc. apply Up. exact S0.
Qed.

Lemma spread_percent_is_bounded_witness :
  let m := set_asks [(1, 1)] (set_bids [(1e-30, 1)] (init 0)) in
  exists mt,
    get_metrics ROUND_HALF_EVEN 1 m = Ok mt /\
    0 < best_bid mt /\ 0 < best_ask mt /\ representable (best_ask mt) /\
    spread_pct mt == 100 /\ spread_pct mt <= 100.
Proof.
  cbv zeta.
  set (m := set_asks [(1, 1)] (set_bids [(1e-30, 1)] (init 0))).
  destruct (get_metrics ROUND_HALF_EVEN 1 m) as [mt|e] eqn:E; [|vm_compute in E; discriminate E].
  exists mt.
  assert (V : best_bid mt == 1e-30 /\ best_ask mt = 1 /\ spread_pct mt == 100).
  { clear - E. vm_compute in E. injection E as <-. split; [reflexivity|]. split; reflexivity. }
  destruct V as (Vb & Va & Vp).
  assert (Pb : 0 < best_bid mt) by (rewrite Vb; reflexivity).
  assert (Pa : 0 < best_ask mt) by (rewrite Va; reflexivity).
  assert (Ra : representable (best_ask mt)) by (rewrite Va; exact representable_1).
  split; [reflexivity|]. split; [exact Pb|]. split; [exact Pa|]. split; [exact Ra|].
  split; [exact Vp|].
  exact (proj1 (spread_percent_is_bounded ROUND_HALF_EVEN 1 m mt E Pb Pa) Ra).
Defined.

(** X20.  The imbalance of the two sides is complementary up to the rounding
    of the sums, of the quotients and of the doubles: for two books without
    negative quantities that hold each other's sides, the two imbalances add
    up to one within 2^-51. *)
Theorem imbalance_is_complementary :
  forall (r : rounding) (now now' : Q) (m m' : BitgetManager.t) (mt mt' : metrics),
    bids m' = asks m -> asks m' = bids m ->
    all_nonneg (bids m) -> all_nonneg (asks m) ->
    get_metrics r now m = Ok mt -> get_metrics r now' m' = Ok mt' ->
    exists v v',
      imbalance mt = Float v /\ imbalance mt' = Float v' /\
      Qabs (v + v' - 1) <= inject_Z 2 ^ (-51).
Proof.
  intros r now now' m m' mt mt' Eb Ea Hb Ha H H'.
  destruct (imbalance_near r now m mt Hb Ha H)
    as (tb & ts & v & Etb & Ets & [Pb Rb] & [Pa Ra] & Ev & Hp & Hz).
  assert (Hb' : all_nonneg (bids m')) by (rewrite Eb; exact Ha).
  assert (Ha' : all_nonneg (asks m')) by (rewrite Ea; exact Hb).
  destruct (imbalance_near r now' m' mt' Hb' Ha' H')
    as (tb' & ts' & v' & Etb' & Ets' & _ & _ & Ev' & Hp' & Hz').
  rewrite Eb, Ets in Etb'. injection Etb' as <-.
  rewrite Ea, Etb in Ets'. injection Ets' as <-.
  exists v, v'. split; [exact Ev|]. split; [exact Ev'|].
  assert (Et : context_round r (ts + tb) == context_round r (tb + ts))
    by (apply context_round_compat; ring).
  assert (P2 : inject_Z 2 ^ (-52) == 1 # 4503599627370496) by reflexivity.
  assert (P1 : inject_Z 2 ^ (-51) == 1 # 2251799813685248) by reflexivity.
  assert (P10 : inject_Z 10 ^ (-27) == 1 # 1000000000000000000000000000) by reflexivity.
  destruct (Qlt_le_dec 0 (context_round r (tb + ts))) as [P|N].
  - assert (P' : 0 < context_round r (ts + tb)) by (rewrite Et; exact P).
    specialize (Hp P). specialize (Hp' P'). rewrite Et in Hp'.
    assert (Ps : 0 < tb + ts).
    { destruct (Qlt_le_dec 0 (tb + ts)) as [Q|Q]; [exact Q|].
      exfalso. assert (Z0 : tb + ts == 0) by lra.
      pose proof (context_round_0 r _ Z0). lra. }
    pose proof (context_round_sum_error r tb ts Rb Ra Ps) as Se.
    set (T := context_round r (tb + ts)) in *.
    rewrite P2 in Hp, Hp'. rewrite P10 in Hp, Hp', Se. rewrite P1.
    apply Qabs_Qle_condition in Hp. apply Qabs_Qle_condition in Hp'.
    apply Qabs_Qle_condition in Se.
    assert (D1 : (T - (tb + ts)) / T <= (1 # 2) * (1 # 1000000000000000000000000000))
      by (apply Qle_shift_div_r; [exact P|lra]).
    assert (D2 : - ((1 # 2) * (1 # 1000000000000000000000000000)) <= (T - (tb + ts)) / T)
      by (apply Qle_shift_div_l; [exact P|lra]).
    assert (X : tb / T + ts / T - 1 == - ((T - (tb + ts)) / T)) by (field; lra).
    apply Qabs_Qle_condition. split; lra.
  - assert (N0 : ~ 0 < context_round r (tb + ts)) by lra.
    assert (N0' : ~ 0 < context_round r (ts + tb)) by (rewrite Et; exact N0).
    rewrite (Hz N0), (Hz' N0'). rewrite P1. discriminate.
Qed.

Lemma imbalance_is_complementary_witness :
  let m := set_asks [(101, 2)] (set_bids [(100, 1)] (init 0)) in
  let m' := set_asks [(100, 1)] (set_bids [(101, 2)] (init 0)) in
  exists mt mt' v v',
    get_metrics ROUND_HALF_EVEN 1 m = Ok mt /\ get_metrics ROUND_HALF_EVEN 1 m' = Ok mt' /\
    imbalance mt = Float v /\ imbalance mt' = Float v' /\
    v + v' == 1 - inject_Z 2 ^ (-54) /\
    Qabs (v + v' - 1) <= inject_Z 2 ^ (-51).
Proof.
  cbv zeta.
  set (m := set_asks [(101, 2)] (set_bids [(100, 1)] (init 0))).
  set (m' := set_asks [(100, 1)] (set_bids [(101, 2)] (init 0))).
  destruct (get_metrics ROUND_HALF_EVEN 1 m) as [mt|e] eqn:E; [|vm_compute in E; discriminate E].
  destruct (get_metrics ROUND_HALF_EVEN 1 m') as [mt'|e] eqn:E'; [|vm_compute in E'; discriminate E'].
  assert (Fb : all_nonneg (bids m)) by (repeat constructor; discriminate).
  assert (Fa : all_nonneg (asks m)) by (repeat constructor; discriminate).
  destruct (imbalance_is_complementary ROUND_HALF_EVEN 1 1 m m' mt mt' eq_refl eq_refl Fb Fa E E')
    as (v & v' & Ev & Ev' & Hv).
  exists mt, mt', v, v'.
  split; [reflexivity|]. split; [reflexivity|]. split; [exact Ev|]. split; [exact Ev'|].
  split; [|exact Hv].
  clear - E E' Ev Ev'. vm_compute in E, E'. injection E as <-. injection E' as <-.
  cbn [imbalance] in Ev, Ev'. injection Ev as <-. injection Ev' as <-. reflexivity.
Defined.

End Marks.

(** ** The strings of the table *)

Section Formatting.

Local Open Scope string_scope.

Lemma digit_of_char (n : Z) :
  (0 <= n < 10)%Z -> digit_of (digit_char n) = Some n /\ plain (digit_char n).
Proof.
  intro H. rewrite <- (Z2Nat.id n) by lia.
  assert (B : (Z.to_nat n < 10)%nat) by lia.
  revert B. generalize (Z.to_nat n). intros k B.
  do 10 (destruct k as [|k]; [split; [reflexivity|split; reflexivity]|]).
  lia.
Qed.

Lemma pow10_pos (k : nat) : (0 < 10 ^ Z.of_nat k)%Z.
Proof. apply Z.pow_pos_nonneg; lia. Qed.

Lemma low_digit_range (k : nat) (n : Z) : (0 <= (n / 10 ^ Z.of_nat k) mod 10 < 10)%Z.
Proof. apply Z.mod_pos_bound. lia. Qed.

Lemma digits_low (k : nat) (n : Z) :
  forall acc cnt,
    digits (low_digits k n) acc cnt
    = ((acc * 10 ^ Z.of_nat k + n mod 10 ^ Z.of_nat k)%Z, (cnt + k)%nat, "").
Proof.
  induction k as [|k IH]; intros acc cnt.
  - simpl. rewrite Z.mod_1_r, Nat.add_0_r.
    replace (acc * 1 + 0)%Z with acc by lia. reflexivity.
  - cbn [low_digits].
    rewrite (digits_digit _ _ _ _ _ (proj1 (digit_of_char _ (low_digit_range k n)))).
    rewrite IH.
    assert (E1 : ((10 * acc + (n / 10 ^ Z.of_nat k) mod 10) * 10 ^ Z.of_nat k
                  + n mod 10 ^ Z.of_nat k
                  = acc * 10 ^ Z.of_nat (S k) + n mod 10 ^ Z.of_nat (S k))%Z).
    { rewrite Nat2Z.inj_succ, Z.pow_succ_r by lia.
      rewrite (Z.mul_comm 10 (10 ^ Z.of_nat k)).
      rewrite (Z.rem_mul_r n (10 ^ Z.of_nat k) 10) by (pose proof (pow10_pos k); lia).
      ring. }
    assert (E2 : (S cnt + k = cnt + S k)%nat) by lia.
    rewrite E1, E2. reflexivity.
Qed.

Lemma low_digits_length (k : nat) (n : Z) : String.length (low_digits k n) = k.
Proof. induction k as [|k IH]; simpl; [reflexivity|]. rewrite IH. reflexivity. Qed.

Lemma low_digits_plain (k : nat) (n : Z) :
  Forall plain (list_ascii_of_string (low_digits k n)).
Proof.
  induction k as [|k IH]; simpl; constructor; [|exact IH].
  apply digit_of_char, low_digit_range.
Qed.

Ltac digit_step_app IH c k :=
  cbn [append];
  rewrite (digits_digit c k _ _ _ eq_refl);
  match goal with
  | |- digits _ ?a _ = digits _ (Z.pos (Pos.of_uint_acc _ ?q)) _ =>
      replace a with (Z.pos q) by lia
  end;
  rewrite IH; f_equal; lia.

Lemma digits_uint_app (u : Decimal.uint) (rest : string) :
  forall (p : positive) (cnt : nat),
    digits (NilEmpty.string_of_uint u ++ rest) (Z.pos p) cnt
    = digits rest (Z.pos (Pos.of_uint_acc u p)) (cnt + Decimal.nb_digits u)%nat.
Proof.
  induction u as [|u IH|u IH|u IH|u IH|u IH|u IH|u IH|u IH|u IH|u IH];
    intros p cnt; cbn [NilEmpty.string_of_uint Pos.of_uint_acc Decimal.nb_digits].
  - simpl. rewrite Nat.add_0_r. reflexivity.
  - digit_step_app IH "0"%char 0%Z.
  - digit_step_app IH "1"%char 1%Z.
  - digit_step_app IH "2"%char 2%Z.
  - digit_step_app IH "3"%char 3%Z.
  - digit_step_app IH "4"%char 4%Z.
  - digit_step_app IH "5"%char 5%Z.
  - digit_step_app IH "6"%char 6%Z.
  - digit_step_app IH "7"%char 7%Z.
  - digit_step_app IH "8"%char 8%Z.
  - digit_step_app IH "9"%char 9%Z.
Qed.

Ltac digit_step_app0 c k :=
  cbn [append];
  rewrite (digits_digit c k _ _ _ eq_refl); simpl Z.add; rewrite digits_uint_app;
  unfold Z.of_uint; simpl; f_equal; lia.

Lemma digits_uint0_app (u : Decimal.uint) (rest : string) :
  forall cnt,
    digits (NilEmpty.string_of_uint u ++ rest) 0%Z cnt
    = digits rest (Z.of_uint u) (cnt + Decimal.nb_digits u)%nat.
Proof.
  induction u as [|u IH|u IH|u IH|u IH|u IH|u IH|u IH|u IH|u IH|u IH];
    intros cnt; cbn [NilEmpty.string_of_uint Decimal.nb_digits].
  - simpl. rewrite Nat.add_0_r. reflexivity.
  - cbn [append]. rewrite (digits_digit "0"%char 0%Z _ _ _ eq_refl). simpl Z.add.
    rewrite IH. f_equal. lia.
  - digit_step_app0 "1"%char 1%Z.
  - digit_step_app0 "2"%char 2%Z.
  - digit_step_app0 "3"%char 3%Z.
  - digit_step_app0 "4"%char 4%Z.
  - digit_step_app0 "5"%char 5%Z.
  - digit_step_app0 "6"%char 6%Z.
  - digit_step_app0 "7"%char 7%Z.
  - digit_step_app0 "8"%char 8%Z.
  - digit_step_app0 "9"%char 9%Z.
Qed.

Lemma to_uint_value (x : N) :
  N.to_uint x <> Decimal.Nil /\ Z.of_uint (N.to_uint x) = Z.of_N x.
Proof.
  destruct x as [|p]; simpl.
  - split; [discriminate|reflexivity].
  - split; [apply DecimalPos.Unsigned.to_uint_nonnil|].
    unfold Z.of_uint. rewrite DecimalPos.Unsigned.of_to. reflexivity.
Qed.

Lemma nat_digits_spec (n : Z) :
  (0 <= n)%Z ->
  exists u, u <> Decimal.Nil /\ nat_digits n = NilEmpty.string_of_uint u /\
            Z.of_uint u = n.
Proof.
  intro H. exists (N.to_uint (Z.to_N n)).
  destruct (to_uint_value (Z.to_N n)) as [Hn Hv].
  split; [exact Hn|]. split.
  - unfold nat_digits. destruct (N.to_uint (Z.to_N n)); [contradiction|reflexivity..].
  - rewrite Hv. apply Z2N.id, H.
Qed.

Lemma app_chars (a b : string) :
  list_ascii_of_string (a ++ b) = (list_ascii_of_string a ++ list_ascii_of_string b)%list.
Proof. induction a as [|c a IH]; simpl; [reflexivity|]. rewrite IH. reflexivity. Qed.

Lemma sign_of_uint_app (u : Decimal.uint) (rest : string) :
  u <> Decimal.Nil ->
  sign_of (NilEmpty.string_of_uint u ++ rest) = (1%Z, NilEmpty.string_of_uint u ++ rest).
Proof. destruct u; intro H; [contradiction|reflexivity..]. Qed.

Lemma scale10_value (c : Z) (k : nat) :
  (scale10 c (0 - Z.of_nat k) == inject_Z c / inject_Z (10 ^ Z.of_nat k))%Q.
Proof.
  unfold scale10. pose proof (pow10_pos k) as P.
  destruct (Z.leb_spec 0 (0 - Z.of_nat k)) as [H|H].
  - assert (k = 0%nat) by lia. subst k. simpl. unfold Qeq, Qdiv. simpl. lia.
  - replace (- (0 - Z.of_nat k))%Z with (Z.of_nat k) by lia.
    rewrite (Qmake_Qdiv c (Z.to_pos (10 ^ Z.of_nat k))).
    rewrite Z2Pos.id by exact P. reflexivity.
Qed.

Lemma shown_units_nonneg (r : rounding) (d : Decimal) (k : nat) :
  (0 <= shown_units r d k)%Z.
Proof.
  unfold shown_units. pose proof (pow10_pos k) as P.
  assert (S : (0 <= Qabs d * inject_Z (10 ^ Z.of_nat k))%Q).
  { apply Qmult_le_0_compat; [apply Qabs_nonneg|].
    change 0%Q with (inject_Z 0). rewrite <- Zle_Qle. lia. }
  destruct (_ <? _)%Z.
  - apply round_units_nonneg. exact S.
  - apply (Qfloor_resp_le 0). exact S.
Qed.

Lemma fmt_reads_back (r : rounding) (d : Decimal) (k : nat) :
  of_string (fmt_decimal_fixed r d k)
  = Some (scale10 ((if ltb d 0 then -1 else 1) * shown_units r d k) (0 - Z.of_nat k)).
Proof.
  pose proof (shown_units_nonneg r d k) as M0.
  unfold fmt_decimal_fixed. cbv zeta.
  set (m := shown_units r d k) in *.
  pose proof (pow10_pos k) as P.
  destruct (nat_digits_spec (m / 10 ^ Z.of_nat k)) as (u & Hu & Eu & Vu).
  { apply Z.div_pos; lia. }
  rewrite Eu.
  set (body := NilEmpty.string_of_uint u ++ "." ++ low_digits k m).
  assert (Pb : Forall plain (list_ascii_of_string body)).
  { unfold body. rewrite app_chars. apply Forall_app. split; [apply uint_chars_plain|].
    simpl. constructor; [split; reflexivity|apply low_digits_plain]. }
  assert (N1 : exists j, (0 + Decimal.nb_digits u)%nat = S j).
  { destruct (Decimal.nb_digits u) eqn:E; [|eexists; reflexivity].
    apply DecimalFacts.nb_digits_0 in E. contradiction. }
  destruct N1 as [j N1].
  assert (Core : forall sg,
             (let '(ip, n1, s2) := digits body 0%Z 0 in
              let '(fp, n2, s3) :=
                match s2 with
                | String "." rest => digits rest ip 0
                | _ => (ip, 0%nat, s2)
                end in
              match (n1 + n2)%nat with
              | O => None
              | S _ =>
                  match exponent s3 with
                  | Some e => Some (scale10 (sg * fp) (e - Z.of_nat n2))
                  | None => None
                  end
              end) = Some (scale10 (sg * m) (0 - Z.of_nat k))).
  { intro sg. unfold body. rewrite digits_uint0_app, N1. cbn [append digits].
    change (digit_of ".") with (@None Z). cbv beta iota zeta.
    rewrite digits_low. cbv beta iota zeta. simpl exponent. cbv beta iota zeta.
    rewrite Vu. simpl Nat.add.
    replace (m / 10 ^ Z.of_nat k * 10 ^ Z.of_nat k + m mod 10 ^ Z.of_nat k)%Z with m
      by (rewrite (Z.div_mod m (10 ^ Z.of_nat k)) at 1; lia).
    reflexivity. }
  unfold of_string.
  destruct (ltb d 0).
  - assert (Pn : Forall plain (list_ascii_of_string (String "-" body))).
    { simpl. constructor; [split; reflexivity|exact Pb]. }
    rewrite (strip_plain _ Pn), (drop_underscores_plain _ Pn). cbn [sign_of].
    apply Core.
  - rewrite (strip_plain _ Pb), (drop_underscores_plain _ Pb).
    unfold body at 1. rewrite (sign_of_uint_app u _ Hu). fold body.
    apply Core.
Qed.

Local Open Scope Q_scope.

Lemma Qabs_div_pos (x S : Q) : 0 < S -> Qabs (x / S) == Qabs x / S.
Proof.
  intro H. unfold Qdiv. rewrite Qabs_Qmult, Qabs_Qinv, (Qabs_pos S) by lra. reflexivity.
Qed.

Lemma pow10_Q_pos (k : nat) : 0 < inject_Z (10 ^ Z.of_nat k).
Proof.
  change 0 with (inject_Z 0). rewrite <- Zlt_Qlt. apply pow10_pos.
Qed.

Lemma shown_units_error (r : rounding) (d : Decimal) (k : nat) :
  let S := inject_Z (10 ^ Z.of_nat k) in
  let e := inject_Z (shown_units r d k) - Qabs d * S in
  Qabs e < 1 /\
  (Qabs d * S + (1 # 2) < inject_Z (10 ^ PREC) -> Qabs e <= 1 # 2).
Proof.
  cbv zeta. unfold shown_units.
  set (scaled := Qabs d * inject_Z (10 ^ Z.of_nat k)).
  destruct (round_units_near r scaled) as [F1 F2].
  pose proof (Qfloor_le scaled) as G1.
  pose proof (Qlt_floor scaled) as G2.
  rewrite inject_Z_plus in G2.
  change (inject_Z 1) with 1 in G2.
  destruct (Z.ltb_spec (round_units r scaled) (10 ^ PREC)) as [L|L].
  - split; [apply Qabs_Qlt_condition; lra|].
    intros _. apply Qabs_Qle_condition. lra.
  - split; [apply Qabs_Qlt_condition; lra|].
    intro H. exfalso.
    rewrite Zle_Qle in L. lra.
Qed.

Lemma fmt_value (r : rounding) (d : Decimal) (k : nat) :
  let S := inject_Z (10 ^ Z.of_nat k) in
  let v := scale10 ((if ltb d 0 then -1 else 1) * shown_units r d k) (0 - Z.of_nat k) in
  Qabs (v - d) == Qabs (inject_Z (shown_units r d k) - Qabs d * S) / S.
Proof.
  cbv zeta. pose proof (pow10_Q_pos k) as P.
  rewrite scale10_value.
  set (S := inject_Z (10 ^ Z.of_nat k)) in *.
  set (m := shown_units r d k).
  rewrite <- (Qabs_div_pos _ S P).
  destruct (ltb d 0) eqn:E.
  - apply ltb_lt in E. rewrite (Qabs_neg d) by lra.
    rewrite inject_Z_mult. change (inject_Z (-1)) with (-1).
    rewrite <- (Qabs_opp ((inject_Z m - - d * S) / S)).
    apply Qabs_wd. field. lra.
  - apply ltb_ge in E. rewrite (Qabs_pos d) by lra.
    rewrite inject_Z_mult. change (inject_Z 1) with 1.
    apply Qabs_wd. field. lra.
Qed.

End Formatting.

(** ** What the page is given *)

Section Display.

Local Open Scope string_scope.
Local Open Scope Q_scope.

Lemma uint_chars_digits (u : Decimal.uint) : all_digits (NilEmpty.string_of_uint u).
Proof.
  unfold all_digits. induction u; simpl; constructor; try assumption; eexists; reflexivity.
Qed.

Lemma low_digits_digits (k : nat) (n : Z) : all_digits (low_digits k n).
Proof.
  unfold all_digits. induction k as [|k IH]; simpl; constructor; [|exact IH].
  destruct (digit_of_char _ (low_digit_range k n)) as [E _]. eexists. exact E.
Qed.

(** X21.  [fmt_decimal(d, ndig, fixed=True)] is a sign, empty or a minus,
    then at least one digit, a point, and exactly [ndig] digits, whatever the
    rounding of the context and whether or not [quantize] raised.  The sign
    is a minus for a negative [d] and empty for a positive one; at zero it is
    that of the zero, of which nothing is said. *)
Theorem formatted_decimal_shape :
  forall (r : rounding) (d : Decimal) (ndig : nat),
    exists sign intp frac,
      fmt_decimal_fixed r d ndig = sign ++ intp ++ "." ++ frac /\
      (sign = "" \/ sign = "-") /\
      (d < 0 -> sign = "-")%Q /\ (0 < d -> sign = "")%Q /\
      intp <> "" /\ all_digits intp /\ all_digits frac /\ String.length frac = ndig.
Proof.
  intros r d ndig. unfold fmt_decimal_fixed. cbv zeta.
  set (m := shown_units r d ndig).
  destruct (nat_digits_spec (m / 10 ^ Z.of_nat ndig)) as (u & Hu & Eu & _).
  { apply Z.div_pos; [apply shown_units_nonneg|apply pow10_pos]. }
  exists (if ltb d 0 then "-" else ""),
         (nat_digits (m / 10 ^ Z.of_nat ndig)), (low_digits ndig m).
  split; [destruct (ltb d 0); reflexivity|].
  split; [destruct (ltb d 0); [right|left]; reflexivity|].
  split.
  { intro H. apply ltb_lt in H. rewrite H. reflexivity. }
  split.
  { intro H. destruct (ltb d 0) eqn:E; [|reflexivity].
    apply ltb_lt in E. exfalso. apply (Qlt_irrefl 0). apply Qlt_trans with d; assumption. }
  rewrite Eu. split.
  { destruct u; [contradiction|simpl; discriminate..]. }
  split; [apply uint_chars_digits|].
  split; [apply low_digits_digits|apply low_digits_length].
Qed.

Lemma formatted_decimal_shape_witness :
  fmt_decimal_fixed ROUND_HALF_EVEN (-1.5)%Q 4 = "-1.5000" /\
  exists sign intp frac,
    fmt_decimal_fixed ROUND_HALF_EVEN (-1.5)%Q 4 = sign ++ intp ++ "." ++ frac /\
    sign = "-" /\ String.length frac = 4%nat.
Proof.
  split; [reflexivity|].
  destruct (formatted_decimal_shape ROUND_HALF_EVEN (-1.5)%Q 4)
    as (sign & intp & frac & E & _ & Hn & _ & _ & _ & _ & L).
  exists sign, intp, frac. split; [exact E|]. split; [apply Hn; reflexivity|exact L].
Defined.

Lemma fmt_reads_within (r : rounding) (d : Decimal) (ndig : nat) :
  reads_within (fmt_decimal_fixed r d ndig) d ndig.
Proof.
  eexists. split; [apply fmt_reads_back|].
  pose proof (fmt_value r d ndig) as V. cbv zeta in V. rewrite V.
  destruct (shown_units_error r d ndig) as [E _].
  pose proof (pow10_Q_pos ndig) as P.
  unfold Qdiv. apply Qmult_lt_compat_r; [apply Qinv_lt_0_compat; exact P|exact E].
Qed.

(** X22.  Read back by [Decimal], the string of [fmt_decimal] is less than
    one unit of its last place away from the number formatted, also when
    [quantize] raised and the digits were cut. *)
Theorem formatted_decimal_reads_back :
  forall (r : rounding) (d : Decimal) (ndig : nat),
    exists v, of_string (fmt_decimal_fixed r d ndig) = Some v /\
              Qabs (v - d) < 1 / inject_Z (10 ^ Z.of_nat ndig).
Proof.
  intros r d ndig. exact (fmt_reads_within r d ndig).
Qed.

(** X23.  When the rounded number fits the precision of the context, the
    string of [fmt_decimal] is at most half a unit of its last place away from
    the number formatted. *)
Theorem formatted_decimal_rounds_to_nearest :
  forall (r : rounding) (d : Decimal) (ndig : nat),
    Qabs d * inject_Z (10 ^ Z.of_nat ndig) + (1 # 2) < inject_Z (10 ^ PREC) ->
    exists v, of_string (fmt_decimal_fixed r d ndig) = Some v /\
              Qabs (v - d) <= (1 # 2) / inject_Z (10 ^ Z.of_nat ndig).
Proof.
  intros r d ndig H. eexists. split; [apply fmt_reads_back|].
  pose proof (fmt_value r d ndig) as V. cbv zeta in V. rewrite V.
  destruct (shown_units_error r d ndig) as [_ E]. specialize (E H).
  pose proof (pow10_Q_pos ndig) as P.
  unfold Qdiv. apply Qmult_le_compat_r; [exact E|].
  apply Qlt_le_weak, Qinv_lt_0_compat. exact P.
Qed.

Lemma formatted_decimal_rounds_to_nearest_witness :
  Qabs 0.125 * inject_Z (10 ^ Z.of_nat 2) + (1 # 2) < inject_Z (10 ^ PREC) /\
  exists v, of_string (fmt_decimal_fixed ROUND_HALF_EVEN 0.125 2) = Some v /\
            Qabs (v - 0.125) <= (1 # 2) / inject_Z (10 ^ Z.of_nat 2).
Proof.
  split; [reflexivity|].
  apply (formatted_decimal_rounds_to_nearest ROUND_HALF_EVEN 0.125 2). reflexivity.
Defined.

(** X24.  A number with at most [ndig] decimals is formatted exactly: reading
    the string back gives the number. *)
Theorem formatted_decimal_round_trip :
  forall (r : rounding) (d : Decimal) (ndig : nat) (z : Z),
    d * inject_Z (10 ^ Z.of_nat ndig) == inject_Z z ->
    exists v, of_string (fmt_decimal_fixed r d ndig) = Some v /\ v == d.
Proof.
  intros r d ndig z H. eexists. split; [apply fmt_reads_back|].
  pose proof (fmt_value r d ndig) as V. cbv zeta in V.
  destruct (shown_units_error r d ndig) as [E _].
  pose proof (pow10_Q_pos ndig) as P.
  set (S := inject_Z (10 ^ Z.of_nat ndig)) in *.
  set (m := shown_units r d ndig) in *.
  assert (A : Qabs d * S == inject_Z (Z.abs z)).
  { rewrite <- (Qabs_pos S) at 1 by lra. rewrite <- Qabs_Qmult, H. reflexivity. }
  rewrite A in E, V.
  assert (M : m = Z.abs z).
  { apply Qabs_Qlt_condition in E. destruct E as [E1 E2].
    assert (L1 : inject_Z (Z.abs z - 1) < inject_Z m).
    { unfold Zminus. rewrite inject_Z_plus. change (inject_Z (- (1))) with (-1). lra. }
    assert (L2 : inject_Z m < inject_Z (Z.abs z + 1)).
    { rewrite inject_Z_plus. change (inject_Z 1) with 1. lra. }
    rewrite <- Zlt_Qlt in L1, L2. lia. }
  rewrite M in V.
  assert (Z0 : Qabs (scale10 ((if ltb d 0 then -1 else 1) * m) (0 - Z.of_nat ndig) - d) <= 0).
  { rewrite M, V. setoid_replace (inject_Z (Z.abs z) - inject_Z (Z.abs z)) with 0 by ring.
    unfold Qdiv. rewrite Qmult_0_l. apply Qle_refl. }
  apply Qabs_Qle_condition in Z0. lra.
Qed.

Lemma formatted_decimal_round_trip_witness :
  (-101.5) * inject_Z (10 ^ Z.of_nat 4) == inject_Z (-1015000) /\
  exists v, of_string (fmt_decimal_fixed ROUND_HALF_UP (-101.5) 4) = Some v /\ v == -101.5.
Proof.
  split; [reflexivity|].
  apply (formatted_decimal_round_trip ROUND_HALF_UP (-101.5) 4 (-1015000)). reflexivity.
Defined.

Lemma text_row_eqb_eq (a b : text_row) : text_row_eqb a b = true -> a = b.
Proof.
  destruct a, b. unfold text_row_eqb. simpl.
  rewrite !andb_true_iff, !String.eqb_eq.
  intros [[[[[-> ->] ->] ->] ->] ->]. reflexivity.
Qed.

Lemma rows_eqb_eq (a : list text_row) : forall b, rows_eqb a b = true -> a = b.
Proof.
  induction a as [|x a IH]; intros [|y b] H; simpl in H; try discriminate; [reflexivity|].
  apply andb_true_iff in H. destruct H as [H1 H2].
  apply text_row_eqb_eq in H1. apply IH in H2. subst. reflexivity.
Qed.

Lemma updater_pass_sleep (r : rounding) (m : BitgetManager.t) (u : loop_state) :
  sleep_bounded (snd (updater_pass r m u)).
Proof.
  unfold updater_pass, sleep_bounded. cbv zeta. cbn [snd].
  set (u' := if negb _ then _ else _).
  assert (I : 0 <= inject_Z (Z.of_nat (idle_loops u')) * 0.1).
  { apply Qmult_le_0_compat; [|discriminate].
    change 0 with (inject_Z 0). rewrite <- Zle_Qle. lia. }
  destruct (ltb 1.5 _) eqn:E.
  - split; discriminate.
  - apply ltb_ge in E. split; lra.
Qed.

Lemma updater_pass_state (r : rounding) (m : BitgetManager.t) (u : loop_state) :
  last_snapshot u = None \/ last_snapshot u = Some (latest_df u) ->
  let u1 := fst (updater_pass r m u) in
  last_snapshot u1 = Some (latest_df u1) /\
  df_rows (latest_df u1) = rows_list r (top_n m) m.
Proof.
  intros I. unfold updater_pass. cbv zeta. cbn [fst].
  destruct (df_equals (frame_of r m) (last_snapshot u)) eqn:E; cbn [negb].
  - destruct I as [I|I]; rewrite I in E; cbn [df_equals] in E; [discriminate|].
    apply rows_eqb_eq in E. cbn [last_snapshot latest_df].
    split; [exact I|]. rewrite <- E. reflexivity.
  - cbn [last_snapshot latest_df]. split; reflexivity.
Qed.

Lemma updater_loop_spec (r : rounding) (passes : list (bool * BitgetManager.t)) :
  forall u,
    last_snapshot u = None \/ last_snapshot u = Some (latest_df u) ->
    Forall sleep_bounded (snd (_updater_loop r passes u)) /\
    match last_read passes with
    | Some m =>
        df_rows (latest_df (fst (_updater_loop r passes u))) = rows_list r (top_n m) m /\
        last_snapshot (fst (_updater_loop r passes u))
        = Some (latest_df (fst (_updater_loop r passes u)))
    | None => fst (_updater_loop r passes u) = u
    end.
Proof.
  induction passes as [|[stop_seen m] rest IH]; intros u I; cbn [_updater_loop last_read].
  - split; [constructor|reflexivity].
  - destruct stop_seen; [split; [constructor|reflexivity]|].
    pose proof (updater_pass_sleep r m u) as S.
    pose proof (updater_pass_state r m u I) as T. cbv zeta in T.
    destruct (updater_pass r m u) as [u1 slept]. cbn [fst snd] in S, T.
    destruct T as [T1 T2].
    specialize (IH u1 (or_intror T1)).
    destruct (_updater_loop r rest u1) as [u2 sleeps]. cbn [fst snd] in IH |- *.
    destruct IH as [B L]. split; [constructor; assumption|].
    destruct (last_read rest) as [m'|].
    + exact L.
    + subst u2. split; [exact T2|exact T1].
Qed.

(** X25.  Started with no frame, the updater sleeps between half a second and
    two seconds after every pass, and when it has made a pass the frame it
    has published shows the rows of the state its last pass read and is the
    one it compares with next. *)
Theorem updater_publishes_the_last_table :
  forall (r : rounding) (passes : list (bool * BitgetManager.t)),
    let u := fst (_updater_loop r passes loop_start) in
    Forall sleep_bounded (snd (_updater_loop r passes loop_start)) /\
    match last_read passes with
    | Some m => df_rows (latest_df u) = rows_list r (top_n m) m /\
                last_snapshot u = Some (latest_df u)
    | None => u = loop_start
    end.
Proof.
  intros r passes. cbv zeta.
  apply (updater_loop_spec r passes loop_start). left. reflexivity.
Qed.

Lemma cell_text_shows (r : rounding) (top : list level) (mark : option nat) (i : nat) :
  let t := cell_text r (cell_at top mark i) in
  side_shows r (fst (fst t)) (snd (fst t)) (snd t) (starred mark i) (nth_error top i).
Proof.
  cbv zeta. pose proof (cell_at_spec top mark i) as C.
  unfold cell_at in *. destruct (nth_error top i) as [[p q]|]; cbn [cell_text fst snd side_shows].
  - cbn [cell_qty cell_price cell_star cell_value] in *. destruct C as [_ C].
    split; [apply fmt_reads_within|]. split; [reflexivity|].
    destruct (fmt_reads_within r
                (if (negb (eqb p 0) && negb (eqb q 0))%bool then p * q else 0) VALUE_DIGITS)
      as (v & Hv & Ev).
    exists v. split; [exact Hv|].
    assert (W : Qabs (v - p * q)
                == Qabs (v - (if (negb (eqb p 0) && negb (eqb q 0))%bool then p * q else 0))).
    { apply Qabs_wd. rewrite C. reflexivity. }
    rewrite W. exact Ev.
  - split; [reflexivity|]. split; reflexivity.
Qed.

(** X26.  In row [i] of the text of the table each side shows the level of
    rank [i] of its selection: the quantity and the value price times
    quantity read back within one unit of their last places, the price is
    formatted to six places and followed by the star on the marked row; a
    side with no level of that rank is three empty strings. *)
Theorem table_text_follows_the_selection :
  forall (r : rounding) (N : Z) (m : BitgetManager.t) (i : nat) (row : text_row),
    nth_error (rows_list r N m) i = Some row ->
    let f := build_dataframe r N m in
    side_shows r (sell_qty row) (sell_price row) (sell_val row)
      (starred (nearest_ask_idx f) i) (nth_error (top_asks f) i) /\
    side_shows r (buy_qty row) (buy_price row) (buy_val row)
      (starred (nearest_bid_idx f) i) (nth_error (top_bids f) i).
Proof.
  intros r N m i row H. cbv zeta. unfold rows_list in H.
  rewrite nth_error_map in H.
  destruct (nth_error (rows (build_dataframe r N m)) i) as [[a b]|] eqn:E; [|discriminate].
  destruct (rows_nth r N m i a b E) as [-> ->].
  cbn [option_map] in H. injection H as <-.
  unfold row_text. cbn [fst snd].
  pose proof (cell_text_shows r (top_asks (build_dataframe r N m))
                (nearest_ask_idx (build_dataframe r N m)) i) as A.
  pose proof (cell_text_shows r (top_bids (build_dataframe r N m))
                (nearest_bid_idx (build_dataframe r N m)) i) as B.
  cbv zeta in A, B.
  destruct (cell_text r (cell_at (top_asks _) _ i)) as [[sq sp] sv].
  destruct (cell_text r (cell_at (top_bids _) _ i)) as [[bq bp] bv].
  split; [exact A|exact B].
Qed.

Lemma table_text_follows_the_selection_witness :
  let m := set_asks [(101, 3)] (set_bids [(100, 2); (99.5, 5)] (init 0)) in
  let row := mk_text_row "" "" "" "200.00" "100.000000" "2.0000" in
  nth_error (rows_list ROUND_HALF_EVEN 5 m) 1 = Some row /\
  side_shows ROUND_HALF_EVEN (sell_qty row) (sell_price row) (sell_val row)
    (starred (nearest_ask_idx (build_dataframe ROUND_HALF_EVEN 5 m)) 1)
    (nth_error (top_asks (build_dataframe ROUND_HALF_EVEN 5 m)) 1) /\
  side_shows ROUND_HALF_EVEN (buy_qty row) (buy_price row) (buy_val row)
    (starred (nearest_bid_idx (build_dataframe ROUND_HALF_EVEN 5 m)) 1)
    (nth_error (top_bids (build_dataframe ROUND_HALF_EVEN 5 m)) 1).
Proof.
  cbv zeta.
  assert (E : nth_error (rows_list ROUND_HALF_EVEN 5
                (set_asks [(101, 3)] (set_bids [(100, 2); (99.5, 5)] (init 0)))) 1
              = Some (mk_text_row "" "" "" "200.00" "100.000000" "2.0000"))
    by (vm_compute; reflexivity).
  split; [exact E|].
  exact (table_text_follows_the_selection ROUND_HALF_EVEN 5 _ 1%nat _ E).
Defined.

End Display.

(** ** The dispatch of a book push *)

Section Dispatch.

Local Open Scope string_scope.

(** X27.  A push on a channel whose name does not contain [trade], with a
    block that has bids or asks and no block with a key [p], [price] or
    [last], is handled as [apply_books] on its blocks: the handler adds no
    change and no exception of its own. *)
Theorem books_push_is_applied :
  forall (channel : string) (blocks : list pyval) (now : Q) (m : BitgetManager.t),
    channel <> "" ->
    contains "trade" channel = false ->
    existsb book_shaped blocks = true ->
    existsb trade_shaped blocks = false ->
    _on_message (Some (stream_push channel blocks)) now m = apply_books blocks now m.
Proof.
  intros channel blocks now m Hc Ht Hb Hn.
  assert (E1 : is_control (stream_push channel blocks) = Ok false) by reflexivity.
  assert (E2 : channel_of (stream_push channel blocks) = Ok (PStr channel)).
  { unfold channel_of, stream_push. simpl.
    destruct (channel =? "") eqn:E; [|reflexivity].
    apply String.eqb_eq in E. contradiction. }
  assert (E3 : get "data" (stream_push channel blocks) = Ok (PList blocks)) by reflexivity.
  unfold _on_message. rewrite E1, E2, E3, Hb, Hn.
  destruct (apply_books blocks now m) as [m1 [e|]]; [reflexivity|].
  cbn [str_in]. rewrite Ht. reflexivity.
Qed.

Lemma books_push_is_applied_witness :
  let blocks := books_data [level_entry "100" "2"] [level_entry "101" "3"] in
  "books" <> "" /\
  contains "trade" "books" = false /\
  existsb book_shaped blocks = true /\
  existsb trade_shaped blocks = false /\
  _on_message (Some (stream_push "books" blocks)) 7 (init 0) = apply_books blocks 7 (init 0).
Proof.
  cbv zeta.
  split; [discriminate|]. split; [reflexivity|]. split; [reflexivity|].
  split; [reflexivity|].
  apply (books_push_is_applied "books"
           (books_data [level_entry "100" "2"] [level_entry "101" "3"]) 7 (init 0));
    [discriminate|reflexivity|reflexivity|reflexivity].
Defined.

End Dispatch.
